(** * TITAN x VNSTOCK adaptive scanner: indicator, impulse and backtest engine

    A shallow embedding of [core/titan_math.py], [strategies/alpha_scanner.py]
    and the ranking step of [main.py], followed by the properties of the
    engine that the specification states.

    Numbers.  The Python code computes on IEEE doubles (pandas / numpy).
    Here every float is an exact rational [Q]: rounding, overflow, infinities
    and NaN of the inputs are outside the model.  The three places where the
    code itself manufactures a special value are modelled explicitly:
    - [shift(1)] puts a NaN in front of a column: a shifted column is a
      [list (option Q)] and [None] is the NaN;
    - [tr_smooth.replace(0, nan)] followed by [fillna(0)] is the test
      "smoothed true range is zero" in [di_at];
    - [-float('inf')], the initial incumbent of the grid search, is [NegInf].
    Equality of floats ([==]) is [Qeq]; [>] is [Qlt] flipped.  The backtest
    divides by closing prices; numpy answers a zero divisor with inf or nan,
    [Q] answers 0, so the figures of the model are those of the code on
    series whose closing prices are not zero.

    Exceptions.  A function that can raise returns [res]; [Raise] carries
    the Python exception.  The data client, which swallows its own
    exceptions and answers with an empty frame, is a parameter. *)

From Stdlib Require Import QArith Qabs Qminmax ZArith Lia Lqa.
From Stdlib Require Import Sorting.Sorted Sorting.Permutation.
From stdpp Require Import base list strings.

Open Scope Q_scope.

(** ** Floats as rationals *)

(** [a > b] on floats. *)
Definition Qgtb (a b : Q) : bool :=
  match a ?= b with Gt => true | _ => false end.

(** [a < b] on floats. *)
Definition Qltb (a b : Q) : bool := Qgtb b a.

(** A column produced by [Series.shift(1)]: the first cell is NaN. *)
Definition shift1 {A} (s : list A) : list (option A) :=
  take (length s) (None :: (Some <$> s)).

(** [a == b] where [a] comes from a shifted column: NaN compares unequal. *)
Definition nan_eqb (a : option Q) (b : Q) : bool :=
  match a with Some x => Qeq_bool x b | None => false end.

(** ** Exceptions *)

Inductive exn := ZeroDivisionError | ValueError | IndexError.

Inductive res (A : Type) :=
| Ok (a : A)
| Raise (e : exn).
Arguments Ok {A} a.
Arguments Raise {A} e.

#[global] Instance res_ret : MRet res := fun A a => Ok a.
#[global] Instance res_bind : MBind res := fun A B f m =>
  match m with Ok a => f a | Raise e => Raise e end.

(** [for i in indices: st = body(st, i)], an exception leaving the loop. *)
Fixpoint for_each {S} (body : S -> nat -> res S) (indices : list nat) (st : S) : res S :=
  match indices with
  | [] => Ok st
  | i :: rest => st' ← body st i; for_each body rest st'
  end.

(** [Series.iloc[i]] with a non-negative position. *)
Definition iloc {A} (s : list A) (i : nat) : res A :=
  match s !! i with Some x => Ok x | None => Raise IndexError end.

(** [Series.iloc[-k]], [k >= 1]: the position counts from the end. *)
Definition iloc_neg {A} (s : list A) (k : nat) : res A :=
  if (length s <? k)%nat then Raise IndexError else iloc s (length s - k).

(** [range(lo, hi)]. *)
Definition py_range (lo hi : Z) : list Z :=
  (fun k => (lo + Z.of_nat k)%Z) <$> seq 0 (Z.to_nat (hi - lo)).

(** [list.sort(key=..., reverse=...)]: a stable sort that compares keys with
    [<] only.  The result of a stable sort does not depend on the algorithm;
    insertion from the right is the simplest one.  With [reverse=True] the
    order is descending and equal keys still keep their original order. *)
Section PySort.
Context {A K : Type} (ltb : K -> K -> bool) (key : A -> K) (reverse : bool).

Definition before (x y : A) : bool :=
  if reverse then ltb (key x) (key y) else ltb (key y) (key x).

Fixpoint insert_by (x : A) (l : list A) : list A :=
  match l with
  | [] => [x]
  | y :: l' => if before x y then y :: insert_by x l' else x :: y :: l'
  end.

Definition list_sort (l : list A) : list A := foldr insert_by [] l.
End PySort.

(** A numpy array cell [a[i]] read at a position the loop keeps in range. *)
Definition cell (a : list Q) (i : nat) : Q := nth i a 0.

(** ** Price data *)

(** One row of the DataFrame; only the columns the engine reads. *)
Record bar := mkBar { High : Q; Low : Q; Close : Q }.

Definition frame := list bar.

(** ** core/titan_math.py *)

Module TitanMath.

(** pandas [ewm(alpha, adjust=False).mean()]:
    [y0 = x0], [y_t = (1 - alpha) * y_(t-1) + alpha * x_t]. *)
Fixpoint ewm_from (alpha weighted : Q) (vals : list Q) : list Q :=
  match vals with
  | [] => []
  | cur :: rest =>
      let weighted' := (1 - alpha) * weighted + alpha * cur in
      weighted' :: ewm_from alpha weighted' rest
  end.

Definition ewm_mean (alpha : Q) (series : list Q) : list Q :=
  match series with
  | [] => []
  | x0 :: rest => x0 :: ewm_from alpha x0 rest
  end.

(** [series.ewm(alpha=1.0/length, adjust=False).mean()].  [1.0/length]
    raises ZeroDivisionError for [length = 0]; pandas rejects an [alpha]
    outside (0, 1] with ValueError. *)
Definition rma (series : list Q) (length : Z) : res (list Q) :=
  if (length =? 0)%Z then Raise ZeroDivisionError
  else
    let alpha := 1 / inject_Z length in
    if Qle_bool alpha 0 || Qgtb alpha 1 then Raise ValueError
    else Ok (ewm_mean alpha series).

(** Row-wise [max] of [high - low], [abs(high - prev_close)],
    [abs(low - prev_close)]; [max(axis=1)] skips the NaN cells of row 0. *)
Definition true_range (h l : Q) (prev_close : option Q) : Q :=
  match prev_close with
  | None => h - l
  | Some c => Qmax (Qmax (h - l) (Qabs (h - c))) (Qabs (l - c))
  end.

(** [np.where((a > b) & (a > 0), a, 0)] on two columns that are NaN together
    (row 0): a comparison with NaN is False. *)
Definition dm_at (a b : option Q) : Q :=
  match a, b with
  | Some x, Some y => if Qgtb x y && Qgtb x 0 then x else 0
  | _, _ => 0
  end.

(** [(smooth / tr_smooth.replace(0, nan)) * 100] then [fillna(0)]. *)
Definition di_at (smooth tr_smooth : Q) : Q :=
  if Qeq_bool tr_smooth 0 then 0 else (smooth / tr_smooth) * 100.

(** The columns [calculate_di] builds before smoothing. *)
Definition true_ranges (df : frame) : list Q :=
  let high := High <$> df in
  let low := Low <$> df in
  let prev_close := shift1 (Close <$> df) in
  zip_with (fun hl pc => true_range hl.1 hl.2 pc) (zip high low) prev_close.

(** [high - high.shift(1)]. *)
Definition up_moves (df : frame) : list (option Q) :=
  let high := High <$> df in
  zip_with (fun h ph => (fun p => h - p) <$> ph) high (shift1 high).

(** [low.shift(1) - low]. *)
Definition down_moves (df : frame) : list (option Q) :=
  let low := Low <$> df in
  zip_with (fun pl l => (fun p => p - l) <$> pl) (shift1 low) low.

Definition plus_dms (df : frame) : list Q :=
  zip_with dm_at (up_moves df) (down_moves df).

Definition minus_dms (df : frame) : list Q :=
  zip_with dm_at (down_moves df) (up_moves df).

Definition calculate_di (df : frame) (length : Z) : res (list Q * list Q) :=
  let tr := true_ranges df in
  let plus_dm := plus_dms df in
  let minus_dm := minus_dms df in
  tr_smooth ← rma tr length;
  plus_smooth ← rma plus_dm length;
  minus_smooth ← rma minus_dm length;
  let plus_di := zip_with di_at plus_smooth tr_smooth in
  let minus_di := zip_with di_at minus_smooth tr_smooth in
  Ok (plus_di, minus_di).

(** The body of the stateful loop of [calculate_trend_count]. *)
Definition trend_body (plus_di minus_di : list Q)
    (st : list Q * list Q) (i : nat) : res (list Q * list Q) :=
  let '(positive_count, negative_count) := st in
  prev_plus ← iloc plus_di (i - 1);
  prev_minus ← iloc minus_di (i - 1);
  curr_plus ← iloc plus_di i;
  curr_minus ← iloc minus_di i;
  if Qgtb curr_plus prev_plus && Qgtb curr_plus curr_minus then
    Ok (<[i := cell positive_count (i - 1) + 1]> positive_count,
        <[i := 0]> negative_count)
  else if Qgtb curr_minus prev_minus && Qgtb curr_minus curr_plus then
    Ok (<[i := 0]> positive_count,
        <[i := cell negative_count (i - 1) + 1]> negative_count)
  else
    Ok (<[i := cell positive_count (i - 1)]> positive_count,
        <[i := cell negative_count (i - 1)]> negative_count).

(** [n = len(plus_di)], two [np.zeros(n)], [for i in range(1, n)], and the
    two [pd.Series(..., index=...)] at the end: the second one raises
    ValueError when [minus_di] has another length than the arrays. *)
Definition calculate_trend_count (plus_di minus_di : list Q) : res (list Q * list Q) :=
  let n := length plus_di in
  st ← for_each (trend_body plus_di minus_di) (seq 1 (n - 1))
         (replicate n 0, replicate n 0);
  if (length minus_di =? n)%nat then Ok st else Raise ValueError.

End TitanMath.

Module Backtest.
Import TitanMath.

(** The dictionary returned by [check_alpha_validity]. *)
Record alpha_stats := mkStats {
  is_valid : bool;
  alpha : Q;
  algo_ret : Q;
  buy_hold : Q;
  total_trades : Z;
  reason : option string
}.

Definition insufficient_data : alpha_stats :=
  {| is_valid := false; alpha := 0; algo_ret := 0; buy_hold := 0;
     total_trades := 0; reason := Some "Insufficient data"%string |}.

(** The local variables of the trade loop. *)
Record sim_state := mkSim {
  in_position : bool;
  entry_price : Q;
  total_return : Q;
  trades : Z
}.

Definition sim_init : sim_state :=
  {| in_position := false; entry_price := 0; total_return := 1; trades := 0 |}.

(** [(count == 1) & (count.shift(1) == 0)]. *)
Definition ignition (count : list Q) : list bool :=
  zip_with (fun c p => Qeq_bool c 1 && nan_eqb p 0) count (shift1 count).

(** Realise the open trade at [price].  The quotient is the float of the
    code when the entry price is not 0; on an entry price of 0 numpy
    yields inf or nan, which [Q] cannot hold (there the model has 0). *)
Definition realise (st : sim_state) (price : Q) : Q :=
  let pnl := (price - entry_price st) / entry_price st in
  total_return st * (1 + pnl).

(** One iteration of [for i in range(1, len(df))].  [and] short-circuits:
    when flat only [entry_signal] is read, when invested only [exit_signal]. *)
Definition sim_body (close : list Q) (entry_signal exit_signal : list bool)
    (st : sim_state) (i : nat) : res sim_state :=
  price ← iloc close i;
  if negb (in_position st) then
    entry ← iloc entry_signal i;
    if entry : bool then
      Ok {| in_position := true; entry_price := price;
            total_return := total_return st; trades := trades st |}
    else Ok st
  else
    exit ← iloc exit_signal i;
    if exit : bool then
      Ok {| in_position := false; entry_price := entry_price st;
            total_return := realise st price; trades := (trades st + 1)%Z |}
    else Ok st.

(** [if in_position: ...] after the loop; the flag itself is not cleared,
    it is dead from there on. *)
Definition close_open_position (close : list Q) (st : sim_state) : res sim_state :=
  if in_position st then
    price ← iloc_neg close 1;
    Ok {| in_position := in_position st; entry_price := entry_price st;
          total_return := realise st price; trades := (trades st + 1)%Z |}
  else Ok st.

(** [for i in range(1, len(df))] of [check_alpha_validity]. *)
Definition trade_loop (close : list Q) (pos_count neg_count : list Q) : res sim_state :=
  let entry_signal := ignition pos_count in
  let exit_signal := ignition neg_count in
  for_each (sim_body close entry_signal exit_signal)
    (seq 1 (length close - 1)) sim_init.

(** The trade simulation of [check_alpha_validity], loop and final close. *)
Definition simulate (close : list Q) (pos_count neg_count : list Q) : res sim_state :=
  st ← trade_loop close pos_count neg_count;
  close_open_position close st.

(** The returns and the dual guardrail computed from the simulation.
    [buy_hold_pct] is the float of the code when the first close is not 0;
    on a first close of 0 numpy yields inf or nan (and raises nothing),
    which [Q] cannot hold.  See [nonzero_closes]. *)
Definition stats_of (st : sim_state) (last_close first_close : Q) : alpha_stats :=
  let algo_return_pct := (total_return st - 1) * 100 in
  let buy_hold_pct := ((last_close - first_close) / first_close) * 100 in
  let alpha := algo_return_pct - buy_hold_pct in
  let guardrail_1 := Qgtb algo_return_pct 0 in
  let guardrail_2 := Qgtb algo_return_pct buy_hold_pct in
  {| is_valid := guardrail_1 && guardrail_2; alpha := alpha;
     algo_ret := algo_return_pct; buy_hold := buy_hold_pct;
     total_trades := trades st; reason := None |}.

Definition check_alpha_validity (df : frame) (di_length : Z) : res alpha_stats :=
  if (length df <? 50)%nat then Ok insufficient_data
  else
    '(plus_di, minus_di) ← calculate_di df di_length;
    '(pos_count, neg_count) ← calculate_trend_count plus_di minus_di;
    let close := Close <$> df in
    st ← simulate close pos_count neg_count;
    last_close ← iloc_neg close 1;
    first_close ← iloc close 0;
    Ok (stats_of st last_close first_close).

(** *** The trade loop with a journal

    The code counts exits in [trades] and keeps no record of entries.  To
    speak about entries the same loop is run once more with a journal of
    the events it performs; dropping the journal gives back the loop of the
    code, state for state ([trade_loop_j_erase], [trade_loop_j_total]).
    An event is noted when [in_position] of the code's state flips; the
    price noted with it is read from [close] by the journal, not taken
    from the state. *)
Inductive event :=
| Entry (i : nat) (price : Q)
| Exit (i : nat) (price : Q)
| ForcedExit (price : Q).



Definition sim_body_j (close : list Q) (entry_signal exit_signal : list bool)
    (sj : sim_state * list event) (i : nat) : res (sim_state * list event) :=
  let '(st, journal) := sj in
  price ← iloc close i;
  st' ← sim_body close entry_signal exit_signal st i;
  Ok (st',
      if negb (in_position st) && in_position st' then journal ++ [Entry i price]
      else if in_position st && negb (in_position st') then journal ++ [Exit i price]
      else journal).

Definition close_open_position_j (close : list Q)
    (sj : sim_state * list event) : res (sim_state * list event) :=
  let '(st, journal) := sj in
  st' ← close_open_position close st;
  if in_position st then
    price ← iloc_neg close 1; Ok (st', journal ++ [ForcedExit price])
  else Ok (st', journal).

Definition trade_loop_j (close : list Q) (pos_count neg_count : list Q)
    : res (sim_state * list event) :=
  let entry_signal := ignition pos_count in
  let exit_signal := ignition neg_count in
  for_each (sim_body_j close entry_signal exit_signal)
    (seq 1 (length close - 1)) (sim_init, []).

Definition simulate_j (close : list Q) (pos_count neg_count : list Q)
    : res (sim_state * list event) :=
  sj ← trade_loop_j close pos_count neg_count;
  close_open_position_j close sj.



End Backtest.

(** ** strategies/alpha_scanner.py *)

Module AlphaScanner.
Import TitanMath.

Definition DI_LENGTH_MIN : Z := 1.
Definition DI_LENGTH_MAX : Z := 40.

(** The incumbent alpha of the grid search: [-float('inf')] or a float. *)
Inductive incumbent := NegInf | Fin (a : Q).

(** [current_alpha > best_alpha].  An alpha of the model is a rational and
    so above [-inf].  In the code an alpha that came out of a division by
    0 is [-inf] or nan, for which the test is False: that case lies
    outside the rationals, and the theorems on the grid search assume
    [nonzero_closes] to stay clear of it. *)
Definition beats (current_alpha : Q) (best_alpha : incumbent) : bool :=
  match best_alpha with
  | NegInf => true
  | Fin b => Qgtb current_alpha b
  end.

(** The dictionary returned by [analyze_symbol]. *)
Record analysis := mkAnalysis {
  symbol : string;
  close_price : Q;
  is_valid : bool;
  alpha : Q;
  algo_ret : Q;
  buy_hold : Q;
  total_trades : Z;
  is_buy_signal : bool;
  trend_strength : string;
  plus_di : Q;
  minus_di : Q;
  optimal_length : Z;
  scan_range : string
}.

(** One row of [inspect_ticker_stability]. *)
Record stability_row := mkRow {
  row_length : Z;
  row_alpha : Q;
  row_is_valid : bool;
  row_algo_ret : Q;
  row_buy_hold : Q;
  row_trades : Z
}.

(** The variables of the grid search: [best_result], [best_alpha],
    [best_length]. *)
Definition search_state : Type := option Backtest.alpha_stats * incumbent * Z.

Definition search_init : search_state := (None, NegInf, 14%Z).

(** One iteration of [for length in range(DI_LENGTH_MIN, DI_LENGTH_MAX + 1)];
    [except Exception: continue] keeps the state. *)
Definition search_body (df : frame) (st : search_state) (length : Z) : search_state :=
  let '(best_result, best_alpha, best_length) := st in
  match Backtest.check_alpha_validity df length with
  | Ok alpha_stats =>
      let current_alpha := Backtest.alpha alpha_stats in
      if beats current_alpha best_alpha
      then (Some alpha_stats, Fin current_alpha, length)
      else st
  | Raise _ => st
  end.

Definition grid_search (df : frame) : search_state :=
  fold_left (search_body df) (py_range DI_LENGTH_MIN (DI_LENGTH_MAX + 1)) search_init.

Definition strength_label (strength_val : Q) : string :=
  if Qgtb strength_val 20 then "Strong"
  else if Qgtb strength_val 10 then "Mod"
  else "Weak".

(** The part of [analyze_symbol] after the grid search; any exception in it
    reaches the outer [except] of [analyze_symbol]. *)
Definition signal_of (symbol : string) (df : frame)
    (best_result : Backtest.alpha_stats) (best_length : Z) : res analysis :=
  '(plus_di, minus_di) ← calculate_di df best_length;
  '(pos_count, neg_count) ← calculate_trend_count plus_di minus_di;
  current_pos ← iloc_neg pos_count 1;
  previous_pos ← (if (1 <? length pos_count)%nat then iloc_neg pos_count 2 else Ok 0);
  let is_buy_signal := Qeq_bool current_pos 1 && Qeq_bool previous_pos 0 in
  last_plus ← iloc_neg plus_di 1;
  last_minus ← iloc_neg minus_di 1;
  let strength_val := Qabs (last_plus - last_minus) in
  close_price ← iloc_neg (Close <$> df) 1;
  Ok {| symbol := symbol;
        close_price := close_price;
        is_valid := Backtest.is_valid best_result;
        alpha := Backtest.alpha best_result;
        algo_ret := Backtest.algo_ret best_result;
        buy_hold := Backtest.buy_hold best_result;
        total_trades := Backtest.total_trades best_result;
        is_buy_signal := is_buy_signal;
        trend_strength := strength_label strength_val;
        plus_di := last_plus;
        minus_di := last_minus;
        optimal_length := best_length;
        scan_range := "1-40" |}.

Definition row_of (length : Z) (alpha_stats : Backtest.alpha_stats) : stability_row :=
  {| row_length := length;
     row_alpha := Backtest.alpha alpha_stats;
     row_is_valid := Backtest.is_valid alpha_stats;
     row_algo_ret := Backtest.algo_ret alpha_stats;
     row_buy_hold := Backtest.buy_hold alpha_stats;
     row_trades := Backtest.total_trades alpha_stats |}.

(** One iteration of the loop of [inspect_ticker_stability]. *)
Definition inspect_body (df : frame) (results : list stability_row) (length : Z)
    : list stability_row :=
  match Backtest.check_alpha_validity df length with
  | Ok alpha_stats => results ++ [row_of length alpha_stats]
  | Raise _ => results
  end.

(** The scanner owns a data client; its two methods are the parameters of
    this section.  [get_stock_history] catches its own exceptions and hands
    back an empty frame, so it is a total function here. *)
Section Scanner.
Variable get_stock_history : string -> Z -> frame.
Variable get_vn100_tickers : list string.

Definition analyze_symbol (symbol : string) (days : Z) : option analysis :=
  let df := get_stock_history symbol days in
  if bool_decide (df = []) || (length df <? 50)%nat then None
  else
    let '(best_result, best_alpha, best_length) := grid_search df in
    match best_result with
    | None => None
    | Some best =>
        match signal_of symbol df best best_length with
        | Ok r => Some r
        | Raise _ => None
        end
    end.

(** [results.sort(key=lambda x: x['alpha'], reverse=True)]. *)
Definition sort_by_alpha (results : list analysis) : list analysis :=
  list_sort Qltb alpha true results.

Definition scan_vn100 (days : Z) : list analysis :=
  sort_by_alpha (omap (fun symbol => analyze_symbol symbol days) get_vn100_tickers).

Definition inspect_ticker_stability (symbol : string) (days : Z) : list stability_row :=
  let df := get_stock_history symbol days in
  if bool_decide (df = []) || (length df <? 50)%nat then []
  else
    let results :=
      fold_left (inspect_body df) (py_range DI_LENGTH_MIN (DI_LENGTH_MAX + 1)) [] in
    list_sort Z.ltb row_length false results.

(** [[r for r in all_results if r['is_valid']]] on a fresh [scan_vn100]. *)
Definition get_opportunities (days : Z) : list analysis :=
  List.filter is_valid (scan_vn100 days).

(** [[r for r in all_results if r['is_buy_signal'] and r['is_valid']]]. *)
Definition get_signals (days : Z) : list analysis :=
  List.filter (fun r => is_buy_signal r && is_valid r) (scan_vn100 days).
End Scanner.

End AlphaScanner.

(** ** main.py *)

Module Main.
Import AlphaScanner.

(** [int(b)]. *)
Definition int_of_bool (b : bool) : Z := if b then 1 else 0.

(** The key of [run_scan]: [(-int(is_buy), -int(is_valid), -alpha)]. *)
Definition sort_key (r : analysis) : Z * Z * Q :=
  let is_buy := is_buy_signal r && is_valid r in
  ((- int_of_bool is_buy)%Z, (- int_of_bool (is_valid r))%Z, - alpha r).

(** [a < b] on tuples [(int, int, float)]: the first position where the two
    differ decides. *)
Definition tuple_ltb (a b : Z * Z * Q) : bool :=
  let '(a1, a2, a3) := a in
  let '(b1, b2, b3) := b in
  if negb (a1 =? b1)%Z then (a1 <? b1)%Z
  else if negb (a2 =? b2)%Z then (a2 <? b2)%Z
  else Qltb a3 b3.

Section Scan.
Variable get_stock_history : string -> Z -> frame.
Variable get_vn100_tickers : list string.

(** [results.sort(key=sort_key)]. *)
Definition rank (results : list analysis) : list analysis :=
  list_sort tuple_ltb sort_key false results.

(** The list [run_scan] hands to the table printer. *)
Definition run_scan : list analysis :=
  rank (omap (fun symbol => analyze_symbol get_stock_history symbol 730)
             get_vn100_tickers).
End Scan.

End Main.


(** ** Vocabulary of the specification *)


(** No closing price is 0.  The backtest divides by the first close and by
    the close of every entry bar: on such a series each divisor is
    non-zero, every figure of the code is a finite float and the rational
    model computes the same figure. *)
Definition nonzero_closes (df : frame) : Prop :=
  Forall (fun b => ~ Close b == 0) df.

(** Mutual exclusivity of the two impulse counts of one bar, and of every
    bar of a state of the counting loop. *)
Definition exclusive (p n : Q) : Prop := (0 < p -> n == 0) /\ (0 < n -> p == 0).

Definition all_exclusive (st : list Q * list Q) : Prop :=
  forall j, exclusive (cell st.1 j) (cell st.2 j).

(** One bar of a run-length count: reset, hold, or one more. *)
Definition count_step (a b : Q) : Prop := b == 0 \/ b == a \/ b == a + 1.

(** A well-formed run-length column: it starts at 0, every cell is a
    natural number, and consecutive cells are related by [count_step]. *)
Definition run_length (c : list Q) : Prop :=
  (forall x, c !! 0%nat = Some x -> x == 0) /\
  (forall i x, c !! i = Some x -> exists k : nat, x == inject_Z (Z.of_nat k)) /\
  (forall i a b, c !! i = Some a -> c !! S i = Some b -> count_step a b).

(** The same for an array of the counting loop that is about to visit
    position [i]: the pairs of cells below [i] are settled. *)
Definition settled (i : nat) (c : list Q) : Prop :=
  (forall x, c !! 0%nat = Some x -> x == 0) /\
  (forall j x, c !! j = Some x -> exists k : nat, x == inject_Z (Z.of_nat k)) /\
  (forall j a b, (S j < i)%nat -> c !! j = Some a -> c !! S j = Some b -> count_step a b).

(** The state of the grid search after the lengths [seen]: the incumbent
    is the result of one of them, strictly better than every length tried
    before it and at least as good as every length tried after it. *)
Definition leader (df : frame) (seen : list Z) (st : AlphaScanner.search_state) : Prop :=
  exists s L l1 l2,
    st = (Some s, AlphaScanner.Fin (Backtest.alpha s), L) /\
    seen = l1 ++ L :: l2 /\
    Backtest.check_alpha_validity df L = Ok s /\
    (forall L' s', In L' l1 -> Backtest.check_alpha_validity df L' = Ok s' ->
       Backtest.alpha s' < Backtest.alpha s) /\
    (forall L' s', In L' l2 -> Backtest.check_alpha_validity df L' = Ok s' ->
       Backtest.alpha s' <= Backtest.alpha s).

(** The order of the ranked scan: [a] may stand before [b] when the three
    keys, taken as hard partitions in this order, allow it. *)
Definition ranked_before (a b : AlphaScanner.analysis) : Prop :=
  let buy r := AlphaScanner.is_buy_signal r && AlphaScanner.is_valid r in
  (buy b = true -> buy a = true) /\
  (buy a = buy b -> AlphaScanner.is_valid b = true -> AlphaScanner.is_valid a = true) /\
  (buy a = buy b -> AlphaScanner.is_valid a = AlphaScanner.is_valid b ->
   AlphaScanner.alpha b <= AlphaScanner.alpha a).

(** [r] to the power [n], the bound on what [n] bars can compound to. *)
Fixpoint qpow (r : Q) (n : nat) : Q :=
  match n with
  | O => 1
  | S k => qpow r k * r
  end.

(** The state of the trade loop about to visit bar [i], on closing prices
    between [lo] and [hi]: the return so far is at most [(hi/lo)^(i-1)] and
    an open position was entered at a price of the series. *)
Definition bounded_run (lo hi : Q) (i : nat) (st : Backtest.sim_state) : Prop :=
  0 <= Backtest.total_return st /\
  Backtest.total_return st <= qpow (hi / lo) (i - 1) /\
  (Backtest.in_position st = true -> lo <= Backtest.entry_price st).

(** ** Sample data *)

(** Two short indicator columns: a bullish impulse, a pause, a reversal. *)
Definition sample_plus_di : list Q := [10; 20; 15; 5].
Definition sample_minus_di : list Q := [5; 3; 8; 20].

(** Fifty bars: forty-nine identical ones, then a bar with a lower low. *)
Definition quiet_bar : bar := mkBar 103 97 100.
Definition sample_frame : frame := replicate 49 quiet_bar ++ [mkBar 103 96 100].

(** Six bars, too few for a backtest. *)
Definition short_frame : frame := replicate 6 quiet_bar.

(** Two analysis results: a valid one with a small alpha, and one that beat
    a falling market while losing money, so not valid, with a larger alpha.
    Both obey the formulas of the engine ([sample_results_consistent]). *)
Definition watch_result : AlphaScanner.analysis :=
  {| AlphaScanner.symbol := "FPT"; AlphaScanner.close_price := 101;
     AlphaScanner.is_valid := true; AlphaScanner.alpha := 1;
     AlphaScanner.algo_ret := 1; AlphaScanner.buy_hold := 0;
     AlphaScanner.total_trades := 1; AlphaScanner.is_buy_signal := false;
     AlphaScanner.trend_strength := "Weak"; AlphaScanner.plus_di := 12;
     AlphaScanner.minus_di := 8; AlphaScanner.optimal_length := 3;
     AlphaScanner.scan_range := "1-40" |}.

Definition avoid_result : AlphaScanner.analysis :=
  {| AlphaScanner.symbol := "VNM"; AlphaScanner.close_price := 90;
     AlphaScanner.is_valid := false; AlphaScanner.alpha := 9;
     AlphaScanner.algo_ret := -1; AlphaScanner.buy_hold := -10;
     AlphaScanner.total_trades := 2; AlphaScanner.is_buy_signal := false;
     AlphaScanner.trend_strength := "Weak"; AlphaScanner.plus_di := 8;
     AlphaScanner.minus_di := 12; AlphaScanner.optimal_length := 5;
     AlphaScanner.scan_range := "1-40" |}.

(** A bump: 45 quiet bars, a rise of the close from 1000 to 1010 over two
    bars, a bar with a lower low, and back to the quiet bar. *)
Definition calm_bar : bar := mkBar 1005 995 1000.
Definition bump_frame : frame :=
  replicate 45 calm_bar ++
  [mkBar 1007 995 1000; mkBar 1012 1000 1010; mkBar 1012 998 1010; calm_bar; calm_bar].

(** A slump: 49 bars at 1000, then a fall to 100. *)
Definition slump_frame : frame :=
  replicate 49 (mkBar 1000 1000 1000) ++ [mkBar 1000 100 100].




(** A data client that knows two tickers. *)
Definition sample_client (symbol : string) (days : Z) : frame :=
  if String.eqb symbol "FPT" then bump_frame else slump_frame.


(** ** ui/terminal.py

    The figures the printing functions compute; colours, padding and the
    formatting of floats are left out. *)

Module Terminal.
Import AlphaScanner.

(** [print_results_table]: the trend column. *)
Definition trend_label (r : analysis) : string :=
  if Qgtb (plus_di r) (minus_di r) then "BULL" else "BEAR".

(** [print_results_table]: the signal column. *)
Definition action_label (r : analysis) : string :=
  if is_buy_signal r && is_valid r then "BUY"
  else if is_valid r then "WATCH"
  else "AVOID".

(** [print_results_table]: the valid column. *)
Definition valid_label (r : analysis) : string :=
  if is_buy_signal r && is_valid r then "YES"
  else if is_valid r then "YES"
  else "NO".

(** [print_footer]: [total], [valid], [signals]. *)
Definition footer_counts (results : list analysis) : nat * nat * nat :=
  (length results,
   length (List.filter is_valid results),
   length (List.filter (fun r => is_buy_signal r && is_valid r) results)).

(** [max(iterable, key=...)]: the first item whose key no later item
    exceeds; ValueError on an empty iterable. *)
Fixpoint max_from {A} (key : A -> Q) (best : A) (l : list A) : A :=
  match l with
  | [] => best
  | x :: rest => max_from key (if Qgtb (key x) (key best) then x else best) rest
  end.

Definition py_max {A} (key : A -> Q) (l : list A) : res A :=
  match l with
  | [] => Raise ValueError
  | x :: rest => Ok (max_from key x rest)
  end.

(** [min(iterable, key=...)]. *)
Fixpoint min_from {A} (key : A -> Q) (best : A) (l : list A) : A :=
  match l with
  | [] => best
  | x :: rest => min_from key (if Qltb (key x) (key best) then x else best) rest
  end.

Definition py_min {A} (key : A -> Q) (l : list A) : res A :=
  match l with
  | [] => Raise ValueError
  | x :: rest => Ok (min_from key x rest)
  end.

(** [int(x)] on a float: truncation towards zero. *)
Definition int_of_float (x : Q) : Z := Z.quot (Qnum x) (Zpos (Qden x)).

(** The glyph of a heatmap bar and whether [' << MAX'] follows it. *)
Inductive bar_kind := MaxBar | ValidBar | PositiveBar | ZeroBar | NegativeBar.

(** One printed row of the heatmap: length, glyph, number of glyphs. *)
Record heat_row := mkHeatRow {
  heat_length : Z;
  heat_kind : bar_kind;
  heat_glyphs : Z
}.

Definition bar_max_width : Z := 35.

(** The body of [for r in stability_data].  [int] raises ValueError on nan
    and OverflowError on inf; the alpha of a row of the model is a
    rational and [max_abs] is at least 1, so the quotient is finite and
    [int] returns.  A row whose alpha is infinite or nan (the backtest on
    a first close of 0) is not a row of the model. *)
Definition heat_row_of (best_length : Z) (max_abs : Q) (r : stability_row) : heat_row :=
  let bar_width :=
    if Qgtb max_abs 0
    then int_of_float ((Qabs (row_alpha r) / max_abs) * inject_Z bar_max_width)
    else 0%Z in
  let bar_width := Z.max bar_width 1 in
  if (row_length r =? best_length)%Z then mkHeatRow (row_length r) MaxBar bar_width
  else if Qgtb (row_alpha r) 0 && row_is_valid r
       then mkHeatRow (row_length r) ValidBar bar_width
  else if Qgtb (row_alpha r) 0 then mkHeatRow (row_length r) PositiveBar bar_width
  else if Qeq_bool (row_alpha r) 0 then mkHeatRow (row_length r) ZeroBar 1
  else mkHeatRow (row_length r) NegativeBar bar_width.

(** What [print_parameter_heatmap] works out before printing. *)
Record heatmap := mkHeatmap {
  best : stability_row;
  worst : stability_row;
  max_alpha : Q;
  min_alpha : Q;
  max_abs : Q;
  heat_rows : list heat_row;
  valid_count : nat;
  positive_count : nat;
  avg_alpha : Q;
  recommended : bool
}.

(** [sum(...)] of floats, from the integer 0. *)
Definition py_sum (l : list Q) : Q := fold_left Qplus l 0.

(** [print_parameter_heatmap]; [None] is the early return on an empty
    list.  The built-in [max] and [min] cannot raise after that test. *)
Definition print_parameter_heatmap (stability_data : list stability_row)
    : option (res heatmap) :=
  if bool_decide (stability_data = []) then None
  else Some (
    best ← py_max row_alpha stability_data;
    worst ← py_min row_alpha stability_data;
    let best_length := row_length best in
    max_alpha ← py_max id (row_alpha <$> stability_data);
    min_alpha ← py_min id (row_alpha <$> stability_data);
    max_abs ← py_max id [Qabs max_alpha; Qabs min_alpha; 1];
    let rows := heat_row_of best_length max_abs <$> stability_data in
    let valid_count := length (List.filter row_is_valid stability_data) in
    let positive_count :=
      length (List.filter (fun r => Qgtb (row_alpha r) 0) stability_data) in
    let avg_alpha :=
      py_sum (row_alpha <$> stability_data)
      / inject_Z (Z.of_nat (length stability_data)) in
    Ok {| best := best; worst := worst; max_alpha := max_alpha;
          min_alpha := min_alpha; max_abs := max_abs; heat_rows := rows;
          valid_count := valid_count; positive_count := positive_count;
          avg_alpha := avg_alpha; recommended := row_is_valid best |}).

End Terminal.

(** ** Invariants of the trade loop *)

(** About to visit bar [i]: the trades so far and an open position fit in
    the bars visited, and without a trade the stake is untouched. *)
Definition tallied (i : nat) (st : Backtest.sim_state) : Prop :=
  (0 <= Backtest.trades st)%Z /\
  (2 * Backtest.trades st + (if Backtest.in_position st then 1 else 0)
   <= Z.of_nat i - 1)%Z /\
  (Backtest.trades st = 0%Z -> Backtest.total_return st = 1).

(** On closing prices between [lo] and [hi]: every completed trade
    multiplied the stake by a factor between [lo/hi] and [hi/lo], and an
    open position was entered at a price of the series. *)
Definition capped (lo hi : Q) (st : Backtest.sim_state) : Prop :=
  (0 <= Backtest.trades st)%Z /\
  qpow (lo / hi) (Z.to_nat (Backtest.trades st)) <= Backtest.total_return st /\
  Backtest.total_return st <= qpow (hi / lo) (Z.to_nat (Backtest.trades st)) /\
  (Backtest.in_position st = true ->
   lo <= Backtest.entry_price st /\ Backtest.entry_price st <= hi).

(** ** More vocabulary *)

(** Every bar closes between its low and its high. *)
Definition sound_bars (df : frame) : Prop :=
  Forall (fun b => Low b <= Close b /\ Close b <= High b) df.

(** No bar has a higher high than the bar before it. *)
Definition highs_never_rise (df : frame) : Prop :=
  forall j a b, df !! j = Some a -> df !! S j = Some b -> High b <= High a.

(** ** The rule of the impulse counter *)

(** The two tests of the counting loop at bar [i]: the indicator rose from
    the bar before and is above the other one. *)
Definition bullish (plus_di minus_di : list Q) (i : nat) : Prop :=
  exists prev_plus curr_plus curr_minus,
    plus_di !! (i - 1)%nat = Some prev_plus /\ plus_di !! i = Some curr_plus /\
    minus_di !! i = Some curr_minus /\
    prev_plus < curr_plus /\ curr_minus < curr_plus.

Definition bearish (plus_di minus_di : list Q) (i : nat) : Prop :=
  exists prev_minus curr_minus curr_plus,
    minus_di !! (i - 1)%nat = Some prev_minus /\ minus_di !! i = Some curr_minus /\
    plus_di !! i = Some curr_plus /\
    prev_minus < curr_minus /\ curr_plus < curr_minus.

(** The state logic of the docstring of [calculate_trend_count] at bar
    [i], read on the finished columns. *)
Definition follows_rule (plus_di minus_di pos neg : list Q) (i : nat) : Prop :=
  exists p0 n0 p1 n1,
    pos !! (i - 1)%nat = Some p0 /\ neg !! (i - 1)%nat = Some n0 /\
    pos !! i = Some p1 /\ neg !! i = Some n1 /\
    ((bullish plus_di minus_di i /\ p1 = p0 + 1 /\ n1 = 0) \/
     (~ bullish plus_di minus_di i /\ bearish plus_di minus_di i /\
      n1 = n0 + 1 /\ p1 = 0) \/
     (~ bullish plus_di minus_di i /\ ~ bearish plus_di minus_di i /\
      p1 = p0 /\ n1 = n0)).

(** The loop about to visit bar [k]: both arrays are complete and the
    rule holds on the bars already visited. *)
Definition ruled (plus_di minus_di : list Q) (k : nat) (st : list Q * list Q) : Prop :=
  length st.1 = length plus_di /\ length st.2 = length plus_di /\
  forall i, (1 <= i < k)%nat -> follows_rule plus_di minus_di st.1 st.2 i.

(** What an event of the journal says about the indicators of its bar. *)
Definition justified (plus_di minus_di : list Q) (e : Backtest.event) : Prop :=
  match e with
  | Backtest.Entry i _ => bullish plus_di minus_di i
  | Backtest.Exit i _ => bearish plus_di minus_di i /\ ~ bullish plus_di minus_di i
  | Backtest.ForcedExit _ => True
  end.

(** The books of a journal, kept from the closing prices alone: an entry
    on bar [i] is bought at the close of bar [i]; an exit on bar [i] sells
    at the close of bar [i], the forced exit at the last close, and
    compounds the gain on the entry price into the return.  The prices
    noted in the journal are not read.  The result is the pair (entry
    price, total return). *)
Definition book_event (close : list Q) (acc : Q * Q) (e : Backtest.event) : Q * Q :=
  let '(entry, total) := acc in
  match e with
  | Backtest.Entry i _ => (cell close i, total)
  | Backtest.Exit i _ => (entry, total * (1 + (cell close i - entry) / entry))
  | Backtest.ForcedExit _ =>
      (entry, total * (1 + (cell close (length close - 1) - entry) / entry))
  end.

Definition books (close : list Q) (journal : list Backtest.event) : Q * Q :=
  fold_left (book_event close) journal (0, 1).

(** ** The same prices in another unit *)

(** Every price of the frame multiplied by [c]. *)
Definition rescale (c : Q) (df : frame) : frame :=
  (fun b => mkBar (c * High b) (c * Low b) (c * Close b)) <$> df.

(** Two backtest results with the same figures, as rationals. *)
Definition same_stats (s' s : Backtest.alpha_stats) : Prop :=
  Backtest.is_valid s' = Backtest.is_valid s /\
  Backtest.alpha s' == Backtest.alpha s /\
  Backtest.algo_ret s' == Backtest.algo_ret s /\
  Backtest.buy_hold s' == Backtest.buy_hold s /\
  Backtest.total_trades s' = Backtest.total_trades s /\
  Backtest.reason s' = Backtest.reason s.

(** The simulation on the rescaled closes, next to the one on the
    original closes: same position, same trades, same stake, entry price
    in the other unit. *)
Definition same_position (c : Q) (st' st : Backtest.sim_state) : Prop :=
  Backtest.in_position st' = Backtest.in_position st /\
  Backtest.trades st' = Backtest.trades st /\
  Backtest.total_return st' == Backtest.total_return st /\
  Backtest.entry_price st' == c * Backtest.entry_price st.

(** The grid search on the rescaled frame, next to the one on the
    original frame: same length, same figures. *)
Definition same_search (st' st : AlphaScanner.search_state) : Prop :=
  match st', st with
  | (Some s', AlphaScanner.Fin a', L'), (Some s, AlphaScanner.Fin a, L) =>
      same_stats s' s /\ a' == a /\ L' = L
  | (None, AlphaScanner.NegInf, L'), (None, AlphaScanner.NegInf, L) => L' = L
  | _, _ => False
  end.

(** Two analysis results that say the same about a stock, the price in
    another unit. *)
Definition same_verdict (c : Q) (r' r : AlphaScanner.analysis) : Prop :=
  AlphaScanner.symbol r' = AlphaScanner.symbol r /\
  AlphaScanner.close_price r' == c * AlphaScanner.close_price r /\
  AlphaScanner.is_valid r' = AlphaScanner.is_valid r /\
  AlphaScanner.alpha r' == AlphaScanner.alpha r /\
  AlphaScanner.algo_ret r' == AlphaScanner.algo_ret r /\
  AlphaScanner.buy_hold r' == AlphaScanner.buy_hold r /\
  AlphaScanner.total_trades r' = AlphaScanner.total_trades r /\
  AlphaScanner.is_buy_signal r' = AlphaScanner.is_buy_signal r /\
  AlphaScanner.trend_strength r' = AlphaScanner.trend_strength r /\
  AlphaScanner.plus_di r' == AlphaScanner.plus_di r /\
  AlphaScanner.minus_di r' == AlphaScanner.minus_di r /\
  AlphaScanner.optimal_length r' = AlphaScanner.optimal_length r /\
  AlphaScanner.scan_range r' = AlphaScanner.scan_range r.

(** ** core/data_feed.py: the ticker lists *)

Module DataFeed.

(** [dict.fromkeys(keys)] followed by [list(...)]: a dict keeps its keys in
    the order of their first insertion. *)
Definition dict_insert (d : list string) (key : string) : list string :=
  if existsb (String.eqb key) d then d else d ++ [key].

Definition dict_fromkeys (keys : list string) : list string :=
  fold_left dict_insert keys [].

Definition vn30 : list string :=
  [
   "ACB"; "BCM"; "BID"; "BVH"; "CTG";
   "FPT"; "GAS"; "GVR"; "HDB"; "HPG";
   "MBB"; "MSN"; "MWG"; "PLX"; "POW";
   "SAB"; "SHB"; "SSB"; "SSI"; "STB";
   "TCB"; "TPB"; "VCB"; "VHM"; "VIB";
   "VIC"; "VJC"; "VNM"; "VPB"; "VRE"
  ]%string.

Definition midcap_liquid : list string :=
  [
   "DIG"; "DXG"; "KDH"; "NLG"; "PDR"; "KBC"; "DXS"; "NVL"; "CEO"; "HDG";
   "IJC"; "SCR"; "TDH"; "HAR"; "VRC"; "NHA"; "LDG"; "NBB"; "TIP"; "IDC";
   "VND"; "HCM"; "VCI"; "VIX"; "FTS"; "BSI"; "CTS"; "AGR"; "SHS"; "TVS";
   "APG"; "TCI"; "ART"; "EVF"; "ORS"; "DSC"; "BVS"; "PSI"; "MBS"; "GEX";
   "PC1"; "REE"; "CTD"; "FCN"; "HBC"; "HHV"; "LCG"; "VCG"; "CII"; "HT1";
   "DGC"; "DCM"; "DPM"; "LAS"; "CSV"; "PVD"; "PVT"; "GIL"; "NT2"; "FRT";
   "PNJ"; "DGW"; "MWG"; "VGC"; "PAN"; "HAG"; "HNG"; "ASM"; "AMV"; "CMG";
   "ELC"; "ITD"; "SAM"; "VGI"; "ONE"; "VTP"; "VHC"; "ANV"; "IDI"; "ABT";
   "HSL"; "LSS"; "HAP"; "BBC"; "GMD"; "VOS"; "DVP"; "PHP"; "TMS"; "HAH";
   "VSC"
  ]%string.

(** [list(dict.fromkeys(vn30 + midcap_liquid))]. *)
Definition get_vn100_tickers : list string :=
  dict_fromkeys (vn30 ++ midcap_liquid).

(** The literal list of [get_vn30_tickers]. *)
Definition get_vn30_tickers : list string :=
  [
   "ACB"; "BCM"; "BID"; "BVH"; "CTG";
   "FPT"; "GAS"; "GVR"; "HDB"; "HPG";
   "MBB"; "MSN"; "MWG"; "PLX"; "POW";
   "SAB"; "SHB"; "SSB"; "SSI"; "STB";
   "TCB"; "TPB"; "VCB"; "VHM"; "VIB";
   "VIC"; "VJC"; "VNM"; "VPB"; "VRE"
  ]%string.

End DataFeed.
(** * Properties *)

(** ** Comparisons and the exception monad *)

Lemma Qgtb_true (a b : Q) : Qgtb a b = true <-> b < a.
Proof.
  unfold Qgtb. rewrite Qgt_alt. destruct (a ?= b); split; congruence.
Qed.

Lemma Qgtb_false (a b : Q) : Qgtb a b = false <-> a <= b.
Proof.
  unfold Qgtb. rewrite Qle_alt. destruct (a ?= b); split; congruence.
Qed.

Lemma Qgtb_irrefl (a : Q) : Qgtb a a = false.
Proof. apply Qgtb_false, Qle_refl. Qed.

Lemma Qeq_bool_false (a b : Q) : ~ a == b -> Qeq_bool a b = false.
Proof.
  intros H. destruct (Qeq_bool a b) eqn:E; [|reflexivity].
  apply Qeq_bool_iff in E. contradiction.
Qed.

Lemma bind_Ok {A B} (m : res A) (f : A -> res B) (b : B) :
  m ≫= f = Ok b -> exists a, m = Ok a /\ f a = Ok b.
Proof. destruct m as [a|e]; simpl; [eauto | discriminate]. Qed.

Ltac inv_bind H :=
  let a := fresh "v" in
  let Ha := fresh "Hv" in
  apply bind_Ok in H; destruct H as (a & Ha & H).

Lemma iloc_Ok {A} (s : list A) (i : nat) (x : A) :
  iloc s i = Ok x <-> s !! i = Some x.
Proof. unfold iloc. destruct (s !! i); split; congruence. Qed.

Lemma iloc_lt {A} (s : list A) (i : nat) :
  (i < length s)%nat -> exists x, iloc s i = Ok x /\ s !! i = Some x.
Proof.
  intros H. destruct (lookup_lt_is_Some_2 s i H) as [x Hx].
  exists x. split; [by apply iloc_Ok | done].
Qed.

Lemma cell_lookup (a : list Q) (i : nat) (x : Q) :
  a !! i = Some x -> cell a i = x.
Proof. unfold cell. intros H. by apply nth_lookup_Some with (d := 0) in H. Qed.

Lemma cell_ge (a : list Q) (i : nat) :
  (length a <= i)%nat -> cell a i = 0.
Proof. unfold cell. intros H. by apply nth_overflow. Qed.

(** ** Wilder smoothing *)

Section Smoothing.
Import TitanMath.

Lemma length_ewm_from alpha w vals :
  length (ewm_from alpha w vals) = length vals.
Proof.
  revert w. induction vals as [|x vals IH]; intros w; simpl; [done|].
  by rewrite IH.
Qed.

Lemma length_ewm_mean alpha series :
  length (ewm_mean alpha series) = length series.
Proof. destruct series; simpl; [done|]. by rewrite length_ewm_from. Qed.

Lemma alpha_range (length : Z) :
  (1 <= length)%Z ->
  0 < 1 / inject_Z length /\ 1 / inject_Z length <= 1.
Proof.
  intros H. destruct length as [|p|p]; try lia.
  unfold Qdiv, Qinv, Qmult, Qlt, Qle, inject_Z; simpl. lia.
Qed.

Lemma rma_Ok series (length : Z) :
  (1 <= length)%Z ->
  rma series length = Ok (ewm_mean (1 / inject_Z length) series).
Proof.
  intros H. unfold rma.
  destruct (length =? 0)%Z eqn:E; [lia|].
  destruct (alpha_range length H) as [Hpos Hle].
  assert (Qle_bool (1 / inject_Z length) 0 = false) as ->.
  { destruct (Qle_bool _ _) eqn:E'; [|done].
    apply Qle_bool_iff in E'. exfalso. by apply (Qlt_not_le _ _ Hpos). }
  by assert (Qgtb (1 / inject_Z length) 1 = false) as -> by by apply Qgtb_false.
Qed.

Lemma rma_Raise series (length : Z) :
  (length <= 0)%Z ->
  rma series length = Raise (if (length =? 0)%Z then ZeroDivisionError else ValueError).
Proof.
  intros H. unfold rma. destruct length as [|p|p]; [done | lia | done].
Qed.

Lemma rma_Ok_inv series (length : Z) out :
  rma series length = Ok out ->
  (1 <= length)%Z /\ out = ewm_mean (1 / inject_Z length) series.
Proof.
  intros H. destruct (Z_le_gt_dec 1 length) as [Hl|Hl].
  - rewrite rma_Ok in H by done. split; [done | congruence].
  - rewrite rma_Raise in H by lia. discriminate H.
Qed.

(** The recurrence of [ewm_from], cell by cell. *)
Lemma ewm_from_step alpha w vals i x :
  vals !! i = Some x ->
  exists y, ewm_from alpha w vals !! i = Some y /\
    y = (1 - alpha) * (match i with
                       | O => w
                       | S j => default 0 (ewm_from alpha w vals !! j)
                       end) + alpha * x.
Proof.
  revert w i. induction vals as [|v vals IH]; intros w i Hx; [done|].
  destruct i as [|i]; simpl in *.
  - injection Hx as ->. eauto.
  - destruct (IH ((1 - alpha) * w + alpha * v) i Hx) as (y & Hy & Heq).
    exists y. split; [done|]. rewrite Heq. by destruct i.
Qed.

Lemma ewm_mean_head alpha series :
  ewm_mean alpha series !! 0%nat = series !! 0%nat.
Proof. by destruct series. Qed.

Lemma ewm_mean_step alpha series i x y :
  series !! S i = Some x ->
  ewm_mean alpha series !! i = Some y ->
  ewm_mean alpha series !! S i = Some ((1 - alpha) * y + alpha * x).
Proof.
  destruct series as [|x0 rest]; [done|]. simpl.
  intros Hx Hy. destruct (ewm_from_step alpha x0 rest i x Hx) as (y' & Hy' & ->).
  rewrite Hy'. destruct i as [|i]; simpl in Hy.
  - by injection Hy as ->.
  - by rewrite Hy.
Qed.

Lemma wilder_form (length : Z) (x y : Q) :
  (1 <= length)%Z ->
  (1 - 1 / inject_Z length) * y + 1 / inject_Z length * x
  == y + (x - y) / inject_Z length.
Proof.
  intros H. assert (~ inject_Z length == 0).
  { unfold Qeq, inject_Z; simpl. lia. }
  by field.
Qed.
End Smoothing.

(** ** Directional indicators *)

Section Indicators.
Import TitanMath.

Lemma length_shift1 {A} (s : list A) : length (shift1 s) = length s.
Proof. unfold shift1. rewrite length_take. simpl. rewrite length_fmap. lia. Qed.

Lemma Forall_zip_with_l {A B C} (f : A -> B -> C) (P : A -> Prop) (R : C -> Prop)
    (xs : list A) (ys : list B) :
  Forall P xs -> (forall x y, P x -> R (f x y)) -> Forall R (zip_with f xs ys).
Proof.
  intros Hxs Hf. revert ys.
  induction Hxs as [|x xs Hx _ IH]; intros [|y ys]; simpl; constructor; auto.
Qed.



Lemma dm_at_nonneg a b : 0 <= dm_at a b.
Proof.
  destruct a as [x|], b as [y|]; simpl; try apply Qle_refl.
  destruct (Qgtb x y); simpl; [|apply Qle_refl].
  destruct (Qgtb x 0) eqn:E; [|apply Qle_refl].
  apply Qgtb_true in E. by apply Qlt_le_weak.
Qed.

Lemma zip_with_dm_nonneg (us ds : list (option Q)) :
  Forall (fun t => 0 <= t) (zip_with dm_at us ds).
Proof.
  revert ds. induction us as [|u us IH]; intros [|d ds]; simpl; constructor;
    auto using dm_at_nonneg.
Qed.

Lemma ewm_from_nonneg alpha w vals :
  0 <= alpha -> alpha <= 1 -> 0 <= w ->
  Forall (fun t => 0 <= t) vals ->
  Forall (fun t => 0 <= t) (ewm_from alpha w vals).
Proof.
  intros Ha0 Ha1 Hw Hvals. revert w Hw.
  induction Hvals as [|x vals Hx _ IH]; intros w Hw; simpl; constructor.
  - nra.
  - apply IH. nra.
Qed.

Lemma ewm_mean_nonneg alpha series :
  0 <= alpha -> alpha <= 1 ->
  Forall (fun t => 0 <= t) series ->
  Forall (fun t => 0 <= t) (ewm_mean alpha series).
Proof.
  intros Ha0 Ha1 [|x vals Hx Hvals]; simpl; constructor; [done|].
  by apply ewm_from_nonneg.
Qed.

Lemma di_at_nonneg s t : 0 <= s -> 0 <= t -> 0 <= di_at s t.
Proof.
  intros Hs Ht. unfold di_at. destruct (Qeq_bool t 0) eqn:E; [apply Qle_refl|].
  assert (0 < t).
  { apply Qle_lteq in Ht as [Ht|Ht]; [done|].
    apply Qeq_bool_neq in E. exfalso. apply E. by symmetry. }
  apply Qmult_le_0_compat; [|by compute].
  apply Qle_shift_div_l; [done|]. lra.
Qed.


Lemma Forall2_zip_with_lookup {A B C} (f : A -> B -> C) (xs : list A) (ys : list B) i z :
  zip_with f xs ys !! i = Some z ->
  exists x y, xs !! i = Some x /\ ys !! i = Some y /\ z = f x y.
Proof.
  rewrite lookup_zip_with. intros H.
  destruct (xs !! i) as [x|]; [|done]. destruct (ys !! i) as [y|]; [|done].
  simpl in H. injection H as <-. eauto.
Qed.

(** [calculate_di] returns for every length [>= 1], and whatever it
    returns is built cell by cell with [di_at] from the smoothed columns. *)
Lemma calculate_di_Ok df (length : Z) :
  (1 <= length)%Z ->
  let a := 1 / inject_Z length in
  calculate_di df length =
    Ok (zip_with di_at (ewm_mean a (plus_dms df)) (ewm_mean a (true_ranges df)),
        zip_with di_at (ewm_mean a (minus_dms df)) (ewm_mean a (true_ranges df))).
Proof.
  intros H a. unfold calculate_di. by rewrite !rma_Ok.
Qed.

Lemma calculate_di_Ok_inv df (length : Z) p m :
  calculate_di df length = Ok (p, m) -> (1 <= length)%Z.
Proof.
  unfold calculate_di. intros H. inv_bind H.
  by apply rma_Ok_inv in Hv as [? _].
Qed.

Lemma length_true_ranges df : length (true_ranges df) = length df.
Proof.
  unfold true_ranges.
  rewrite length_zip_with, length_zip, length_shift1, !length_fmap. lia.
Qed.

Lemma length_up_moves df : length (up_moves df) = length df.
Proof.
  unfold up_moves. rewrite length_zip_with, length_shift1, !length_fmap. lia.
Qed.

Lemma length_down_moves df : length (down_moves df) = length df.
Proof.
  unfold down_moves. rewrite length_zip_with, length_shift1, !length_fmap. lia.
Qed.

Lemma length_plus_dms df : length (plus_dms df) = length df.
Proof.
  unfold plus_dms. rewrite length_zip_with, length_up_moves, length_down_moves. lia.
Qed.

Lemma length_minus_dms df : length (minus_dms df) = length df.
Proof.
  unfold minus_dms. rewrite length_zip_with, length_up_moves, length_down_moves. lia.
Qed.

Lemma calculate_di_length df (length_ : Z) p m :
  calculate_di df length_ = Ok (p, m) ->
  length p = length df /\ length m = length df.
Proof.
  intros H. pose proof (calculate_di_Ok_inv _ _ _ _ H) as Hl.
  rewrite calculate_di_Ok in H by done. injection H as <- <-.
  rewrite !length_zip_with, !length_ewm_mean,
    length_plus_dms, length_minus_dms, length_true_ranges. lia.
Qed.
End Indicators.

(** ** Loops *)

Lemma for_each_total {S} (body : S -> nat -> res S) (indices : list nat) (st : S) :
  (forall s i, In i indices -> exists s', body s i = Ok s') ->
  exists st', for_each body indices st = Ok st'.
Proof.
  revert st. induction indices as [|i rest IH]; intros st Hbody; simpl; [eauto|].
  destruct (Hbody st i) as [s' Hs']; [by left|]. rewrite Hs'. simpl.
  apply IH. intros s j Hj. apply Hbody. by right.
Qed.

(** Invariant rule for [for i in range(a, a + k)]: the invariant is indexed
    by the next position to visit. *)
Lemma for_each_seq_inv {S} (I : nat -> S -> Prop) (body : S -> nat -> res S)
    (a k : nat) (st st' : S) :
  I a st ->
  (forall i s s', (a <= i < a + k)%nat -> I i s -> body s i = Ok s' -> I (Datatypes.S i) s') ->
  for_each body (seq a k) st = Ok st' ->
  I (a + k)%nat st'.
Proof.
  revert a st. induction k as [|k IH]; intros a st Ha Hstep Hrun; simpl in Hrun.
  - injection Hrun as <-. by rewrite Nat.add_0_r.
  - inv_bind Hrun. replace (a + Datatypes.S k)%nat with (Datatypes.S a + k)%nat by lia.
    apply (IH (Datatypes.S a) v); [|intros; eapply Hstep; eauto; lia|done].
    eapply Hstep; eauto. lia.
Qed.

(** The same rule for an invariant that does not mention the position. *)
Lemma for_each_inv {S} (P : S -> Prop) (body : S -> nat -> res S)
    (indices : list nat) (st st' : S) :
  P st ->
  (forall i s s', In i indices -> P s -> body s i = Ok s' -> P s') ->
  for_each body indices st = Ok st' ->
  P st'.
Proof.
  revert st. induction indices as [|i rest IH]; intros st Hst Hstep Hrun; simpl in Hrun.
  - by injection Hrun as <-.
  - inv_bind Hrun. apply (IH v); [|intros; eapply Hstep; eauto; by right|done].
    eapply Hstep; eauto. by left.
Qed.

(** ** The impulse state machine *)

Section Impulse.
Import TitanMath.

(** What one transition writes: cell [i] of both arrays, in one of the
    three ways of the [if] / [elif] / [else]. *)
Lemma trend_body_Ok plus_di minus_di pos neg i pos' neg' :
  trend_body plus_di minus_di (pos, neg) i = Ok (pos', neg') ->
  exists p n, pos' = <[i := p]> pos /\ neg' = <[i := n]> neg /\
    ((p = cell pos (i - 1) + 1 /\ n = 0) \/
     (p = 0 /\ n = cell neg (i - 1) + 1) \/
     (p = cell pos (i - 1) /\ n = cell neg (i - 1))).
Proof.
  unfold trend_body. intros H. do 4 inv_bind H.
  destruct (_ && _) in H; [|destruct (_ && _) in H];
    injection H as <- <-; do 2 eexists; (split; [reflexivity|]);
    (split; [reflexivity|]); tauto.
Qed.

Lemma trend_body_total plus_di minus_di st i :
  (1 <= i < length plus_di)%nat -> length minus_di = length plus_di ->
  exists st', trend_body plus_di minus_di st i = Ok st'.
Proof.
  intros Hi Hlen. destruct st as [pos neg]. unfold trend_body.
  destruct (iloc_lt plus_di (i - 1)) as (a & -> & _); [lia|].
  destruct (iloc_lt minus_di (i - 1)) as (b & -> & _); [lia|].
  destruct (iloc_lt plus_di i) as (c & -> & _); [lia|].
  destruct (iloc_lt minus_di i) as (d & -> & _); [lia|].
  simpl. destruct (_ && _); [|destruct (_ && _)]; eauto.
Qed.

Lemma trend_body_length plus_di minus_di st i st' :
  trend_body plus_di minus_di st i = Ok st' ->
  length st'.1 = length st.1 /\ length st'.2 = length st.2.
Proof.
  destruct st as [pos neg], st' as [pos' neg']. intros H.
  apply trend_body_Ok in H as (p & n & -> & -> & _).
  simpl. by rewrite !length_insert.
Qed.

Lemma calculate_trend_count_Ok_inv plus_di minus_di pos neg :
  calculate_trend_count plus_di minus_di = Ok (pos, neg) ->
  for_each (trend_body plus_di minus_di) (seq 1 (length plus_di - 1))
    (replicate (length plus_di) 0, replicate (length plus_di) 0) = Ok (pos, neg)
  /\ length minus_di = length plus_di.
Proof.
  unfold calculate_trend_count. intros H. inv_bind H.
  destruct (length minus_di =? length plus_di)%nat eqn:E; [|done].
  apply Nat.eqb_eq in E. split; [congruence | done].
Qed.

Lemma calculate_trend_count_length plus_di minus_di pos neg :
  calculate_trend_count plus_di minus_di = Ok (pos, neg) ->
  length pos = length plus_di /\ length neg = length plus_di.
Proof.
  intros H. apply calculate_trend_count_Ok_inv in H as [H _].
  apply (for_each_inv
           (fun st => length st.1 = length plus_di /\ length st.2 = length plus_di))
    in H; [done | simpl; by rewrite !length_replicate |].
  intros i s s' _ [H1 H2] Hb. apply trend_body_length in Hb as [-> ->]. done.
Qed.

Lemma calculate_trend_count_total plus_di minus_di :
  length minus_di = length plus_di ->
  exists pos neg, calculate_trend_count plus_di minus_di = Ok (pos, neg).
Proof.
  intros Hlen. unfold calculate_trend_count.
  destruct (for_each_total (trend_body plus_di minus_di)
              (seq 1 (length plus_di - 1))
              (replicate (length plus_di) 0, replicate (length plus_di) 0))
    as [[pos neg] Hrun].
  { intros s i Hi. apply in_seq in Hi. apply trend_body_total; [lia | done]. }
  rewrite Hrun. simpl. rewrite Hlen, Nat.eqb_refl. eauto.
Qed.

Lemma cell_insert a i j x :
  cell (<[i := x]> a) j = if decide (i = j /\ (i < length a)%nat) then x else cell a j.
Proof.
  unfold cell. destruct (decide (i = j /\ (i < length a)%nat)) as [[-> Hlt]|Hne].
  - apply nth_lookup_Some with (d := 0). by apply list_lookup_insert_eq.
  - destruct (decide (i = j)) as [->|Hij].
    + rewrite list_insert_ge by lia. done.
    + destruct (<[i:=x]> a !! j) as [y|] eqn:E.
      * rewrite (nth_lookup_Some _ _ 0 _ E).
        rewrite list_lookup_insert_ne in E by done.
        by rewrite (nth_lookup_Some _ _ 0 _ E).
      * apply lookup_ge_None in E. rewrite length_insert in E.
        by rewrite !nth_overflow by (rewrite ?length_insert; lia).
Qed.

Lemma exclusive_zero_l n : exclusive 0 n.
Proof. split; intros H; [by apply Qlt_irrefl in H | reflexivity]. Qed.

Lemma exclusive_zero_r p : exclusive p 0.
Proof. split; intros H; [reflexivity | by apply Qlt_irrefl in H]. Qed.

(** Every transition keeps the two counts exclusive, whichever branch it
    takes; no assumption on how the state was reached is needed. *)
Lemma trend_body_exclusive plus_di minus_di st i st' :
  all_exclusive st ->
  trend_body plus_di minus_di st i = Ok st' ->
  all_exclusive st'.
Proof.
  destruct st as [pos neg], st' as [pos' neg']. intros Hex H.
  apply trend_body_Ok in H as (p & n & -> & -> & Hcases).
  intros j. simpl. rewrite !cell_insert.
  destruct (decide (i = j /\ (i < length pos)%nat)) as [[<- Hp]|Hp];
    destruct (decide (i = _ /\ (i < length neg)%nat)) as [[Hij Hn]|Hn].
  - destruct Hcases as [[-> ->]|[[-> ->]|[-> ->]]];
      [apply exclusive_zero_r | apply exclusive_zero_l | apply (Hex (i - 1)%nat)].
  - rewrite (cell_ge neg i) by lia. apply exclusive_zero_r.
  - subst j. rewrite (cell_ge pos i) by lia. apply exclusive_zero_l.
  - apply Hex.
Qed.

Lemma all_exclusive_init n : all_exclusive (replicate n 0, replicate n 0).
Proof.
  intros j. simpl. unfold cell.
  destruct (decide (j < n)%nat).
  - rewrite (nth_lookup_Some _ _ 0 0) by by apply lookup_replicate_2.
    apply exclusive_zero_l.
  - rewrite nth_overflow by (rewrite length_replicate; lia). apply exclusive_zero_l.
Qed.

Lemma settled_init n : settled 1 (replicate n 0).
Proof.
  repeat split.
  - intros x Hx. apply lookup_replicate_1 in Hx as [-> _]. reflexivity.
  - intros j x Hx. apply lookup_replicate_1 in Hx as [-> _]. by exists 0%nat.
  - intros j a b Hj. lia.
Qed.

Lemma settled_insert c i v :
  (1 <= i)%nat ->
  settled i c ->
  v = 0 \/ v = cell c (i - 1) \/ v = cell c (i - 1) + 1 ->
  settled (S i) (<[i := v]> c).
Proof.
  intros Hi (H0 & Hint & Hstep) Hv.
  destruct (decide (i < length c)%nat) as [Hlt|Hge];
    [|rewrite list_insert_ge by lia; repeat split; auto; intros j a b Hj Ha Hb;
      pose proof (lookup_lt_Some _ _ _ Hb); apply (Hstep j); [lia|done..]].
  destruct (lookup_lt_is_Some_2 c (i - 1)) as [a Ha]; [lia|].
  rewrite (cell_lookup _ _ _ Ha) in Hv.
  repeat split.
  - intros x. rewrite list_lookup_insert_ne by lia. apply H0.
  - intros j x. destruct (decide (i = j)) as [<-|Hne].
    + rewrite list_lookup_insert_eq by done. intros [= <-].
      destruct (Hint _ _ Ha) as [k Hk].
      destruct Hv as [->|[->| ->]]; [by exists 0%nat | by exists k |].
      exists (S k). rewrite Hk, Nat2Z.inj_succ. unfold Z.succ.
      rewrite inject_Z_plus. reflexivity.
    + rewrite list_lookup_insert_ne by done. apply Hint.
  - intros j a' b Hj. destruct (decide (S j = i)) as [<-|Hne].
    + rewrite list_lookup_insert_ne by lia.
      rewrite list_lookup_insert_eq by done.
      replace (S j - 1)%nat with j in Ha by lia.
      intros Ha' [= <-]. assert (a' = a) as -> by congruence.
      unfold count_step.
      destruct Hv as [->|[->| ->]]; [left | right; left | right; right]; reflexivity.
    + rewrite !list_lookup_insert_ne by lia. apply Hstep. lia.
Qed.

Lemma settled_run_length c : settled (length c) c -> run_length c.
Proof.
  intros (H0 & Hint & Hstep). repeat split; auto.
  intros i a b Ha Hb. apply (Hstep i); [|done..]. by apply lookup_lt_Some in Hb.
Qed.

Lemma settled_mono i j c : (j <= i)%nat -> settled i c -> settled j c.
Proof.
  intros Hle (H0 & Hint & Hstep). repeat split; auto.
  intros k a b Hk. apply Hstep. lia.
Qed.

Lemma calculate_trend_count_run_length plus_di minus_di pos neg :
  calculate_trend_count plus_di minus_di = Ok (pos, neg) ->
  run_length pos /\ run_length neg.
Proof.
  intros H. pose proof (calculate_trend_count_length _ _ _ _ H) as [Hlp Hln].
  apply calculate_trend_count_Ok_inv in H as [H _].
  apply (for_each_seq_inv (fun i st => settled i st.1 /\ settled i st.2)) in H.
  - destruct H as [Hp Hn]. simpl in Hp, Hn.
    split; apply settled_run_length;
      apply (settled_mono (1 + (length plus_di - 1))); (lia || done).
  - simpl. split; apply settled_init.
  - intros i [ps ns] [ps' ns'] Hi [Hp Hn] Hb. simpl in Hp, Hn.
    apply trend_body_Ok in Hb as (p & n & -> & -> & Hcases). simpl.
    split; apply settled_insert; try done; try lia;
      destruct Hcases as [[-> ->]|[[-> ->]|[-> ->]]]; tauto.
Qed.

End Impulse.

(** ** The trade simulation *)

Section Simulation.
Import TitanMath Backtest.

Lemma length_ignition count : length (ignition count) = length count.
Proof. unfold ignition. rewrite length_zip_with, length_shift1. lia. Qed.

Lemma sim_body_total close entry_signal exit_signal st i :
  (i < length close)%nat -> (i < length entry_signal)%nat ->
  (i < length exit_signal)%nat ->
  exists st', sim_body close entry_signal exit_signal st i = Ok st'.
Proof.
  intros Hc He Hx. unfold sim_body.
  destruct (iloc_lt close i Hc) as (price & -> & _).
  destruct (iloc_lt entry_signal i He) as (e & -> & _).
  destruct (iloc_lt exit_signal i Hx) as (x & -> & _).
  simpl. destruct (in_position st), e, x; simpl; eauto.
Qed.

Lemma trade_loop_total close pos neg :
  length pos = length close -> length neg = length close ->
  exists st, trade_loop close pos neg = Ok st.
Proof.
  intros Hp Hn. unfold trade_loop. apply for_each_total.
  intros s i Hi. apply in_seq in Hi.
  apply sim_body_total; rewrite ?length_ignition; lia.
Qed.

Lemma iloc_neg_1 {A} (s : list A) :
  (1 <= length s)%nat -> exists x, iloc_neg s 1 = Ok x /\ s !! (length s - 1)%nat = Some x.
Proof.
  intros H. unfold iloc_neg.
  destruct (length s <? 1)%nat eqn:E; [apply Nat.ltb_lt in E; lia|].
  apply iloc_lt. lia.
Qed.

Lemma iloc_neg_2 {A} (s : list A) :
  (2 <= length s)%nat -> exists x, iloc_neg s 2 = Ok x /\ s !! (length s - 2)%nat = Some x.
Proof.
  intros H. unfold iloc_neg.
  destruct (length s <? 2)%nat eqn:E; [apply Nat.ltb_lt in E; lia|].
  apply iloc_lt. lia.
Qed.

Lemma close_open_position_total close st :
  (1 <= length close)%nat -> exists st', close_open_position close st = Ok st'.
Proof.
  intros H. unfold close_open_position. destruct (in_position st); [|eauto].
  destruct (iloc_neg_1 close H) as (price & -> & _). simpl. eauto.
Qed.

Lemma simulate_total close pos neg :
  (1 <= length close)%nat ->
  length pos = length close -> length neg = length close ->
  exists st, simulate close pos neg = Ok st.
Proof.
  intros Hc Hp Hn. unfold simulate.
  destruct (trade_loop_total close pos neg Hp Hn) as [st ->]. simpl.
  by apply close_open_position_total.
Qed.

(** The journal is an observer: dropping it gives back the loop of the
    code, state for state. *)
Lemma sim_body_j_erase close es xs st j i st' j' :
  sim_body_j close es xs (st, j) i = Ok (st', j') ->
  sim_body close es xs st i = Ok st'.
Proof.
  unfold sim_body_j. intros H. do 2 inv_bind H. by injection H as <- _.
Qed.


Lemma for_each_j_erase close es xs indices st j st' j' :
  for_each (sim_body_j close es xs) indices (st, j) = Ok (st', j') ->
  for_each (sim_body close es xs) indices st = Ok st'.
Proof.
  revert st j. induction indices as [|i rest IH]; intros st j H; cbn [for_each] in *.
  - by injection H as <- _.
  - inv_bind H. destruct v as [st1 j1].
    rewrite (sim_body_j_erase _ _ _ _ _ _ _ _ Hv). simpl. eauto.
Qed.


Lemma trade_loop_j_erase close pos neg st j :
  trade_loop_j close pos neg = Ok (st, j) -> trade_loop close pos neg = Ok st.
Proof. apply for_each_j_erase. Qed.




End Simulation.

(** ** The backtest as a whole *)

Section Backtesting.
Import TitanMath Backtest.

(** With 50 bars or more and a length [>= 1] nothing raises, and the
    record returned is the one [stats_of] builds from the simulation. *)
Lemma check_alpha_validity_Ok df (di_length : Z) :
  (50 <= length df)%nat -> (1 <= di_length)%Z ->
  exists plus_di minus_di pos neg st last_close first_close,
    calculate_di df di_length = Ok (plus_di, minus_di) /\
    calculate_trend_count plus_di minus_di = Ok (pos, neg) /\
    simulate (Close <$> df) pos neg = Ok st /\
    (Close <$> df) !! (length df - 1)%nat = Some last_close /\
    (Close <$> df) !! 0%nat = Some first_close /\
    check_alpha_validity df di_length = Ok (stats_of st last_close first_close).
Proof.
  intros Hlen HL. unfold check_alpha_validity.
  destruct (length df <? 50)%nat eqn:E; [apply Nat.ltb_lt in E; lia|].
  assert (exists p m, calculate_di df di_length = Ok (p, m)) as (p & m & Hdi).
  { do 2 eexists. by apply calculate_di_Ok. }
  destruct (calculate_di_length _ _ _ _ Hdi) as [Hlp Hlm].
  rewrite Hdi. cbn [mbind res_bind].
  destruct (calculate_trend_count_total _ _ (eq_trans Hlm (eq_sym Hlp)))
    as (pos & neg & Htc).
  destruct (calculate_trend_count_length _ _ _ _ Htc) as [Hpos Hneg].
  rewrite Htc. cbn [mbind res_bind].
  destruct (simulate_total (Close <$> df) pos neg) as [st Hst];
    rewrite ?length_fmap; try lia.
  rewrite Hst. cbn [mbind res_bind].
  destruct (iloc_neg_1 (Close <$> df)) as (lc & -> & Hlc); [rewrite length_fmap; lia|].
  destruct (iloc_lt (Close <$> df) 0) as (fc & -> & Hfc); [rewrite length_fmap; lia|].
  cbn [mbind res_bind]. rewrite length_fmap in Hlc.
  by exists p, m, pos, neg, st, lc, fc.
Qed.

Lemma check_alpha_validity_total df (di_length : Z) :
  (50 <= length df)%nat -> (1 <= di_length)%Z ->
  exists s, check_alpha_validity df di_length = Ok s.
Proof.
  intros Hlen HL.
  destruct (check_alpha_validity_Ok df di_length Hlen HL)
    as (? & ? & ? & ? & st & lc & fc & _ & _ & _ & _ & _ & H). eauto.
Qed.
End Backtesting.

(** ** The grid search *)

Section GridSearch.
Import TitanMath AlphaScanner Backtest.

Lemma py_range_lookup lo hi i x :
  py_range lo hi !! i = Some x -> x = (lo + Z.of_nat i)%Z.
Proof.
  unfold py_range. rewrite list_lookup_fmap. intros H.
  destruct (seq 0 (Z.to_nat (hi - lo)) !! i) as [k|] eqn:E; [|done].
  apply lookup_seq in E as [-> _]. simpl in H. by injection H as <-.
Qed.

Lemma In_py_range lo hi k : In k (py_range lo hi) <-> (lo <= k < hi)%Z.
Proof.
  unfold py_range. rewrite <- list_elem_of_In, list_elem_of_fmap. split.
  - intros (i & -> & Hi). apply elem_of_seq in Hi. lia.
  - intros H. exists (Z.to_nat (k - lo)). split; [lia|]. apply elem_of_seq. lia.
Qed.

Lemma py_range_split lo hi l1 L l2 :
  py_range lo hi = l1 ++ L :: l2 ->
  (forall x, In x l1 -> (x < L)%Z) /\ (forall x, In x l2 -> (L < x)%Z).
Proof.
  intros H.
  assert (L = (lo + Z.of_nat (length l1))%Z) as HL.
  { apply (py_range_lookup lo hi). rewrite H. apply list_lookup_middle. done. }
  split; intros x Hx; apply list_elem_of_In, list_elem_of_lookup in Hx as [i Hi].
  - pose proof (lookup_lt_Some _ _ _ Hi).
    assert (x = (lo + Z.of_nat i)%Z); [|lia].
    apply (py_range_lookup lo hi). rewrite H. by apply lookup_app_l_Some.
  - assert (x = (lo + Z.of_nat (length l1 + S i))%Z); [|lia].
    apply (py_range_lookup lo hi). rewrite H.
    rewrite lookup_app_r by lia.
    replace (length l1 + S i - length l1)%nat with (S i) by lia. done.
Qed.

Lemma search_body_leader df seen st (L : Z) :
  (seen = [] /\ st = search_init) \/ leader df seen st ->
  (exists s, check_alpha_validity df L = Ok s) ->
  leader df (seen ++ [L]) (search_body df st L).
Proof.
  intros Hst [s Hs]. unfold search_body.
  destruct Hst as [[-> ->]|(s0 & L0 & l1 & l2 & -> & -> & H0 & Hlt & Hle)].
  - simpl. rewrite Hs. simpl.
    exists s, L, [], []. split; [done|]. split; [done|]. split; [done|].
    split; intros ? ? [].
  - rewrite Hs. cbn [beats]. destruct (Qgtb (alpha s) (alpha s0)) eqn:E.
    + apply Qgtb_true in E.
      exists s, L, (l1 ++ L0 :: l2), [].
      split; [done|]. split; [done|]. split; [done|]. split; [|intros ? ? []].
      intros L' s' Hin Hs'. apply in_app_or in Hin as [Hin|[<-|Hin]].
      * eapply Qlt_trans; eauto.
      * by assert (s' = s0) as -> by congruence.
      * eapply Qle_lt_trans; eauto.
    + apply Qgtb_false in E.
      exists s0, L0, l1, (l2 ++ [L]).
      split; [done|]. split; [by rewrite <- app_assoc|]. split; [done|].
      split; [done|].
      intros L' s' Hin Hs'. apply in_app_or in Hin as [Hin|[<-|[]]]; [eauto|].
      by assert (s' = s) as -> by congruence.
Qed.

Lemma fold_search_leader df rest seen st :
  (forall L, In L rest -> exists s, check_alpha_validity df L = Ok s) ->
  leader df seen st ->
  leader df (seen ++ rest) (fold_left (search_body df) rest st).
Proof.
  revert seen st. induction rest as [|L rest IH]; intros seen st Hok Hst; simpl.
  - by rewrite app_nil_r.
  - replace (seen ++ L :: rest) with ((seen ++ [L]) ++ rest) by by rewrite <- app_assoc.
    apply IH; [intros; apply Hok; by right|].
    apply search_body_leader; [by right | apply Hok; by left].
Qed.

Lemma fold_search_from_init df lengths :
  lengths <> [] ->
  (forall L, In L lengths -> exists s, check_alpha_validity df L = Ok s) ->
  leader df lengths (fold_left (search_body df) lengths search_init).
Proof.
  destruct lengths as [|L rest]; [done|]. intros _ Hok.
  cbn [fold_left]. apply (fold_search_leader df rest [L]).
  - intros k Hk. apply Hok. by right.
  - apply (search_body_leader df [] search_init); [by left|]. apply Hok. by left.
Qed.

(** The outcome of the grid search on 50 bars or more: a length between 1
    and 40 whose alpha no other length exceeds, and which every smaller
    length misses strictly. *)
Lemma grid_search_spec df :
  (50 <= length df)%nat ->
  exists s L,
    grid_search df = (Some s, Fin (alpha s), L) /\
    (1 <= L <= 40)%Z /\
    check_alpha_validity df L = Ok s /\
    forall k, (1 <= k <= 40)%Z ->
      exists sk, check_alpha_validity df k = Ok sk /\
        alpha sk <= alpha s /\ ((k < L)%Z -> alpha sk < alpha s).
Proof.
  intros Hlen.
  assert (forall k, In k (py_range DI_LENGTH_MIN (DI_LENGTH_MAX + 1)) ->
            exists s, check_alpha_validity df k = Ok s) as Hok.
  { intros k Hk. apply In_py_range in Hk. unfold DI_LENGTH_MIN in Hk.
    apply check_alpha_validity_total; [done | lia]. }
  assert (leader df (py_range DI_LENGTH_MIN (DI_LENGTH_MAX + 1)) (grid_search df))
    as (s & L & l1 & l2 & Hst & Hsplit & Hs & Hlt & Hle).
  { unfold grid_search. apply fold_search_from_init; [|exact Hok].
    intros Hnil. apply (f_equal length) in Hnil.
    unfold py_range in Hnil. by rewrite length_fmap, length_seq in Hnil. }
  exists s, L. split; [done|].
  assert (In L (py_range DI_LENGTH_MIN (DI_LENGTH_MAX + 1))) as HL.
  { rewrite Hsplit. apply in_elt. }
  apply In_py_range in HL. unfold DI_LENGTH_MIN, DI_LENGTH_MAX in HL.
  split; [lia|]. split; [done|].
  destruct (py_range_split _ _ _ _ _ Hsplit) as [Hbefore Hafter].
  intros k Hk.
  assert (In k (l1 ++ L :: l2)) as Hin.
  { rewrite <- Hsplit. apply In_py_range. unfold DI_LENGTH_MIN, DI_LENGTH_MAX. lia. }
  destruct (Hok k) as [sk Hsk]; [by rewrite Hsplit|].
  exists sk. split; [done|].
  apply in_app_or in Hin as [Hin|[<-|Hin]].
  - split; [apply Qlt_le_weak|]; eauto.
  - assert (sk = s) as -> by congruence. split; [apply Qle_refl | lia].
  - split; [eauto|]. specialize (Hafter _ Hin). lia.
Qed.
End GridSearch.

(** ** The scanner *)

Section Scanning.
Import TitanMath AlphaScanner.

(** The record [signal_of] builds, spelled out. *)
Lemma signal_of_Ok symbol (df : frame) best (L : Z) :
  (50 <= length df)%nat -> (1 <= L)%Z ->
  exists plus minus pos neg cur prev lp lm cp,
    calculate_di df L = Ok (plus, minus) /\
    calculate_trend_count plus minus = Ok (pos, neg) /\
    pos !! (length df - 1)%nat = Some cur /\
    pos !! (length df - 2)%nat = Some prev /\
    plus !! (length df - 1)%nat = Some lp /\
    minus !! (length df - 1)%nat = Some lm /\
    (Close <$> df) !! (length df - 1)%nat = Some cp /\
    signal_of symbol df best L =
      Ok {| symbol := symbol;
            close_price := cp;
            is_valid := Backtest.is_valid best;
            alpha := Backtest.alpha best;
            algo_ret := Backtest.algo_ret best;
            buy_hold := Backtest.buy_hold best;
            total_trades := Backtest.total_trades best;
            is_buy_signal := Qeq_bool cur 1 && Qeq_bool prev 0;
            trend_strength := strength_label (Qabs (lp - lm));
            plus_di := lp;
            minus_di := lm;
            optimal_length := L;
            scan_range := "1-40" |}.
Proof.
  intros Hlen HL. unfold signal_of.
  assert (exists p m, calculate_di df L = Ok (p, m)) as (p & m & Hdi).
  { do 2 eexists. by apply calculate_di_Ok. }
  destruct (calculate_di_length _ _ _ _ Hdi) as [Hlp Hlm].
  destruct (calculate_trend_count_total _ _ (eq_trans Hlm (eq_sym Hlp)))
    as (pos & neg & Htc).
  destruct (calculate_trend_count_length _ _ _ _ Htc) as [Hpos Hneg].
  rewrite Hdi. cbn [mbind res_bind]. rewrite Htc. cbn [mbind res_bind].
  destruct (iloc_neg_1 pos) as (cur & -> & Hcur); [lia|].
  destruct (iloc_neg_2 pos) as (prev & -> & Hprev); [lia|].
  destruct (1 <? length pos)%nat eqn:E; [|apply Nat.ltb_ge in E; lia].
  destruct (iloc_neg_1 p) as (lp & -> & Hlp'); [lia|].
  destruct (iloc_neg_1 m) as (lm & -> & Hlm'); [lia|].
  destruct (iloc_neg_1 (Close <$> df)) as (cp & -> & Hcp); [rewrite length_fmap; lia|].
  cbn [mbind res_bind].
  rewrite length_fmap in Hcp. rewrite Hpos, Hlp in Hcur, Hprev.
  rewrite Hlp in Hlp'. rewrite Hlm in Hlm'.
  by exists p, m, pos, neg, cur, prev, lp, lm, cp.
Qed.

Lemma not_short (df : frame) :
  (50 <= length df)%nat -> bool_decide (df = []) || (length df <? 50)%nat = false.
Proof.
  intros H. destruct df; [simpl in H; lia|].
  rewrite bool_decide_eq_false_2 by done.
  apply Nat.ltb_ge. done.
Qed.

(** [analyze_symbol] on 50 bars or more: the grid search of
    [grid_search_spec] followed by the record of [signal_of_Ok]. *)
Lemma analyze_symbol_Ok get_stock_history symbol days :
  let df := get_stock_history symbol days in
  (50 <= length df)%nat ->
  exists s L plus minus pos neg cur prev lp lm cp,
    grid_search df = (Some s, Fin (Backtest.alpha s), L) /\
    calculate_di df L = Ok (plus, minus) /\
    calculate_trend_count plus minus = Ok (pos, neg) /\
    pos !! (length df - 1)%nat = Some cur /\
    pos !! (length df - 2)%nat = Some prev /\
    plus !! (length df - 1)%nat = Some lp /\
    minus !! (length df - 1)%nat = Some lm /\
    analyze_symbol get_stock_history symbol days =
      Some {| symbol := symbol;
              close_price := cp;
              is_valid := Backtest.is_valid s;
              alpha := Backtest.alpha s;
              algo_ret := Backtest.algo_ret s;
              buy_hold := Backtest.buy_hold s;
              total_trades := Backtest.total_trades s;
              is_buy_signal := Qeq_bool cur 1 && Qeq_bool prev 0;
              trend_strength := strength_label (Qabs (lp - lm));
              plus_di := lp;
              minus_di := lm;
              optimal_length := L;
              scan_range := "1-40" |}.
Proof.
  intros df Hlen.
  destruct (grid_search_spec df Hlen) as (s & L & Hgs & HL & _).
  destruct (signal_of_Ok symbol df s L Hlen)
    as (plus & minus & pos & neg & cur & prev & lp & lm & cp &
        Hdi & Htc & Hcur & Hprev & Hlp & Hlm & _ & Hsig); [lia|].
  exists s, L, plus, minus, pos, neg, cur, prev, lp, lm, cp.
  split; [exact Hgs|]. split; [exact Hdi|]. split; [exact Htc|].
  split; [exact Hcur|]. split; [exact Hprev|]. split; [exact Hlp|].
  split; [exact Hlm|].
  unfold analyze_symbol. fold df. rewrite not_short by exact Hlen.
  rewrite Hgs, Hsig. reflexivity.
Qed.
End Scanning.

(** ** Sorting *)

Section PySortFacts.
Context {A K : Type} (ltb : K -> K -> bool) (key : A -> K) (reverse : bool).

Local Abbreviation precedes := (before ltb key reverse).
Local Abbreviation insert := (insert_by ltb key reverse).
Local Abbreviation sort := (list_sort ltb key reverse).

Lemma insert_by_perm x l : Permutation (insert x l) (x :: l).
Proof.
  induction l as [|y l IH]; simpl; [done|].
  destruct (precedes x y); [|done].
  rewrite IH. apply perm_swap.
Qed.

Lemma list_sort_perm l : Permutation (sort l) l.
Proof.
  induction l as [|x l IH]; simpl; [done|].
  unfold list_sort in *. simpl. rewrite insert_by_perm. by constructor.
Qed.

(** A list already in order is left as it is. *)
Lemma list_sort_id l :
  (forall i j x y, (i < j)%nat -> l !! i = Some x -> l !! j = Some y ->
     precedes x y = false) ->
  sort l = l.
Proof.
  induction l as [|x l IH]; intros H; [done|].
  unfold list_sort in *. simpl. rewrite IH.
  - destruct l as [|y l]; [done|]. simpl.
    by rewrite (H 0%nat 1%nat x y) by (done || lia).
  - intros i j a b Hij Ha Hb. apply (H (S i) (S j)); [lia|done..].
Qed.

Hypothesis ltb_asym : forall a b, ltb a b = true -> ltb b a = false.
Hypothesis ltb_negtrans :
  forall a b c, ltb b a = false -> ltb c b = false -> ltb c a = false.

Lemma before_asym x y : precedes x y = true -> precedes y x = false.
Proof. unfold before. destruct reverse; apply ltb_asym. Qed.

Lemma before_negtrans x y z :
  precedes x y = false -> precedes y z = false -> precedes x z = false.
Proof.
  unfold before. destruct reverse; intros H1 H2.
  - by apply (ltb_negtrans _ (key y)).
  - by apply (ltb_negtrans _ (key y)).
Qed.

Lemma insert_by_sorted x l :
  StronglySorted (fun a b => precedes a b = false) l ->
  StronglySorted (fun a b => precedes a b = false) (insert x l).
Proof.
  induction 1 as [|y l Hl IH Hy]; simpl; [repeat constructor|].
  destruct (precedes x y) eqn:E.
  - constructor; [done|].
    rewrite Forall_forall. intros z Hz.
    apply list_elem_of_In in Hz.
    apply (Permutation_in _ (insert_by_perm x l)) in Hz as [<-|Hz].
    + by apply before_asym.
    + rewrite Forall_forall in Hy. apply Hy. by apply list_elem_of_In.
  - constructor; [by constructor|].
    constructor; [done|].
    eapply Forall_impl; [exact Hy|]. intros z Hz. simpl in Hz.
    by apply (before_negtrans x y z).
Qed.

Lemma list_sort_sorted l :
  StronglySorted (fun a b => precedes a b = false) (sort l).
Proof.
  induction l as [|x l IH]; [constructor|].
  unfold list_sort in *. simpl. by apply insert_by_sorted.
Qed.

Lemma StronglySorted_lookup (R : A -> A -> Prop) l i j x y :
  StronglySorted R l -> (i < j)%nat -> l !! i = Some x -> l !! j = Some y -> R x y.
Proof.
  intros Hs. revert i j. induction Hs as [|a l Hl IH Ha]; intros i j Hij Hi Hj; [done|].
  destruct j as [|j]; [lia|]. destruct i as [|i]; simpl in *.
  - injection Hi as <-. rewrite Forall_forall in Ha. apply Ha.
    by apply list_elem_of_lookup_2 in Hj.
  - apply (IH i j); [lia|done..].
Qed.
End PySortFacts.

(** ** The stability profile *)

Section Stability.
Import TitanMath AlphaScanner.

(** The loop of [inspect_ticker_stability] appends one row per length, in
    the order of the lengths. *)
Lemma fold_inspect (df : frame) (lengths : list Z) (acc : list stability_row) :
  (forall L, In L lengths -> exists s, Backtest.check_alpha_validity df L = Ok s) ->
  exists rows,
    fold_left (inspect_body df) lengths acc = acc ++ rows /\
    Forall2 (fun L row => exists s,
               Backtest.check_alpha_validity df L = Ok s /\ row = row_of L s)
            lengths rows.
Proof.
  revert acc. induction lengths as [|L rest IH]; intros acc Hok.
  - exists []. split; [by rewrite app_nil_r | constructor].
  - destruct (Hok L) as [s Hs]; [by left|].
    destruct (IH (acc ++ [row_of L s])) as (rows & Hfold & Hrows).
    { intros k Hk. apply Hok. by right. }
    exists (row_of L s :: rows). split.
    + cbn [fold_left]. unfold inspect_body at 2. rewrite Hs, Hfold.
      by rewrite <- app_assoc.
    + constructor; [eauto | done].
Qed.

Lemma rows_of_range (df : frame) (rows : list stability_row) lo hi k row :
  Forall2 (fun L row => exists s,
             Backtest.check_alpha_validity df L = Ok s /\ row = row_of L s)
          (py_range lo hi) rows ->
  rows !! k = Some row ->
  exists s, Backtest.check_alpha_validity df (lo + Z.of_nat k) = Ok s /\
    row = row_of (lo + Z.of_nat k) s.
Proof.
  intros HF Hk.
  destruct (Forall2_lookup_r _ _ _ _ _ HF Hk) as (L & HL & s & Hs & ->).
  apply py_range_lookup in HL as ->. eauto.
Qed.
End Stability.

(** ** Series without a dominant up-move

    When [plus_dm] is 0 on every bar the bullish count never leaves 0, no
    trade is ever entered, and the backtest returns the same figures at
    every length. *)

Section Quiet.
Import TitanMath Backtest.

Lemma ewm_from_zero alpha w vals :
  w == 0 -> Forall (fun x => x == 0) vals ->
  Forall (fun x => x == 0) (ewm_from alpha w vals).
Proof.
  intros Hw Hvals. revert w Hw.
  induction Hvals as [|x vals Hx _ IH]; intros w Hw; simpl; constructor.
  - rewrite Hw, Hx. ring.
  - apply IH. rewrite Hw, Hx. ring.
Qed.

Lemma ewm_mean_zero alpha series :
  Forall (fun x => x == 0) series ->
  Forall (fun x => x == 0) (ewm_mean alpha series).
Proof.
  intros [|x vals Hx Hvals]; simpl; constructor; [done|].
  by apply ewm_from_zero.
Qed.

Lemma di_at_zero_num s t : s == 0 -> di_at s t == 0.
Proof.
  intros Hs. unfold di_at. destruct (Qeq_bool t 0); [reflexivity|].
  rewrite Hs. unfold Qdiv. ring.
Qed.

Lemma quiet_plus_di df (n : Z) plus minus :
  Forall (fun x => x == 0) (plus_dms df) ->
  calculate_di df n = Ok (plus, minus) ->
  Forall (fun x => x == 0) plus.
Proof.
  intros Hq H. pose proof (calculate_di_Ok_inv _ _ _ _ H) as Hn.
  rewrite calculate_di_Ok in H by done. injection H as <- _.
  apply Forall_zip_with_l with (P := fun x => x == 0).
  - by apply ewm_mean_zero.
  - intros s t Hs. by apply di_at_zero_num.
Qed.

Lemma all_zero_cell (a : list Q) i : Forall (fun x => x = 0) a -> cell a i = 0.
Proof.
  intros Ha. destruct (a !! i) as [x|] eqn:E.
  - rewrite (cell_lookup _ _ _ E). rewrite Forall_lookup in Ha. by apply (Ha i).
  - apply cell_ge. by apply lookup_ge_None.
Qed.

Lemma quiet_trend_body plus minus pos neg i pos' neg' :
  Forall (fun x => x == 0) plus ->
  Forall (fun x => x = 0) pos ->
  trend_body plus minus (pos, neg) i = Ok (pos', neg') ->
  Forall (fun x => x = 0) pos'.
Proof.
  intros Hplus Hpos H. unfold trend_body in H.
  do 4 inv_bind H. rename v into prev_plus, Hv into Hprev.
  rename v1 into curr_plus, Hv1 into Hcurr.
  apply iloc_Ok in Hprev, Hcurr. rewrite Forall_lookup in Hplus.
  assert (Qgtb curr_plus prev_plus = false) as Hg.
  { apply Qgtb_false. rewrite (Hplus _ _ Hprev), (Hplus _ _ Hcurr). apply Qle_refl. }
  rewrite Hg in H. cbn [andb] in H. destruct (_ && _) in H; injection H as <- _.
  - by apply Forall_insert.
  - apply Forall_insert; [done|]. by apply all_zero_cell.
Qed.

Lemma quiet_trend_count plus minus pos neg :
  Forall (fun x => x == 0) plus ->
  calculate_trend_count plus minus = Ok (pos, neg) ->
  Forall (fun x => x = 0) pos.
Proof.
  intros Hplus H. apply calculate_trend_count_Ok_inv in H as [H _].
  apply (for_each_inv (fun st => Forall (fun x => x = 0) st.1)) in H; [done| |].
  - simpl. by apply Forall_replicate.
  - intros i [ps ns] [ps' ns'] _ Hps Hb. simpl in *.
    by apply (quiet_trend_body plus minus ps ns i ps' ns').
Qed.

Lemma quiet_ignition pos :
  Forall (fun x => x = 0) pos -> Forall (fun e => e = false) (ignition pos).
Proof.
  intros Hpos. unfold ignition.
  apply Forall_zip_with_l with (P := fun x => x = 0); [done|].
  by intros c p ->.
Qed.

Lemma quiet_sim_body close es xs i st' :
  Forall (fun e => e = false) es ->
  sim_body close es xs sim_init i = Ok st' -> st' = sim_init.
Proof.
  intros Hes H. unfold sim_body in H. inv_bind H. cbn [in_position sim_init negb] in H.
  inv_bind H. apply iloc_Ok in Hv0. rewrite Forall_lookup in Hes.
  rewrite (Hes _ _ Hv0) in H. by injection H as <-.
Qed.

Lemma quiet_simulate close pos neg st :
  Forall (fun x => x = 0) pos ->
  simulate close pos neg = Ok st -> st = sim_init.
Proof.
  intros Hpos H. unfold simulate in H. inv_bind H.
  assert (v = sim_init) as ->.
  { unfold trade_loop in Hv.
    apply (for_each_inv (fun st => st = sim_init)) in Hv; [done..|].
    intros i s s' _ -> Hb.
    apply (quiet_sim_body close (ignition pos) (ignition neg) i); [|exact Hb].
    by apply quiet_ignition. }
  unfold close_open_position in H. cbn [in_position sim_init] in H.
  by injection H as <-.
Qed.

(** On such a series the backtest does not depend on the length. *)
Lemma quiet_check df (n : Z) s :
  Forall (fun x => x == 0) (plus_dms df) ->
  (50 <= length df)%nat -> (1 <= n)%Z ->
  check_alpha_validity df n = Ok s ->
  exists last_close first_close,
    (Close <$> df) !! (length df - 1)%nat = Some last_close /\
    (Close <$> df) !! 0%nat = Some first_close /\
    s = stats_of sim_init last_close first_close.
Proof.
  intros Hq Hlen Hn Hs.
  destruct (check_alpha_validity_Ok df n Hlen Hn)
    as (p & m & pos & neg & st & lc & fc & Hdi & Htc & Hsim & Hlc & Hfc & Hchk).
  rewrite Hchk in Hs. injection Hs as <-.
  exists lc, fc. split; [done|]. split; [done|].
  rewrite (quiet_simulate _ _ _ _ (quiet_trend_count _ _ _ _
             (quiet_plus_di _ _ _ _ Hq Hdi) Htc) Hsim).
  reflexivity.
Qed.

(** The grid search then stays on its first length. *)
Lemma quiet_grid_search df :
  Forall (fun x => x == 0) (plus_dms df) ->
  (50 <= length df)%nat ->
  exists s, AlphaScanner.grid_search df
            = (Some s, AlphaScanner.Fin (alpha s), 1%Z) /\
    check_alpha_validity df 1 = Ok s.
Proof.
  intros Hq Hlen.
  destruct (grid_search_spec df Hlen) as (s & L & Hgs & HL & Hs & Hbest).
  exists s. rewrite Hgs.
  destruct (Hbest 1%Z ltac:(lia)) as (s1 & Hs1 & _ & Hlt).
  destruct (Z.eq_dec L 1%Z) as [->|Hne]; [done|]. exfalso.
  destruct (quiet_check df L s Hq Hlen ltac:(lia) Hs) as (lc & fc & Hlc & Hfc & ->).
  destruct (quiet_check df 1 s1 Hq Hlen ltac:(lia) Hs1) as (lc' & fc' & Hlc' & Hfc' & ->).
  assert (lc' = lc) as -> by congruence. assert (fc' = fc) as -> by congruence.
  apply (Qlt_irrefl (alpha (stats_of sim_init lc fc))). apply Hlt. lia.
Qed.
End Quiet.

(** ** The latest-bar signal *)

Section Signal.
Import AlphaScanner.

Lemma strength_label_cases (v : Q) :
  (20 < v -> strength_label v = "Strong"%string) /\
  (10 < v -> v <= 20 -> strength_label v = "Mod"%string) /\
  (v <= 10 -> strength_label v = "Weak"%string).
Proof.
  unfold strength_label. repeat split.
  - intros H. by apply Qgtb_true in H as ->.
  - intros H1 H2. apply Qgtb_false in H2 as ->. by apply Qgtb_true in H1 as ->.
  - intros H. assert (v <= 20) as H' by lra.
    apply Qgtb_false in H' as ->. by apply Qgtb_false in H as ->.
Qed.

Lemma buy_flag_iff (cur prev : Q) :
  Qeq_bool cur 1 && Qeq_bool prev 0 = true <-> cur == 1 /\ prev == 0.
Proof. by rewrite andb_true_iff, !Qeq_bool_iff. Qed.

Lemma sample_frame_length : (50 <= length sample_frame)%nat.
Proof. unfold sample_frame. rewrite length_app, length_replicate. simpl. lia. Qed.

Lemma sample_frame_nonzero : nonzero_closes sample_frame.
Proof.
  unfold nonzero_closes, sample_frame. apply Forall_app. split.
  - apply Forall_replicate. intros E. discriminate E.
  - repeat constructor. intros E. discriminate E.
Defined.

Lemma sample_frame_quiet :
  Forall (fun x => x == 0) (TitanMath.plus_dms sample_frame).
Proof.
  assert (TitanMath.plus_dms sample_frame = replicate 50 0) as -> by reflexivity.
  by apply Forall_replicate.
Qed.
End Signal.

(** ** Ranking *)

Section Ranking.
Import AlphaScanner Main.

Lemma Qltb_asym (a b : Q) : Qltb a b = true -> Qltb b a = false.
Proof.
  unfold Qltb. intros H. apply Qgtb_true in H. apply Qgtb_false. by apply Qlt_le_weak.
Qed.

Lemma Qltb_negtrans (a b c : Q) :
  Qltb b a = false -> Qltb c b = false -> Qltb c a = false.
Proof.
  unfold Qltb. rewrite !Qgtb_false. intros H1 H2. by apply (Qle_trans _ b).
Qed.

Ltac split_keys :=
  repeat match goal with
         | |- context [(?x =? ?y)%Z] => destruct (Z.eqb_spec x y)
         | H : context [(?x =? ?y)%Z] |- _ => destruct (Z.eqb_spec x y)
         | |- context [(?x <? ?y)%Z] => destruct (Z.ltb_spec x y)
         | H : context [(?x <? ?y)%Z] |- _ => destruct (Z.ltb_spec x y)
         end; cbn [negb] in *.

Lemma tuple_ltb_asym (a b : Z * Z * Q) :
  tuple_ltb a b = true -> tuple_ltb b a = false.
Proof.
  destruct a as [[a1 a2] a3], b as [[b1 b2] b3]. unfold tuple_ltb.
  split_keys; try congruence; try lia. apply Qltb_asym.
Qed.

Lemma tuple_ltb_negtrans (a b c : Z * Z * Q) :
  tuple_ltb b a = false -> tuple_ltb c b = false -> tuple_ltb c a = false.
Proof.
  destruct a as [[a1 a2] a3], b as [[b1 b2] b3], c as [[c1 c2] c3]. unfold tuple_ltb.
  split_keys; try congruence; try lia. apply Qltb_negtrans.
Qed.

(** What "not strictly behind" means on the keys of [run_scan]. *)
Lemma sort_key_order (a b : analysis) :
  tuple_ltb (sort_key b) (sort_key a) = false -> ranked_before a b.
Proof.
  unfold tuple_ltb, sort_key, ranked_before, int_of_bool.
  destruct (is_buy_signal a), (is_valid a), (is_buy_signal b), (is_valid b);
    cbn [andb Z.opp Z.eqb Z.ltb Z.compare negb Pos.eqb Pos.compare];
    intros H; try discriminate H; repeat split; try done;
    intros; apply Qgtb_false in H; lra.
Qed.

Lemma rank_sorted (results : list analysis) i j a b :
  (i < j)%nat -> rank results !! i = Some a -> rank results !! j = Some b ->
  ranked_before a b.
Proof.
  intros Hij Ha Hb. apply sort_key_order.
  apply (StronglySorted_lookup _ _ i j a b
           (list_sort_sorted tuple_ltb sort_key false
              tuple_ltb_asym tuple_ltb_negtrans results) Hij Ha Hb).
Qed.

(** The two sample results are what the engine's formulas give for their
    returns and indicator values. *)
Lemma sample_results_consistent :
  Forall (fun r =>
            alpha r == algo_ret r - buy_hold r /\
            is_valid r = Qgtb (algo_ret r) 0 && Qgtb (algo_ret r) (buy_hold r) /\
            trend_strength r = strength_label (Qabs (plus_di r - minus_di r)))
         [watch_result; avoid_result].
Proof. repeat constructor. Qed.

Lemma sort_by_alpha_sorted (results : list analysis) i j a b :
  (i < j)%nat ->
  sort_by_alpha results !! i = Some a -> sort_by_alpha results !! j = Some b ->
  alpha b <= alpha a.
Proof.
  intros Hij Ha Hb. apply Qgtb_false.
  apply (StronglySorted_lookup _ _ i j a b
           (list_sort_sorted Qltb alpha true Qltb_asym Qltb_negtrans results) Hij Ha Hb).
Qed.
End Ranking.

(** ** A bound on the strategy return *)

Section ReturnBound.
Import Backtest.

Lemma qpow_nonneg (r : Q) (n : nat) : 0 <= r -> 0 <= qpow r n.
Proof. intros Hr. induction n as [|n IH]; simpl; [lra | nra]. Qed.

Lemma qpow_step (r : Q) (n : nat) : 1 <= r -> qpow r n <= qpow r (S n).
Proof.
  intros Hr. pose proof (qpow_nonneg r n ltac:(lra)). simpl. nra.
Qed.

Lemma ratio_bound (lo hi e price : Q) :
  0 < lo -> lo <= e -> lo <= price -> price <= hi ->
  0 <= price / e /\ price / e <= hi / lo.
Proof.
  intros Hlo He Hp1 Hp2.
  assert (0 < e) by lra. assert (0 < price) by lra.
  split.
  - apply Qle_shift_div_l; [done|]. lra.
  - apply Qle_shift_div_l; [done|].
    assert (price / e * lo == price * lo / e) as -> by (field; lra).
    apply Qle_shift_div_r; [done|]. nra.
Qed.

Lemma realise_bound (lo hi : Q) (st : sim_state) (price : Q) :
  0 < lo -> lo <= entry_price st -> lo <= price -> price <= hi ->
  0 <= total_return st ->
  0 <= realise st price /\ realise st price <= total_return st * (hi / lo).
Proof.
  intros Hlo He Hp1 Hp2 HT. unfold realise.
  destruct (ratio_bound lo hi (entry_price st) price Hlo He Hp1 Hp2) as [H1 H2].
  assert (1 + (price - entry_price st) / entry_price st == price / entry_price st)
    as -> by (field; lra).
  split; nra.
Qed.

Lemma one_le_ratio (lo hi : Q) : 0 < lo -> lo <= hi -> 1 <= hi / lo.
Proof. intros Hlo Hle. apply Qle_shift_div_l; [done | lra]. Qed.

Lemma sim_body_bounded lo hi close es xs st i st' :
  0 < lo -> lo <= hi -> (1 <= i)%nat ->
  Forall (fun c => lo <= c /\ c <= hi) close ->
  bounded_run lo hi i st ->
  sim_body close es xs st i = Ok st' ->
  bounded_run lo hi (S i) st'.
Proof.
  intros Hlo Hle Hi Hclose (HT0 & HT1 & Hentry) H.
  pose proof (one_le_ratio lo hi Hlo Hle) as Hr.
  assert (qpow (hi / lo) (S i - 1) == qpow (hi / lo) (i - 1) * (hi / lo)) as Hpow.
  { replace (S i - 1)%nat with (S (i - 1)) by lia. reflexivity. }
  assert (bounded_run lo hi (S i) st) as Hsame.
  { split; [done|]. split; [|done]. rewrite Hpow.
    pose proof (qpow_nonneg (hi / lo) (i - 1) ltac:(lra)). nra. }
  unfold sim_body in H. inv_bind H. rename v into price.
  apply iloc_Ok in Hv. rewrite Forall_lookup in Hclose.
  destruct (Hclose _ _ Hv) as [Hp1 Hp2].
  destruct (in_position st) eqn:Ein; cbn [negb] in H; inv_bind H;
    destruct v; injection H as <-; try exact Hsame.
  - destruct (realise_bound lo hi st price Hlo (Hentry eq_refl) Hp1 Hp2 HT0) as [R0 R1].
    split; [exact R0|]. split; [|discriminate]. cbn [total_return].
    rewrite Hpow. nra.
  - destruct Hsame as (S0 & S1 & _). split; [exact S0|]. split; [exact S1|].
    intros _. exact Hp1.
Qed.

(** On closing prices between [lo] and [hi] the simulation multiplies its
    stake by at most [hi / lo] per bar. *)
Lemma simulate_bounded lo hi close pos neg st :
  0 < lo -> lo <= hi -> (1 <= length close)%nat ->
  Forall (fun c => lo <= c /\ c <= hi) close ->
  simulate close pos neg = Ok st ->
  0 <= total_return st /\ total_return st <= qpow (hi / lo) (length close).
Proof.
  intros Hlo Hle Hn Hclose H. unfold simulate in H. inv_bind H. rename v into st0.
  unfold trade_loop in Hv.
  apply (for_each_seq_inv (bounded_run lo hi)) in Hv.
  - replace (1 + (length close - 1))%nat with (length close) in Hv by lia.
    destruct Hv as (HT0 & HT1 & Hentry).
    pose proof (one_le_ratio lo hi Hlo Hle) as Hr.
    pose proof (qpow_nonneg (hi / lo) (length close - 1) ltac:(lra)) as Hq.
    assert (qpow (hi / lo) (length close)
            == qpow (hi / lo) (length close - 1) * (hi / lo)) as Hpow.
    { replace (length close) with (S (length close - 1)) at 1 by lia. reflexivity. }
    unfold close_open_position in H. destruct (in_position st0) eqn:Ein.
    + inv_bind H. injection H as <-. cbn [total_return].
      destruct (iloc_neg_1 close Hn) as (x & Hx & Hx').
      assert (v = x) as -> by congruence.
      rewrite Forall_lookup in Hclose. destruct (Hclose _ _ Hx') as [Hp1 Hp2].
      destruct (realise_bound lo hi st0 x Hlo (Hentry eq_refl) Hp1 Hp2 HT0) as [R0 R1].
      split; [exact R0|]. rewrite Hpow. nra.
    + injection H as <-. split; [exact HT0|]. rewrite Hpow. nra.
  - split; [|split]; cbn; [lra | lra | discriminate].
  - intros i s s' Hi Hs Hb.
    apply (sim_body_bounded lo hi close (ignition pos) (ignition neg) s i s');
      (done || lia).
Qed.

(** The same bound on the strategy return the backtest reports. *)
Lemma check_alpha_validity_bounded lo hi df (n : Z) s :
  0 < lo -> lo <= hi -> (50 <= length df)%nat -> (1 <= n)%Z ->
  Forall (fun c => lo <= c /\ c <= hi) (Close <$> df) ->
  check_alpha_validity df n = Ok s ->
  exists st last_close first_close,
    (Close <$> df) !! (length df - 1)%nat = Some last_close /\
    (Close <$> df) !! 0%nat = Some first_close /\
    s = stats_of st last_close first_close /\
    total_return st <= qpow (hi / lo) (length df).
Proof.
  intros Hlo Hle Hlen Hn Hclose Hs.
  destruct (check_alpha_validity_Ok df n Hlen Hn)
    as (p & m & pos & neg & st & lc & fc & _ & _ & Hsim & Hlc & Hfc & Hchk).
  rewrite Hchk in Hs. injection Hs as <-.
  exists st, lc, fc. split; [done|]. split; [done|]. split; [done|].
  assert (1 <= length (Close <$> df))%nat as Hn' by (rewrite length_fmap; lia).
  destruct (simulate_bounded lo hi _ pos neg st Hlo Hle Hn' Hclose Hsim) as [_ H].
  by rewrite length_fmap in H.
Qed.
End ReturnBound.

(** ** Two price histories *)

Section Histories.
Import AlphaScanner.

Lemma bump_frame_length : (50 <= length bump_frame)%nat.
Proof. unfold bump_frame. rewrite length_app, length_replicate. simpl. lia. Qed.

Lemma slump_frame_length : (50 <= length slump_frame)%nat.
Proof. unfold slump_frame. rewrite length_app, length_replicate. simpl. lia. Qed.

Lemma bump_frame_nonzero : nonzero_closes bump_frame.
Proof.
  unfold nonzero_closes, bump_frame. apply Forall_app. split.
  - apply Forall_replicate. intros E. discriminate E.
  - repeat constructor; intros E; discriminate E.
Defined.

Lemma slump_frame_nonzero : nonzero_closes slump_frame.
Proof.
  unfold nonzero_closes, slump_frame. apply Forall_app. split.
  - apply Forall_replicate. intros E. discriminate E.
  - repeat constructor. intros E. discriminate E.
Defined.

Lemma sample_client_nonzero symbol days : nonzero_closes (sample_client symbol days).
Proof.
  unfold sample_client. destruct (String.eqb symbol "FPT").
  - exact bump_frame_nonzero.
  - exact slump_frame_nonzero.
Defined.

Lemma bump_closes :
  Forall (fun c => 1000 <= c /\ c <= 1010) (Close <$> bump_frame).
Proof.
  unfold bump_frame. rewrite fmap_app, fmap_replicate. apply Forall_app. split.
  - apply Forall_replicate. split; by compute.
  - repeat constructor; by compute.
Qed.

Lemma bump_first_length :
  exists s, Backtest.check_alpha_validity bump_frame 1 = Ok s /\ 1 <= Backtest.alpha s.
Proof. eexists. split; [lazy; reflexivity|]. by compute. Qed.

Lemma bump_growth : (qpow (1010 / 1000) 50 - 1) * 100 < 90.
Proof. reflexivity. Qed.

(** The bump is analysed as valid, with an alpha below 90; which length
    wins does not matter. *)
Lemma bump_analysis :
  exists r, analyze_symbol sample_client "FPT" 730 = Some r /\
    is_valid r = true /\ alpha r < 90.
Proof.
  destruct (analyze_symbol_Ok sample_client "FPT" 730 bump_frame_length)
    as (s & L & ? & ? & ? & ? & ? & ? & ? & ? & ? & Hgs & _ & _ & _ & _ & _ & _ & Hr).
  change (sample_client "FPT" 730) with bump_frame in Hgs.
  destruct (grid_search_spec bump_frame bump_frame_length)
    as (s' & L' & Hgs' & HL & Hs & Hbest).
  rewrite Hgs in Hgs'. injection Hgs' as Es _ EL. subst s' L'.
  destruct (Hbest 1%Z ltac:(lia)) as (s1 & Hs1 & Hle1 & _).
  destruct bump_first_length as (s1' & Hs1' & Hone).
  assert (s1' = s1) as -> by congruence.
  destruct (check_alpha_validity_bounded 1000 1010 bump_frame L s)
    as (st & lc & fc & Hlc & Hfc & -> & HT);
    [reflexivity | by compute | exact bump_frame_length | lia
    | exact bump_closes | exact Hs |].
  assert (lc = 1000) as -> by (apply (inj Some); rewrite <- Hlc; reflexivity).
  assert (fc = 1000) as -> by (apply (inj Some); rewrite <- Hfc; reflexivity).
  change (length bump_frame) with 50%nat in HT.
  pose proof bump_growth as Hgrow.
  assert ((1000 - 1000) / 1000 * 100 == 0) as Hbh by reflexivity.
  eexists. split; [exact Hr|]. cbn [is_valid alpha].
  unfold Backtest.stats_of in *. cbn [Backtest.is_valid Backtest.alpha] in *.
  set (bh := (1000 - 1000) / 1000 * 100) in *.
  set (top := qpow (1010 / 1000) 50) in *.
  split; [|lra].
  apply andb_true_iff. split; apply Qgtb_true; lra.
Qed.

Lemma slump_quiet : Forall (fun x => x == 0) (TitanMath.plus_dms slump_frame).
Proof.
  assert (TitanMath.plus_dms slump_frame = replicate 50 0) as -> by reflexivity.
  by apply Forall_replicate.
Qed.

Lemma slump_first_length :
  exists s, Backtest.check_alpha_validity slump_frame 1 = Ok s /\
    Backtest.is_valid s = false /\ Backtest.alpha s == 90.
Proof. eexists. split; [lazy; reflexivity|]. split; reflexivity. Qed.

(** The slump is analysed as not valid, with alpha 90: no trade against a
    market that lost 90 percent. *)
Lemma slump_analysis :
  exists r, analyze_symbol sample_client "VNM" 730 = Some r /\
    is_valid r = false /\ alpha r == 90.
Proof.
  destruct (analyze_symbol_Ok sample_client "VNM" 730 slump_frame_length)
    as (s & L & ? & ? & ? & ? & ? & ? & ? & ? & ? & Hgs & _ & _ & _ & _ & _ & _ & Hr).
  change (sample_client "VNM" 730) with slump_frame in Hgs.
  destruct (quiet_grid_search slump_frame slump_quiet slump_frame_length)
    as (s' & Hgs' & Hs').
  rewrite Hgs in Hgs'. injection Hgs' as Es _ EL. subst s' L.
  destruct slump_first_length as (s1 & Hs1 & Hv & Ha).
  assert (s1 = s) as -> by congruence.
  eexists. split; [exact Hr|]. cbn [is_valid alpha]. by split.
Qed.
End Histories.

(** * The claims of the specification *)

(** ** Smoothing and indicators *)

(** C6. For a length that is not a positive integer the smoothing fails: the
    call raises, ZeroDivisionError for 0 and pandas' ValueError below 0, and
    returns nothing.  For every positive length it returns a column aligned
    with its input, with [output[0] = input[0]] and
    [output[i] = output[i-1] + (input[i] - output[i-1]) / length]. *)
Theorem rma_wilder_recurrence (series : list Q) (n : Z) :
  ((n <= 0)%Z ->
     TitanMath.rma series n
       = Raise (if (n =? 0)%Z then ZeroDivisionError else ValueError)) /\
  ((1 <= n)%Z ->
     exists out, TitanMath.rma series n = Ok out /\
       length out = length series /\
       out !! 0%nat = series !! 0%nat /\
       forall i x y, series !! S i = Some x -> out !! i = Some y ->
         exists y', out !! S i = Some y' /\ y' == y + (x - y) / inject_Z n).
Proof.
  split; [apply rma_Raise|]. intros Hn. eexists. split; [by apply rma_Ok|].
  split; [apply length_ewm_mean|]. split; [apply ewm_mean_head|].
  intros i x y Hx Hy. eexists. split; [by apply ewm_mean_step|].
  by apply wilder_form.
Qed.

Lemma rma_wilder_recurrence_witness :
  TitanMath.rma [4; 8; 2] 0 = Raise ZeroDivisionError /\
  TitanMath.rma [4; 8; 2] (-3) = Raise ValueError /\
  (exists out, TitanMath.rma [4; 8; 2] 2 = Ok out /\
     length out = 3%nat /\
     out !! 0%nat = Some 4 /\
     forall i x y, [4; 8; 2] !! S i = Some x -> out !! i = Some y ->
       exists y', out !! S i = Some y' /\ y' == y + (x - y) / inject_Z 2).
Proof.
  split; [|split].
  - apply (proj1 (rma_wilder_recurrence [4; 8; 2] 0)). lia.
  - apply (proj1 (rma_wilder_recurrence [4; 8; 2] (-3))). lia.
  - apply (proj2 (rma_wilder_recurrence [4; 8; 2] 2)). lia.
Defined.





(** ** The impulse state machine *)

(** C2. In the output of [calculate_trend_count] a positive bullish count
    sits on a zero bearish count and a positive bearish count on a zero
    bullish count, at every bar; and every transition of the loop, the
    hold-previous branch included, keeps that true of the whole state. *)
Theorem impulse_counts_exclusive (plus_di minus_di pos neg : list Q) :
  TitanMath.calculate_trend_count plus_di minus_di = Ok (pos, neg) ->
  (forall i p n, pos !! i = Some p -> neg !! i = Some n ->
     (0 < p -> n == 0) /\ (0 < n -> p == 0)) /\
  (forall st i st', all_exclusive st ->
     TitanMath.trend_body plus_di minus_di st i = Ok st' -> all_exclusive st').
Proof.
  intros H. split; [|intros st i st'; apply trend_body_exclusive].
  apply calculate_trend_count_Ok_inv in H as [H _].
  apply (for_each_inv all_exclusive) in H.
  - intros i p n Hp Hn. specialize (H i). simpl in H.
    by rewrite (cell_lookup _ _ _ Hp), (cell_lookup _ _ _ Hn) in H.
  - apply all_exclusive_init.
  - intros i s s' _. apply trend_body_exclusive.
Qed.

Lemma impulse_counts_exclusive_witness :
  TitanMath.calculate_trend_count sample_plus_di sample_minus_di
    = Ok ([0; 1; 1; 0], [0; 0; 0; 1]) /\
  forall i p n, [0; 1; 1; 0] !! i = Some p -> [0; 0; 0; 1] !! i = Some n ->
    (0 < p -> n == 0) /\ (0 < n -> p == 0).
Proof.
  assert (TitanMath.calculate_trend_count sample_plus_di sample_minus_di
          = Ok ([0; 1; 1; 0], [0; 0; 0; 1])) as H by reflexivity.
  split; [exact H|].
  exact (proj1 (impulse_counts_exclusive _ _ _ _ H)).
Defined.

(** C10. Both columns of [calculate_trend_count] start at 0, hold a natural
    number in every cell, and from one bar to the next a count is reset to
    0, kept, or raised by exactly 1. *)
Theorem impulse_counts_run_length (plus_di minus_di pos neg : list Q) :
  TitanMath.calculate_trend_count plus_di minus_di = Ok (pos, neg) ->
  length pos = length plus_di /\ length neg = length plus_di /\
  (forall c, c = pos \/ c = neg ->
     (forall x, c !! 0%nat = Some x -> x == 0) /\
     (forall i x, c !! i = Some x -> exists k : nat, x == inject_Z (Z.of_nat k)) /\
     (forall i a b, c !! i = Some a -> c !! S i = Some b ->
        b == 0 \/ b == a \/ b == a + 1)).
Proof.
  intros H. destruct (calculate_trend_count_length _ _ _ _ H) as [Hp Hn].
  destruct (calculate_trend_count_run_length _ _ _ _ H) as [Rp Rn].
  split; [done|]. split; [done|]. by intros c [-> | ->].
Qed.

Lemma impulse_counts_run_length_witness :
  TitanMath.calculate_trend_count sample_plus_di sample_minus_di
    = Ok ([0; 1; 1; 0], [0; 0; 0; 1]) /\
  forall i a b, [0; 1; 1; 0] !! i = Some a -> [0; 1; 1; 0] !! S i = Some b ->
    b == 0 \/ b == a \/ b == a + 1.
Proof.
  assert (TitanMath.calculate_trend_count sample_plus_di sample_minus_di
          = Ok ([0; 1; 1; 0], [0; 0; 0; 1])) as H by reflexivity.
  split; [exact H|].
  destruct (impulse_counts_run_length _ _ _ _ H) as (_ & _ & Hc).
  exact (proj2 (proj2 (Hc _ (or_introl eq_refl)))).
Defined.

(** ** The backtest *)

(** C4. With fewer than 50 bars [check_alpha_validity] raises nothing: it
    returns the insufficient-data record, not valid, with alpha, strategy
    return and buy-and-hold return 0 and no trade. *)
Theorem insufficient_data_is_a_value (df : frame) (di_length : Z) :
  (length df < 50)%nat ->
  exists s, Backtest.check_alpha_validity df di_length = Ok s /\
    Backtest.is_valid s = false /\ Backtest.alpha s = 0 /\
    Backtest.algo_ret s = 0 /\ Backtest.buy_hold s = 0 /\
    Backtest.total_trades s = 0%Z /\
    Backtest.reason s = Some "Insufficient data"%string.
Proof.
  intros H. exists Backtest.insufficient_data. unfold Backtest.check_alpha_validity.
  apply Nat.ltb_lt in H. rewrite H. repeat split.
Qed.

Lemma insufficient_data_is_a_value_witness :
  (length short_frame < 50)%nat /\
  exists s, Backtest.check_alpha_validity short_frame 0 = Ok s /\
    Backtest.is_valid s = false /\ Backtest.alpha s = 0 /\
    Backtest.algo_ret s = 0 /\ Backtest.buy_hold s = 0 /\
    Backtest.total_trades s = 0%Z /\
    Backtest.reason s = Some "Insufficient data"%string.
Proof.
  assert (length short_frame < 50)%nat as H by (vm_compute; lia).
  split; [exact H|]. exact (insufficient_data_is_a_value short_frame 0 H).
Defined.




(** ** The scanner *)

(** C1. On 50 bars or more, none with a close of 0, [analyze_symbol]
    returns a result whose length lies in 1..40, whose alpha is the alpha
    [check_alpha_validity] computes at that length, no length of 1..40 has
    a greater alpha, and a length with the same alpha is not smaller than
    the one returned: the lowest length among the maximal ones wins.
    (With a first close of 0 the buy-and-hold return of the code is a
    division by 0, every alpha is [-inf] or nan, no length replaces the
    initial incumbent and the code returns [None].) *)
Theorem grid_search_first_maximum
    (get_stock_history : string -> Z -> frame) (symbol : string) (days : Z) :
  let df := get_stock_history symbol days in
  (50 <= length df)%nat -> nonzero_closes df ->
  exists r s,
    AlphaScanner.analyze_symbol get_stock_history symbol days = Some r /\
    (1 <= AlphaScanner.optimal_length r <= 40)%Z /\
    Backtest.check_alpha_validity df (AlphaScanner.optimal_length r) = Ok s /\
    AlphaScanner.alpha r = Backtest.alpha s /\
    forall k, (1 <= k <= 40)%Z ->
      exists sk, Backtest.check_alpha_validity df k = Ok sk /\
        Backtest.alpha sk <= AlphaScanner.alpha r /\
        (Backtest.alpha sk == AlphaScanner.alpha r ->
         (AlphaScanner.optimal_length r <= k)%Z).
Proof.
  intros df Hlen _.
  destruct (analyze_symbol_Ok get_stock_history symbol days Hlen)
    as (s & L & ? & ? & ? & ? & ? & ? & ? & ? & ? & Hgs & _ & _ & _ & _ & _ & _ & Hr).
  fold df in Hgs.
  destruct (grid_search_spec df Hlen) as (s' & L' & Hgs' & HL & Hs & Hbest).
  rewrite Hgs in Hgs'. injection Hgs' as Es _ EL. subst s' L'.
  eexists. exists s. split; [exact Hr|].
  cbn [AlphaScanner.optimal_length AlphaScanner.alpha].
  split; [exact HL|]. split; [exact Hs|]. split; [reflexivity|].
  intros k Hk. destruct (Hbest k Hk) as (sk & Hsk & Hle & Hlt).
  exists sk. split; [exact Hsk|]. split; [exact Hle|].
  intros Heq. destruct (Z_lt_le_dec k L) as [Hkl|Hkl]; [|exact Hkl].
  exfalso. specialize (Hlt Hkl). exact (Qlt_not_eq _ _ Hlt Heq).
Qed.

(** On the sample frame all forty lengths reach the same alpha, and the
    result carries length 1. *)
Lemma grid_search_first_maximum_witness :
  (50 <= length sample_frame)%nat /\ nonzero_closes sample_frame /\
  exists r s1,
    AlphaScanner.analyze_symbol (fun _ _ => sample_frame) "VNM" 730 = Some r /\
    Backtest.check_alpha_validity sample_frame 1 = Ok s1 /\
    AlphaScanner.alpha r = Backtest.alpha s1 /\
    AlphaScanner.optimal_length r = 1%Z /\
    forall k, (1 <= k <= 40)%Z ->
      exists sk, Backtest.check_alpha_validity sample_frame k = Ok sk /\
        Backtest.alpha sk = AlphaScanner.alpha r.
Proof.
  split; [exact sample_frame_length|]. split; [exact sample_frame_nonzero|].
  destruct (grid_search_first_maximum (fun _ _ => sample_frame) "VNM" 730
              sample_frame_length sample_frame_nonzero)
    as (r & s & Hr & HL & Hs & Ha & Hall).
  cbv beta in Hs, Hall.
  destruct (quiet_check sample_frame _ s sample_frame_quiet sample_frame_length
              (proj1 HL) Hs) as (lc & fc & Hlc & Hfc & Es).
  assert (forall k, (1 <= k <= 40)%Z ->
            exists sk, Backtest.check_alpha_validity sample_frame k = Ok sk /\
              Backtest.alpha sk = AlphaScanner.alpha r /\
              (AlphaScanner.optimal_length r <= k)%Z) as Hsame.
  { intros k Hk. destruct (Hall k Hk) as (sk & Hsk & _ & Htie).
    destruct (quiet_check sample_frame k sk sample_frame_quiet sample_frame_length
                ltac:(lia) Hsk) as (lc' & fc' & Hlc' & Hfc' & Esk).
    assert (lc' = lc) as -> by congruence. assert (fc' = fc) as -> by congruence.
    assert (sk = s) as -> by congruence.
    exists s. split; [exact Hsk|]. split; [by rewrite Ha|].
    apply Htie. rewrite Ha. reflexivity. }
  destruct (Hsame 1%Z ltac:(lia)) as (s1 & Hs1 & Ha1 & HL1).
  exists r, s1. split; [exact Hr|]. split; [exact Hs1|].
  split; [by rewrite Ha1|]. split; [lia|].
  intros k Hk. destruct (Hsame k Hk) as (sk & Hsk & Hak & _).
  exists sk. by split.
Defined.

(** C7. On 50 bars or more [inspect_ticker_stability] returns exactly 40
    rows in ascending order of length; row [k] (from 0) carries length
    [k + 1] and the figures [check_alpha_validity] computes at that length. *)
Theorem stability_rows_follow_the_range
    (get_stock_history : string -> Z -> frame) (symbol : string) (days : Z) :
  let df := get_stock_history symbol days in
  let rows := AlphaScanner.inspect_ticker_stability get_stock_history symbol days in
  (50 <= length df)%nat ->
  length rows = 40%nat /\
  forall k, (k < 40)%nat ->
    exists row s, rows !! k = Some row /\
      AlphaScanner.row_length row = (Z.of_nat k + 1)%Z /\
      Backtest.check_alpha_validity df (Z.of_nat k + 1) = Ok s /\
      row = AlphaScanner.row_of (Z.of_nat k + 1) s.
Proof.
  intros df rows Hlen. subst rows. unfold AlphaScanner.inspect_ticker_stability.
  fold df. rewrite not_short by done.
  destruct (fold_inspect df
              (py_range AlphaScanner.DI_LENGTH_MIN (AlphaScanner.DI_LENGTH_MAX + 1)) [])
    as (rows & -> & Hrows).
  { intros k Hk. apply In_py_range in Hk. unfold AlphaScanner.DI_LENGTH_MIN in Hk.
    apply check_alpha_validity_total; [done | lia]. }
  rewrite app_nil_l.
  assert (length rows = 40%nat) as Hn.
  { apply Forall2_length in Hrows. rewrite <- Hrows.
    unfold py_range. by rewrite length_fmap, length_seq. }
  assert (forall k row, rows !! k = Some row ->
            exists s, Backtest.check_alpha_validity df (Z.of_nat k + 1) = Ok s /\
              row = AlphaScanner.row_of (Z.of_nat k + 1) s) as Hrow.
  { intros k row Hk. destruct (rows_of_range df rows _ _ k row Hrows Hk) as (s & Hs & ->).
    unfold AlphaScanner.DI_LENGTH_MIN in *.
    replace (1 + Z.of_nat k)%Z with (Z.of_nat k + 1)%Z in * by lia. eauto. }
  rewrite list_sort_id.
  - split; [done|]. intros k Hk.
    destruct (lookup_lt_is_Some_2 rows k) as [row Hk']; [lia|].
    destruct (Hrow k row Hk') as (s & Hs & ->).
    eexists. exists s.
    split; [exact Hk'|]. split; [reflexivity|]. split; [exact Hs | reflexivity].
  - intros i j x y Hij Hx Hy.
    destruct (Hrow i x Hx) as (sx & _ & ->). destruct (Hrow j y Hy) as (sy & _ & ->).
    unfold before. cbn [AlphaScanner.row_length AlphaScanner.row_of].
    apply Z.ltb_ge. lia.
Qed.

Lemma stability_rows_follow_the_range_witness :
  (50 <= length sample_frame)%nat /\
  length (AlphaScanner.inspect_ticker_stability (fun _ _ => sample_frame) "VNM" 730)
    = 40%nat.
Proof.
  assert (50 <= length sample_frame)%nat as H by (vm_compute; lia).
  split; [exact H|].
  exact (proj1 (stability_rows_follow_the_range (fun _ _ => sample_frame) "VNM" 730 H)).
Defined.

(** C8, as the code has it. For every result [analyze_symbol] returns
    (an analysis of 50 bars or more) the buy-signal flag is true exactly
    when the bullish count of the winning length is 1 on the last bar and
    0 on the bar before, and the strength label is "Strong" when
    [|plusDI - minusDI|] on the last bar exceeds 20, "Mod" when it exceeds
    10 but not 20, and "Weak" otherwise. *)
Theorem latest_bar_signal
    (get_stock_history : string -> Z -> frame) (symbol : string) (days : Z)
    (r : AlphaScanner.analysis) :
  let df := get_stock_history symbol days in
  AlphaScanner.analyze_symbol get_stock_history symbol days = Some r ->
  (50 <= length df)%nat /\
  exists plus minus pos neg cur prev lp lm,
    TitanMath.calculate_di df (AlphaScanner.optimal_length r) = Ok (plus, minus) /\
    TitanMath.calculate_trend_count plus minus = Ok (pos, neg) /\
    pos !! (length df - 1)%nat = Some cur /\
    pos !! (length df - 2)%nat = Some prev /\
    plus !! (length df - 1)%nat = Some lp /\
    minus !! (length df - 1)%nat = Some lm /\
    (AlphaScanner.is_buy_signal r = true <-> cur == 1 /\ prev == 0) /\
    (20 < Qabs (lp - lm) -> AlphaScanner.trend_strength r = "Strong"%string) /\
    (10 < Qabs (lp - lm) -> Qabs (lp - lm) <= 20 ->
     AlphaScanner.trend_strength r = "Mod"%string) /\
    (Qabs (lp - lm) <= 10 -> AlphaScanner.trend_strength r = "Weak"%string).
Proof.
  intros df Hsome.
  assert (50 <= length df)%nat as Hlen.
  { destruct (Nat.lt_ge_cases (length df) 50) as [Hlt|Hge]; [|exact Hge].
    exfalso. unfold AlphaScanner.analyze_symbol in Hsome. fold df in Hsome.
    apply Nat.ltb_lt in Hlt. rewrite Hlt, orb_true_r in Hsome. discriminate Hsome. }
  split; [exact Hlen|].
  destruct (analyze_symbol_Ok get_stock_history symbol days Hlen)
    as (s & L & plus & minus & pos & neg & cur & prev & lp & lm & cp &
        _ & Hdi & Htc & Hcur & Hprev & Hlp & Hlm & Hr).
  rewrite Hr in Hsome. injection Hsome as <-.
  exists plus, minus, pos, neg, cur, prev, lp, lm.
  cbn [AlphaScanner.optimal_length AlphaScanner.is_buy_signal
       AlphaScanner.trend_strength].
  split; [exact Hdi|]. split; [exact Htc|]. split; [exact Hcur|].
  split; [exact Hprev|]. split; [exact Hlp|]. split; [exact Hlm|].
  split; [apply buy_flag_iff|]. apply strength_label_cases.
Qed.

(** The analysis of the sample frame: plusDI = 0 and minusDI = 100/7 on the
    last bar, so the label is "Mod"; the bullish count is 0, so there is
    no buy signal. *)
Lemma latest_bar_signal_witness :
  exists r,
    AlphaScanner.analyze_symbol (fun _ _ => sample_frame) "VNM" 730 = Some r /\
    AlphaScanner.trend_strength r = "Mod"%string /\
    AlphaScanner.is_buy_signal r <> true.
Proof.
  destruct (analyze_symbol_Ok (fun _ _ => sample_frame) "VNM" 730 sample_frame_length)
    as (s & L & ? & ? & ? & ? & ? & ? & ? & ? & ? & Hgs & _ & _ & _ & _ & _ & _ & Hr).
  cbv beta in Hgs.
  destruct (quiet_grid_search sample_frame sample_frame_quiet sample_frame_length)
    as (s' & Hgs' & _).
  rewrite Hgs' in Hgs. injection Hgs as _ _ <-.
  eexists. split; [exact Hr|].
  destruct (latest_bar_signal (fun _ _ => sample_frame) "VNM" 730 _ Hr)
    as (_ & plus & minus & pos & neg & cur & prev & lp & lm &
        Hdi & Htc & Hcur & _ & Hlp & Hlm & Hbuy & _ & Hmod & _).
  cbv beta in Hdi, Hcur, Hlp, Hlm. cbn [AlphaScanner.optimal_length] in Hdi.
  assert (TitanMath.calculate_di sample_frame 1
          = Ok (replicate 49 (0 # 6) ++ [0 # 7], replicate 49 (0 # 6) ++ [100 # 7]))
    as Hdi' by reflexivity.
  rewrite Hdi' in Hdi. injection Hdi as <- <-.
  match type of Htc with ?lhs = _ =>
    let v := eval lazy in lhs in
    assert (lhs = v) as Htc' by (lazy; reflexivity) end.
  rewrite Htc' in Htc. injection Htc as <- <-.
  assert (lp = 0 # 7) as -> by (apply (inj Some); rewrite <- Hlp; reflexivity).
  assert (lm = 100 # 7) as -> by (apply (inj Some); rewrite <- Hlm; reflexivity).
  assert (cur = 0) as -> by (apply (inj Some); rewrite <- Hcur; reflexivity).
  split.
  - apply Hmod; reflexivity || (intros E; discriminate E).
  - intros Hb. apply Hbuy in Hb as [Hone _]. discriminate Hone.
Defined.

(** On the sample frame the grid search stays on length 1, the last bar has
    plusDI = 0 and minusDI = 100/7, a difference between 10 and 20, and the
    label returned is not "Moderate". *)
Lemma moderate_label_counterexample :
  exists r plus minus lp lm,
    AlphaScanner.analyze_symbol (fun _ _ => sample_frame) "VNM" 730 = Some r /\
    TitanMath.calculate_di sample_frame (AlphaScanner.optimal_length r)
      = Ok (plus, minus) /\
    plus !! 49%nat = Some lp /\ minus !! 49%nat = Some lm /\
    10 < Qabs (lp - lm) /\ Qabs (lp - lm) <= 20 /\
    AlphaScanner.trend_strength r <> "Moderate"%string.
Proof.
  destruct (analyze_symbol_Ok (fun _ _ => sample_frame) "VNM" 730 sample_frame_length)
    as (s & L & plus & minus & pos & neg & cur & prev & lp & lm & cp &
        Hgs & Hdi & _ & _ & _ & Hlp & Hlm & Hr).
  cbv beta in Hgs, Hdi, Hlp, Hlm.
  destruct (quiet_grid_search sample_frame sample_frame_quiet sample_frame_length)
    as (s' & Hgs' & _).
  rewrite Hgs' in Hgs. injection Hgs as _ _ <-.
  assert (TitanMath.calculate_di sample_frame 1
          = Ok (replicate 49 (0 # 6) ++ [0 # 7], replicate 49 (0 # 6) ++ [100 # 7]))
    as Hdi' by reflexivity.
  rewrite Hdi' in Hdi. injection Hdi as <- <-.
  assert (lp = 0 # 7) as -> by (apply (inj Some); rewrite <- Hlp; reflexivity).
  assert (lm = 100 # 7) as -> by (apply (inj Some); rewrite <- Hlm; reflexivity).
  eexists. exists (replicate 49 (0 # 6) ++ [0 # 7]),
    (replicate 49 (0 # 6) ++ [100 # 7]), (0 # 7), (100 # 7).
  split; [exact Hr|]. cbn [AlphaScanner.optimal_length AlphaScanner.trend_strength].
  split; [exact Hdi'|]. split; [reflexivity|]. split; [reflexivity|].
  split; [reflexivity|]. split; [by compute|]. by compute.
Qed.

(** ** Ranking *)

(** C9, as the code has it. The list [run_scan] hands to the table printer
    is a rearrangement of the analysis results in which a result never
    stands behind one it should precede: buy-signal-and-valid results come
    first, then the other valid ones, then the rest, each group by alpha
    descending.  The list [scan_vn100] returns is a rearrangement of the
    same results by alpha descending only. *)
Theorem ranked_scan_order
    (get_stock_history : string -> Z -> frame) (tickers : list string) :
  (forall results,
     Permutation (Main.rank results) results /\
     forall i j a b, (i < j)%nat ->
       Main.rank results !! i = Some a -> Main.rank results !! j = Some b ->
       ranked_before a b) /\
  Main.run_scan get_stock_history tickers
    = Main.rank (omap (fun symbol =>
                         AlphaScanner.analyze_symbol get_stock_history symbol 730)
                      tickers) /\
  (forall days,
     let out := AlphaScanner.scan_vn100 get_stock_history tickers days in
     Permutation out
       (omap (fun symbol => AlphaScanner.analyze_symbol get_stock_history symbol days)
             tickers) /\
     forall i j a b, (i < j)%nat -> out !! i = Some a -> out !! j = Some b ->
       AlphaScanner.alpha b <= AlphaScanner.alpha a).
Proof.
  split; [|split].
  - intros results. split; [apply list_sort_perm|]. apply rank_sorted.
  - reflexivity.
  - intros days out. split; [apply list_sort_perm|]. apply sort_by_alpha_sorted.
Qed.

(** [scan_vn100] on two tickers, a bump analysed as valid with an alpha
    below 90 and a slump analysed as not valid with alpha 90: the result
    that is not valid stands first. *)
Lemma alpha_only_order_counterexample :
  exists a b,
    AlphaScanner.scan_vn100 sample_client ["FPT"; "VNM"]%string 730 = [a; b] /\
    AlphaScanner.is_valid a = false /\ AlphaScanner.is_valid b = true /\
    ~ ranked_before a b.
Proof.
  destruct bump_analysis as (rb & Hrb & Hvb & Hab).
  destruct slump_analysis as (rs & Hrs & Hvs & Has).
  exists rs, rb. split; [|split; [exact Hvs|split; [exact Hvb|]]].
  - unfold AlphaScanner.scan_vn100. cbn [omap list_omap]. rewrite Hrb, Hrs.
    unfold AlphaScanner.sort_by_alpha, list_sort. cbn [foldr insert_by].
    unfold before.
    assert (Qltb (AlphaScanner.alpha rb) (AlphaScanner.alpha rs) = true) as ->; [|done].
    apply Qgtb_true. by rewrite Has.
  - unfold ranked_before. rewrite Hvs, Hvb, andb_false_r, andb_true_r.
    intros (H1 & H2 & _).
    destruct (AlphaScanner.is_buy_signal rb); [by specialize (H1 eq_refl)|].
    by specialize (H2 eq_refl eq_refl).
Qed.

Lemma ranked_scan_order_witness :
  Main.rank [avoid_result; watch_result] = [watch_result; avoid_result] /\
  ranked_before watch_result avoid_result.
Proof.
  split; [reflexivity|].
  destruct (ranked_scan_order (fun _ _ => []) []) as [H _].
  destruct (H [avoid_result; watch_result]) as [_ Hs].
  exact (Hs 0%nat 1%nat watch_result avoid_result (le_n 1) eq_refl eq_refl).
Defined.

(** * Further properties of the engine *)

(** ** What the backtest returns *)

Section BacktestFacts.
Import TitanMath Backtest.

(** The two ways [check_alpha_validity] returns. *)
Lemma check_alpha_validity_inv (df : frame) (di_length : Z) s :
  check_alpha_validity df di_length = Ok s ->
  ((length df < 50)%nat /\ s = insufficient_data) \/
  ((50 <= length df)%nat /\ (1 <= di_length)%Z /\
   exists pos neg st last_close first_close,
     simulate (Close <$> df) pos neg = Ok st /\
     (Close <$> df) !! (length df - 1)%nat = Some last_close /\
     (Close <$> df) !! 0%nat = Some first_close /\
     s = stats_of st last_close first_close).
Proof.
  intros H. destruct (Nat.lt_ge_cases (length df) 50) as [Hlt|Hge].
  - left. split; [done|]. unfold check_alpha_validity in H.
    apply Nat.ltb_lt in Hlt. rewrite Hlt in H. by injection H as <-.
  - right. split; [done|].
    assert (1 <= di_length)%Z as Hn.
    { unfold check_alpha_validity in H.
      destruct (length df <? 50)%nat eqn:E; [apply Nat.ltb_lt in E; lia|].
      inv_bind H. destruct v as [p m]. by apply calculate_di_Ok_inv in Hv. }
    split; [done|].
    destruct (check_alpha_validity_Ok df di_length Hge Hn)
      as (p & m & pos & neg & st & lc & fc & _ & _ & Hsim & Hlc & Hfc & Hchk).
    rewrite Hchk in H. injection H as <-. by exists pos, neg, st, lc, fc.
Qed.

Lemma stats_of_guardrails st lc fc :
  alpha (stats_of st lc fc) == algo_ret (stats_of st lc fc) - buy_hold (stats_of st lc fc) /\
  (is_valid (stats_of st lc fc) = true <->
   0 < algo_ret (stats_of st lc fc) /\
   buy_hold (stats_of st lc fc) < algo_ret (stats_of st lc fc)).
Proof.
  unfold stats_of. cbn [alpha algo_ret buy_hold is_valid]. split; [reflexivity|].
  by rewrite andb_true_iff, !Qgtb_true.
Qed.
End BacktestFacts.

(** X1. Whatever [check_alpha_validity] returns, alpha is the strategy
    return minus the buy-and-hold return, the result is valid exactly when
    the strategy return is positive and above buy-and-hold, and a valid
    result has a positive alpha. *)
Theorem guardrails_mean_positive_alpha (df : frame) (di_length : Z) s :
  Backtest.check_alpha_validity df di_length = Ok s ->
  Backtest.alpha s == Backtest.algo_ret s - Backtest.buy_hold s /\
  (Backtest.is_valid s = true <->
   0 < Backtest.algo_ret s /\ Backtest.buy_hold s < Backtest.algo_ret s) /\
  (Backtest.is_valid s = true -> 0 < Backtest.alpha s).
Proof.
  intros H.
  assert (Backtest.alpha s == Backtest.algo_ret s - Backtest.buy_hold s /\
          (Backtest.is_valid s = true <->
           0 < Backtest.algo_ret s /\ Backtest.buy_hold s < Backtest.algo_ret s))
    as [Ha Hv].
  { destruct (check_alpha_validity_inv _ _ _ H)
      as [[_ ->]|(_ & _ & pos & neg & st & lc & fc & _ & _ & _ & ->)].
    - split; [reflexivity|]. split; [discriminate|]. intros [H0 _]. by compute in H0.
    - apply stats_of_guardrails. }
  split; [exact Ha|]. split; [exact Hv|].
  intros Hvalid. apply Hv in Hvalid as [_ Hbeat]. rewrite Ha. lra.
Qed.

Lemma guardrails_mean_positive_alpha_witness :
  exists s, Backtest.check_alpha_validity bump_frame 1 = Ok s /\
    Backtest.is_valid s = true /\ 0 < Backtest.alpha s.
Proof.
  destruct bump_first_length as (s & Hs & _).
  exists s. split; [exact Hs|].
  assert (Backtest.is_valid s = true) as Hv.
  { assert (Ok s = Backtest.check_alpha_validity bump_frame 1) as E by (symmetry; exact Hs).
    lazy in E. injection E as ->. reflexivity. }
  split; [exact Hv|].
  exact (proj2 (proj2 (guardrails_mean_positive_alpha bump_frame 1 s Hs)) Hv).
Defined.

(** X2. With 50 bars or more [check_alpha_validity] returns exactly for the
    lengths [>= 1]: length 0 ends in ZeroDivisionError and a negative length
    in ValueError, both raised by the smoothing. *)
Theorem backtest_needs_positive_length (df : frame) (di_length : Z) :
  (50 <= length df)%nat ->
  ((1 <= di_length)%Z -> exists s, Backtest.check_alpha_validity df di_length = Ok s) /\
  ((di_length <= 0)%Z ->
   Backtest.check_alpha_validity df di_length
     = Raise (if (di_length =? 0)%Z then ZeroDivisionError else ValueError)).
Proof.
  intros Hlen. split; [by apply check_alpha_validity_total|].
  intros Hn. unfold Backtest.check_alpha_validity.
  destruct (length df <? 50)%nat eqn:E; [apply Nat.ltb_lt in E; lia|].
  unfold TitanMath.calculate_di. rewrite !rma_Raise by exact Hn. reflexivity.
Qed.

Lemma backtest_needs_positive_length_witness :
  (50 <= length sample_frame)%nat /\
  Backtest.check_alpha_validity sample_frame 0 = Raise ZeroDivisionError /\
  Backtest.check_alpha_validity sample_frame (-2) = Raise ValueError.
Proof.
  assert (50 <= length sample_frame)%nat as H by (vm_compute; lia).
  split; [exact H|]. split.
  - exact (proj2 (backtest_needs_positive_length sample_frame 0 H) ltac:(lia)).
  - exact (proj2 (backtest_needs_positive_length sample_frame (-2) H) ltac:(lia)).
Defined.

(** ** Counting and bounding the trades *)

Section TradeFacts.
Import Backtest.

Lemma sim_body_tallied close es xs st i st' :
  (1 <= i)%nat -> tallied i st ->
  sim_body close es xs st i = Ok st' -> tallied (S i) st'.
Proof.
  intros Hi (H0 & H2 & H1) H. unfold sim_body in H. inv_bind H.
  destruct (in_position st) eqn:Ein; cbn [negb] in H; inv_bind H;
    destruct v0; injection H as <-; unfold tallied;
    cbn [trades in_position total_return]; rewrite ?Ein;
    (split; [lia|]); (split; [lia|]); try done; intros; lia.
Qed.

Lemma simulate_tallied close pos neg st :
  (1 <= length close)%nat ->
  simulate close pos neg = Ok st ->
  (0 <= trades st)%Z /\ (2 * trades st <= Z.of_nat (length close))%Z /\
  (trades st = 0%Z -> total_return st = 1).
Proof.
  intros Hn H. unfold simulate in H. inv_bind H. rename v into st0.
  unfold trade_loop in Hv.
  apply (for_each_seq_inv tallied) in Hv.
  - replace (1 + (length close - 1))%nat with (length close) in Hv by lia.
    destruct Hv as (H0 & H2 & H1).
    unfold close_open_position in H. destruct (in_position st0) eqn:Ein.
    + inv_bind H. injection H as <-. cbn [trades total_return].
      split; [lia|]. split; [lia|]. intros; lia.
    + injection H as <-. split; [done|]. split; [lia|done].
  - unfold tallied. cbn. split; [lia|]. split; [lia|done].
  - intros i s s' Hi Hs Hb.
    apply (sim_body_tallied close (ignition pos) (ignition neg) s i s'); (done || lia).
Qed.

Lemma ratio_floor (lo hi e price : Q) :
  0 < lo -> e <= hi -> lo <= e -> lo <= price ->
  lo / hi <= price / e.
Proof.
  intros Hlo He He' Hp. assert (0 < e) by lra. assert (0 < hi) by lra.
  apply Qle_shift_div_l; [done|].
  assert (lo / hi * e == lo * e / hi) as -> by (field; lra).
  apply Qle_shift_div_r; [done|]. nra.
Qed.

Lemma realise_capped (lo hi : Q) (st : sim_state) (price : Q) (k : nat) :
  0 < lo -> lo <= entry_price st -> entry_price st <= hi ->
  lo <= price -> price <= hi ->
  qpow (lo / hi) k <= total_return st -> total_return st <= qpow (hi / lo) k ->
  qpow (lo / hi) (S k) <= realise st price /\ realise st price <= qpow (hi / lo) (S k).
Proof.
  intros Hlo He1 He2 Hp1 Hp2 HT1 HT2. unfold realise.
  destruct (ratio_bound lo hi (entry_price st) price Hlo He1 Hp1 Hp2) as [R0 R1].
  pose proof (ratio_floor lo hi (entry_price st) price Hlo He2 He1 Hp1) as R2.
  assert (0 <= lo / hi) as Hf by (apply Qle_shift_div_l; lra).
  pose proof (qpow_nonneg (lo / hi) k Hf) as Hq.
  assert (1 + (price - entry_price st) / entry_price st == price / entry_price st)
    as -> by (field; lra).
  cbn [qpow]. split; nra.
Qed.

Lemma sim_body_capped lo hi close es xs st i st' :
  0 < lo ->
  Forall (fun c => lo <= c /\ c <= hi) close ->
  capped lo hi st ->
  sim_body close es xs st i = Ok st' -> capped lo hi st'.
Proof.
  intros Hlo Hclose (H0 & HT1 & HT2 & Hentry) H.
  unfold sim_body in H. inv_bind H. rename v into price.
  apply iloc_Ok in Hv. rewrite Forall_lookup in Hclose.
  destruct (Hclose _ _ Hv) as [Hp1 Hp2].
  destruct (in_position st) eqn:Ein; cbn [negb] in H; inv_bind H;
    destruct v; injection H as <-.
  - destruct (Hentry eq_refl) as [He1 He2].
    destruct (realise_capped lo hi st price _ Hlo He1 He2 Hp1 Hp2 HT1 HT2) as [R1 R2].
    unfold capped. cbn [trades total_return in_position].
    replace (Z.to_nat (trades st + 1)) with (S (Z.to_nat (trades st))) by lia.
    split; [lia|]. split; [exact R1|]. split; [exact R2|discriminate].
  - unfold capped. split; [done|]. split; [done|]. split; [done|]. intros _.
    exact (Hentry eq_refl).
  - unfold capped. cbn [trades total_return in_position entry_price].
    split; [done|]. split; [done|]. split; [done|]. intros _.
    split; [exact Hp1 | exact Hp2].
  - unfold capped. split; [done|]. split; [done|]. split; [done|].
    rewrite Ein. discriminate.
Qed.

Lemma simulate_capped lo hi close pos neg st :
  0 < lo -> (1 <= length close)%nat ->
  Forall (fun c => lo <= c /\ c <= hi) close ->
  simulate close pos neg = Ok st ->
  qpow (lo / hi) (Z.to_nat (trades st)) <= total_return st /\
  total_return st <= qpow (hi / lo) (Z.to_nat (trades st)).
Proof.
  intros Hlo Hn Hclose H. unfold simulate in H. inv_bind H. rename v into st0.
  unfold trade_loop in Hv.
  apply (for_each_inv (capped lo hi)) in Hv.
  - destruct Hv as (H0 & HT1 & HT2 & Hentry).
    unfold close_open_position in H. destruct (in_position st0) eqn:Ein.
    + inv_bind H. injection H as <-. cbn [trades total_return].
      destruct (iloc_neg_1 close Hn) as (x & Hx & Hx').
      assert (v = x) as -> by congruence.
      rewrite Forall_lookup in Hclose. destruct (Hclose _ _ Hx') as [Hp1 Hp2].
      destruct (Hentry eq_refl) as [He1 He2].
      replace (Z.to_nat (trades st0 + 1)) with (S (Z.to_nat (trades st0))) by lia.
      exact (realise_capped lo hi st0 x _ Hlo He1 He2 Hp1 Hp2 HT1 HT2).
    + injection H as <-. by split.
  - unfold capped, sim_init. cbn [trades total_return in_position Z.to_nat qpow].
    split; [lia|]. split; [apply Qle_refl|]. split; [apply Qle_refl|discriminate].
  - intros i s s' _. by apply sim_body_capped.
Qed.
End TradeFacts.

(** X3. The trade count [check_alpha_validity] reports is never negative
    and at most half the number of bars: a round trip takes an entry bar
    and a later exit bar. *)
Theorem trades_fit_in_the_bars (df : frame) (di_length : Z) s :
  Backtest.check_alpha_validity df di_length = Ok s ->
  (0 <= Backtest.total_trades s)%Z /\
  (2 * Backtest.total_trades s <= Z.of_nat (length df))%Z.
Proof.
  intros H. destruct (check_alpha_validity_inv _ _ _ H)
    as [[_ ->]|(Hlen & _ & pos & neg & st & lc & fc & Hsim & _ & _ & ->)].
  - cbn [Backtest.total_trades Backtest.insufficient_data]. lia.
  - assert (1 <= length (Close <$> df))%nat as Hn by (rewrite length_fmap; lia).
    destruct (simulate_tallied _ pos neg st Hn Hsim) as (H0 & H2 & _).
    rewrite length_fmap in H2. unfold Backtest.stats_of.
    cbn [Backtest.total_trades]. by split.
Qed.

Lemma trades_fit_in_the_bars_witness :
  exists s, Backtest.check_alpha_validity bump_frame 1 = Ok s /\
    (0 <= Backtest.total_trades s)%Z /\
    (2 * Backtest.total_trades s <= Z.of_nat (length bump_frame))%Z.
Proof.
  destruct bump_first_length as (s & Hs & _).
  exists s. split; [exact Hs|]. exact (trades_fit_in_the_bars bump_frame 1 s Hs).
Defined.

Lemma check_without_trades (df : frame) (di_length : Z) s :
  Backtest.check_alpha_validity df di_length = Ok s ->
  Backtest.total_trades s = 0%Z ->
  Backtest.algo_ret s == 0 /\ Backtest.is_valid s = false /\
  Backtest.alpha s == - Backtest.buy_hold s.
Proof.
  intros H Hzero. destruct (check_alpha_validity_inv _ _ _ H)
    as [[_ ->]|(Hlen & _ & pos & neg & st & lc & fc & Hsim & _ & _ & ->)].
  - repeat split.
  - assert (1 <= length (Close <$> df))%nat as Hn by (rewrite length_fmap; lia).
    destruct (simulate_tallied _ pos neg st Hn Hsim) as (_ & _ & H1).
    unfold Backtest.stats_of in *.
    cbn [Backtest.total_trades Backtest.algo_ret Backtest.is_valid
         Backtest.alpha Backtest.buy_hold] in *.
    rewrite (H1 Hzero). split; [reflexivity|]. split; [reflexivity|]. ring.
Qed.

(** X4. A backtest without a single trade reports a strategy return of 0,
    an alpha equal to minus the buy-and-hold return, and is not valid,
    whatever the market did. *)
Theorem no_trade_is_never_valid (df : frame) (di_length : Z) s :
  Backtest.check_alpha_validity df di_length = Ok s ->
  Backtest.total_trades s = 0%Z ->
  Backtest.algo_ret s == 0 /\ Backtest.is_valid s = false /\
  Backtest.alpha s == - Backtest.buy_hold s.
Proof. intros H Hzero. by apply (check_without_trades df di_length). Qed.

Lemma no_trade_is_never_valid_witness :
  exists s, Backtest.check_alpha_validity slump_frame 1 = Ok s /\
    Backtest.total_trades s = 0%Z /\ Backtest.algo_ret s == 0 /\
    Backtest.is_valid s = false.
Proof.
  destruct slump_first_length as (s & Hs & _).
  assert (Backtest.total_trades s = 0%Z) as Hz.
  { assert (Ok s = Backtest.check_alpha_validity slump_frame 1) as E
      by (symmetry; exact Hs).
    lazy in E. injection E as ->. reflexivity. }
  exists s. split; [exact Hs|]. split; [exact Hz|].
  destruct (no_trade_is_never_valid slump_frame 1 s Hs Hz) as (Ha & Hv & _).
  exact (conj Ha Hv).
Defined.

(** X5. On closing prices between [lo > 0] and [hi] every trade multiplies
    the stake by a factor between [lo/hi] and [hi/lo]: with [t] trades the
    strategy return lies between [((lo/hi)^t - 1) * 100] and
    [((hi/lo)^t - 1) * 100], and it never falls below -100. *)
Theorem strategy_return_is_capped (lo hi : Q) (df : frame) (di_length : Z) s :
  0 < lo ->
  Forall (fun c => lo <= c /\ c <= hi) (Close <$> df) ->
  Backtest.check_alpha_validity df di_length = Ok s ->
  (qpow (lo / hi) (Z.to_nat (Backtest.total_trades s)) - 1) * 100
    <= Backtest.algo_ret s /\
  Backtest.algo_ret s
    <= (qpow (hi / lo) (Z.to_nat (Backtest.total_trades s)) - 1) * 100 /\
  -100 <= Backtest.algo_ret s.
Proof.
  intros Hlo Hclose H.
  destruct (check_alpha_validity_inv _ _ _ H)
    as [[_ ->]|(Hlen & _ & pos & neg & st & lc & fc & Hsim & _ & _ & ->)].
  - repeat split; by compute.
  - assert (1 <= length (Close <$> df))%nat as Hn by (rewrite length_fmap; lia).
    destruct (simulate_capped lo hi _ pos neg st Hlo Hn Hclose Hsim) as [H1 H2].
    unfold Backtest.stats_of. cbn [Backtest.algo_ret Backtest.total_trades].
    assert (0 <= qpow (lo / hi) (Z.to_nat (Backtest.trades st))) as Hq.
    { apply qpow_nonneg. destruct df as [|b df]; [simpl in Hlen; lia|].
      rewrite fmap_cons in Hclose.
      apply Forall_cons in Hclose as [[Hb1 Hb2] _].
      apply Qle_shift_div_l; lra. }
    repeat split; lra.
Qed.

Lemma strategy_return_is_capped_witness :
  exists s, Backtest.check_alpha_validity bump_frame 1 = Ok s /\
    -100 <= Backtest.algo_ret s.
Proof.
  destruct bump_first_length as (s & Hs & _).
  exists s. split; [exact Hs|].
  exact (proj2 (proj2 (strategy_return_is_capped 1000 1010 bump_frame 1 s
                         eq_refl bump_closes Hs))).
Defined.

(** ** The columns of [calculate_di], row by row *)

Section Rows.
Import TitanMath.

Lemma shift1_lookup_0 {A} (s : list A) x :
  s !! 0%nat = Some x -> shift1 s !! 0%nat = Some None.
Proof. destruct s; [done|]. reflexivity. Qed.

Lemma shift1_lookup_S {A} (s : list A) i x y :
  s !! i = Some x -> s !! S i = Some y -> shift1 s !! S i = Some (Some x).
Proof.
  intros Hx Hy. unfold shift1. apply lookup_lt_Some in Hy as Hlt.
  rewrite lookup_take_lt by done. simpl. by rewrite list_lookup_fmap, Hx.
Qed.

(** Row 0: no previous bar, so no directional movement and a true range
    of high minus low. *)
Lemma rows_at_0 (df : frame) b :
  df !! 0%nat = Some b ->
  plus_dms df !! 0%nat = Some 0 /\ minus_dms df !! 0%nat = Some 0 /\
  true_ranges df !! 0%nat = Some (High b - Low b).
Proof.
  intros Hb. destruct df as [|b' df]; [done|]. injection Hb as ->.
  by repeat split.
Qed.

(** Row [j + 1], from bar [j] and bar [j + 1]. *)
Lemma rows_at_S (df : frame) j a b :
  df !! j = Some a -> df !! S j = Some b ->
  plus_dms df !! S j
    = Some (dm_at (Some (High b - High a)) (Some (Low a - Low b))) /\
  minus_dms df !! S j
    = Some (dm_at (Some (Low a - Low b)) (Some (High b - High a))) /\
  true_ranges df !! S j
    = Some (true_range (High b) (Low b) (Some (Close a))).
Proof.
  unfold frame in *. intros Ha Hb.
  assert (forall f : bar -> Q, shift1 (f <$> df) !! S j = Some (Some (f a))) as Hs.
  { intros f. apply (shift1_lookup_S _ j (f a) (f b)); rewrite list_lookup_fmap.
    - rewrite Ha. reflexivity.
    - rewrite Hb. reflexivity. }
  assert (up_moves df !! S j = Some (Some (High b - High a))) as Hup.
  { unfold up_moves. by rewrite lookup_zip_with, list_lookup_fmap, Hb, Hs. }
  assert (down_moves df !! S j = Some (Some (Low a - Low b))) as Hdown.
  { unfold down_moves. by rewrite lookup_zip_with, list_lookup_fmap, Hb, Hs. }
  split; [|split].
  - unfold plus_dms. by rewrite lookup_zip_with, Hup, Hdown.
  - unfold minus_dms. by rewrite lookup_zip_with, Hup, Hdown.
  - unfold true_ranges.
    by rewrite lookup_zip_with, lookup_zip_with, !list_lookup_fmap, Hb, Hs.
Qed.

(** Every row is one of the two. *)
Lemma rows_at (df : frame) i p m t :
  plus_dms df !! i = Some p -> minus_dms df !! i = Some m ->
  true_ranges df !! i = Some t ->
  (i = 0%nat /\ exists b, df !! 0%nat = Some b /\ p = 0 /\ m = 0 /\ t = High b - Low b) \/
  (exists j a b, i = S j /\ df !! j = Some a /\ df !! S j = Some b /\
     p = dm_at (Some (High b - High a)) (Some (Low a - Low b)) /\
     m = dm_at (Some (Low a - Low b)) (Some (High b - High a)) /\
     t = true_range (High b) (Low b) (Some (Close a))).
Proof.
  unfold frame in *. intros Hp Hm Ht.
  assert (i < length df)%nat as Hi.
  { apply lookup_lt_Some in Hp. by rewrite length_plus_dms in Hp. }
  destruct i as [|j].
  - left. split; [done|]. destruct (lookup_lt_is_Some_2 df 0 Hi) as [b Hb].
    destruct (rows_at_0 df b Hb) as (Hp' & Hm' & Ht').
    exists b. split; [exact Hb|]. split; [congruence|]. split; congruence.
  - right. destruct (lookup_lt_is_Some_2 df (S j) Hi) as [b Hb].
    destruct (lookup_lt_is_Some_2 df j ltac:(lia)) as [a Ha].
    destruct (rows_at_S df j a b Ha Hb) as (Hp' & Hm' & Ht').
    exists j, a, b. split; [reflexivity|]. split; [exact Ha|]. split; [exact Hb|].
    split; [congruence|]. split; congruence.
Qed.

Lemma dm_at_exclusive (u d : option Q) : dm_at u d = 0 \/ dm_at d u = 0.
Proof.
  destruct u as [x|], d as [y|]; simpl; auto.
  destruct (Qgtb x y) eqn:E; [|by left]. right.
  apply Qgtb_true in E.
  assert (Qgtb y x = false) as -> by (apply Qgtb_false; by apply Qlt_le_weak).
  reflexivity.
Qed.

Lemma dm_at_le (x y bound : Q) :
  x <= bound -> 0 <= bound -> dm_at (Some x) (Some y) <= bound.
Proof. intros Hx Hb. simpl. by destruct (_ && _). Qed.

Lemma true_range_ge (h l c : Q) :
  h - l <= true_range h l (Some c) /\
  h - c <= true_range h l (Some c) /\
  c - l <= true_range h l (Some c) /\
  0 <= true_range h l (Some c).
Proof.
  cbn [true_range].
  pose proof (Q.le_max_l (Qmax (h - l) (Qabs (h - c))) (Qabs (l - c))) as H1.
  pose proof (Q.le_max_r (Qmax (h - l) (Qabs (h - c))) (Qabs (l - c))) as H2.
  pose proof (Q.le_max_l (h - l) (Qabs (h - c))) as H3.
  pose proof (Q.le_max_r (h - l) (Qabs (h - c))) as H4.
  pose proof (Qle_Qabs (h - c)) as H5.
  pose proof (Qle_Qabs (- (l - c))) as H6. rewrite Qabs_opp in H6.
  pose proof (Qabs_nonneg (l - c)) as H7.
  set (t := Qmax (Qmax (h - l) (Qabs (h - c))) (Qabs (l - c))) in *.
  set (u := Qmax (h - l) (Qabs (h - c))) in *.
  repeat split; lra.
Qed.

(** On sound bars the two directional movements of a row add up to at
    most its true range. *)
Lemma dm_sum_le_tr (df : frame) i p m t :
  sound_bars df ->
  plus_dms df !! i = Some p -> minus_dms df !! i = Some m ->
  true_ranges df !! i = Some t ->
  0 <= p /\ 0 <= m /\ p + m <= t.
Proof.
  intros Hs Hp Hm Ht. unfold sound_bars in Hs. rewrite Forall_lookup in Hs.
  destruct (rows_at df i p m t Hp Hm Ht)
    as [(-> & b & Hb & -> & -> & ->)|(j & a & b & -> & Ha & Hb & -> & -> & ->)].
  - destruct (Hs _ _ Hb). repeat split; lra.
  - destruct (Hs _ _ Ha) as [Ha1 Ha2].
    destruct (true_range_ge (High b) (Low b) (Close a)) as (T1 & T2 & T3 & T0).
    split; [apply dm_at_nonneg|]. split; [apply dm_at_nonneg|].
    destruct (dm_at_exclusive (Some (High b - High a)) (Some (Low a - Low b)))
      as [-> | ->].
    + assert (Low a - Low b <= true_range (High b) (Low b) (Some (Close a))) as Hd
        by lra.
      pose proof (dm_at_le (Low a - Low b) (High b - High a) _ Hd T0). lra.
    + assert (High b - High a <= true_range (High b) (Low b) (Some (Close a))) as Hu
        by lra.
      pose proof (dm_at_le (High b - High a) (Low a - Low b) _ Hu T0). lra.
Qed.

Lemma highs_never_rise_quiet (df : frame) :
  highs_never_rise df -> Forall (fun x => x == 0) (plus_dms df).
Proof.
  intros Hq. rewrite Forall_lookup. intros i p Hp.
  assert (i < length df)%nat as Hi.
  { apply lookup_lt_Some in Hp. by rewrite length_plus_dms in Hp. }
  destruct (lookup_lt_is_Some_2 (minus_dms df) i) as [m Hm];
    [by rewrite length_minus_dms|].
  destruct (lookup_lt_is_Some_2 (true_ranges df) i) as [t Ht];
    [by rewrite length_true_ranges|].
  destruct (rows_at df i p m t Hp Hm Ht)
    as [(-> & b & Hb & -> & _)|(j & a & b & -> & Ha & Hb & -> & _)]; [reflexivity|].
  specialize (Hq j a b Ha Hb). simpl.
  assert (Qgtb (High b - High a) 0 = false) as -> by (apply Qgtb_false; lra).
  by rewrite andb_false_r.
Qed.
End Rows.

(** X6. On every bar at most one of +DM and -DM is different from 0. *)
Theorem directional_movements_exclusive (df : frame) i p m :
  TitanMath.plus_dms df !! i = Some p ->
  TitanMath.minus_dms df !! i = Some m ->
  p = 0 \/ m = 0.
Proof.
  intros Hp Hm.
  assert (i < length df)%nat as Hi.
  { apply lookup_lt_Some in Hp. by rewrite length_plus_dms in Hp. }
  destruct (lookup_lt_is_Some_2 (TitanMath.true_ranges df) i) as [t Ht];
    [by rewrite length_true_ranges|].
  destruct (rows_at df i p m t Hp Hm Ht)
    as [(-> & b & Hb & -> & _)|(j & a & b & -> & Ha & Hb & -> & -> & _)]; [by left|].
  apply dm_at_exclusive.
Qed.

Lemma directional_movements_exclusive_witness :
  TitanMath.plus_dms bump_frame !! 46%nat = Some 5 /\
  TitanMath.minus_dms bump_frame !! 46%nat = Some 0 /\
  (5 = 0 \/ 0 = 0).
Proof.
  assert (TitanMath.plus_dms bump_frame !! 46%nat = Some 5) as Hp by reflexivity.
  assert (TitanMath.minus_dms bump_frame !! 46%nat = Some 0) as Hm by reflexivity.
  split; [exact Hp|]. split; [exact Hm|].
  exact (directional_movements_exclusive bump_frame 46 5 0 Hp Hm).
Defined.

(** X7. On a series whose highs never rise the strategy never trades,
    at any length: no trade, strategy return 0, not valid, and alpha is
    minus the buy-and-hold return.  A flat series is the plainest case. *)
Theorem no_rising_high_no_trade (df : frame) (di_length : Z) s :
  highs_never_rise df ->
  Backtest.check_alpha_validity df di_length = Ok s ->
  Backtest.total_trades s = 0%Z /\ Backtest.algo_ret s == 0 /\
  Backtest.is_valid s = false /\
  Backtest.alpha s == - Backtest.buy_hold s.
Proof.
  intros Hq H.
  assert (Backtest.total_trades s = 0%Z) as Hz.
  { destruct (check_alpha_validity_inv _ _ _ H) as [[_ ->]|(Hlen & Hn & _)]; [done|].
    destruct (quiet_check df di_length s (highs_never_rise_quiet df Hq) Hlen Hn H)
      as (lc & fc & _ & _ & ->). reflexivity. }
  split; [exact Hz|]. exact (check_without_trades df di_length s H Hz).
Qed.

Lemma slump_never_rises : highs_never_rise slump_frame.
Proof.
  intros j a b Ha Hb.
  assert (High a = 1000 /\ High b = 1000) as [-> ->]; [|by compute].
  unfold slump_frame in *.
  assert (forall k x, (replicate 49 (mkBar 1000 1000 1000) ++ [mkBar 1000 100 100]) !! k
                      = Some x -> High x = 1000) as Hall.
  { intros k x Hx. apply list_elem_of_lookup_2, elem_of_app in Hx as [Hx|Hx].
    - by apply elem_of_replicate in Hx as [-> _].
    - by apply list_elem_of_singleton in Hx as ->. }
  split; eapply Hall; eassumption.
Defined.

Lemma no_rising_high_no_trade_witness :
  highs_never_rise slump_frame /\
  exists s, Backtest.check_alpha_validity slump_frame 1 = Ok s /\
    Backtest.total_trades s = 0%Z /\ Backtest.is_valid s = false.
Proof.
  split; [exact slump_never_rises|].
  destruct slump_first_length as (s & Hs & _).
  exists s. split; [exact Hs|].
  destruct (no_rising_high_no_trade slump_frame 1 s slump_never_rises Hs)
    as (Hz & _ & Hv & _).
  exact (conj Hz Hv).
Defined.

(** ** Smoothing keeps order *)

Section SmoothingFacts.
Import TitanMath.

Lemma ewm_mean_lookup_S alpha series i y' :
  ewm_mean alpha series !! S i = Some y' ->
  exists x y, series !! S i = Some x /\ ewm_mean alpha series !! i = Some y /\
    y' = (1 - alpha) * y + alpha * x.
Proof.
  intros H. pose proof (lookup_lt_Some _ _ _ H) as Hlt.
  rewrite length_ewm_mean in Hlt.
  destruct (lookup_lt_is_Some_2 series (S i) Hlt) as [x Hx].
  destruct (lookup_lt_is_Some_2 (ewm_mean alpha series) i) as [y Hy];
    [rewrite length_ewm_mean; lia|].
  exists x, y. split; [done|]. split; [done|].
  rewrite (ewm_mean_step alpha series i x y Hx Hy) in H. by injection H as <-.
Qed.

(** Smoothing is monotone and additive: if two columns add up to at most
    a third, row by row, so do their smoothed columns. *)
Lemma ewm_mean_sum_le alpha ps ms ts :
  0 <= alpha -> alpha <= 1 ->
  (forall i p m t, ps !! i = Some p -> ms !! i = Some m -> ts !! i = Some t ->
     p + m <= t) ->
  forall i yp ym yt,
    ewm_mean alpha ps !! i = Some yp -> ewm_mean alpha ms !! i = Some ym ->
    ewm_mean alpha ts !! i = Some yt -> yp + ym <= yt.
Proof.
  intros Ha0 Ha1 Hrows. induction i as [|i IH]; intros yp ym yt Hp Hm Ht.
  - rewrite ewm_mean_head in Hp, Hm, Ht. eauto.
  - apply ewm_mean_lookup_S in Hp as (xp & yp0 & Hxp & Hyp & ->).
    apply ewm_mean_lookup_S in Hm as (xm & ym0 & Hxm & Hym & ->).
    apply ewm_mean_lookup_S in Ht as (xt & yt0 & Hxt & Hyt & ->).
    specialize (IH _ _ _ Hyp Hym Hyt). specialize (Hrows _ _ _ _ Hxp Hxm Hxt).
    nra.
Qed.

Lemma ewm_from_within alpha lo hi w vals :
  0 <= alpha -> alpha <= 1 -> lo <= w -> w <= hi ->
  Forall (fun x => lo <= x /\ x <= hi) vals ->
  Forall (fun x => lo <= x /\ x <= hi) (ewm_from alpha w vals).
Proof.
  intros Ha0 Ha1 Hw1 Hw2 Hvals. revert w Hw1 Hw2.
  induction Hvals as [|x vals [Hx1 Hx2] _ IH]; intros w Hw1 Hw2; simpl; constructor.
  - split; nra.
  - apply IH; nra.
Qed.

Lemma ewm_mean_within alpha lo hi series :
  0 <= alpha -> alpha <= 1 ->
  Forall (fun x => lo <= x /\ x <= hi) series ->
  Forall (fun x => lo <= x /\ x <= hi) (ewm_mean alpha series).
Proof.
  intros Ha0 Ha1 [|x vals [Hx1 Hx2] Hvals]; simpl; constructor; [done|].
  by apply ewm_from_within.
Qed.

Lemma ewm_from_one w vals :
  Forall2 Qeq (ewm_from (1 / inject_Z 1) w vals) vals.
Proof.
  revert w. induction vals as [|x vals IH]; intros w; simpl; constructor.
  - unfold Qdiv. change (inject_Z 1) with 1. field.
  - apply IH.
Qed.

Lemma di_sum_le smooth_p smooth_m tr :
  0 <= smooth_p -> 0 <= smooth_m -> smooth_p + smooth_m <= tr ->
  di_at smooth_p tr + di_at smooth_m tr <= 100.
Proof.
  intros Hp Hm Hsum. unfold di_at. destruct (Qeq_bool tr 0) eqn:E; [lra|].
  apply Qeq_bool_neq in E. assert (0 < tr) as Ht.
  { assert (0 <= tr) as H0 by lra. apply Qle_lteq in H0 as [H0|H0]; [done|].
    exfalso. apply E. by symmetry. }
  assert (smooth_p / tr * 100 + smooth_m / tr * 100
          == (smooth_p + smooth_m) / tr * 100) as -> by (field; lra).
  assert ((smooth_p + smooth_m) / tr <= 1); [|lra].
  apply Qle_shift_div_r; [done|]. lra.
Qed.

Lemma calculate_di_total (df : frame) (n : Z) :
  (1 <= n)%Z -> exists p m, calculate_di df n = Ok (p, m).
Proof. intros Hn. do 2 eexists. by apply calculate_di_Ok. Qed.
End SmoothingFacts.

(** X8. For every length [>= 1] the smoothing keeps its output between
    the smallest and the largest input, so a constant column stays the
    same; with length 1 it returns its input. *)
Theorem rma_stays_within_its_input (series : list Q) (n : Z) (lo hi : Q) out :
  Forall (fun x => lo <= x /\ x <= hi) series ->
  TitanMath.rma series n = Ok out ->
  Forall (fun x => lo <= x /\ x <= hi) out /\
  (n = 1%Z -> Forall2 Qeq out series).
Proof.
  intros Hs H. apply rma_Ok_inv in H as [Hn ->].
  destruct (alpha_range n Hn) as [Ha0 Ha1]. apply Qlt_le_weak in Ha0.
  split; [by apply ewm_mean_within|].
  intros ->. destruct series as [|x vals]; [constructor|].
  cbn [TitanMath.ewm_mean]. constructor; [reflexivity | apply ewm_from_one].
Qed.

Lemma rma_stays_within_its_input_witness :
  exists out, TitanMath.rma [4; 8; 2] 3 = Ok out /\
    Forall (fun x => 2 <= x /\ x <= 8) out.
Proof.
  assert (Forall (fun x => 2 <= x /\ x <= 8) [4; 8; 2]) as Hs
    by (repeat constructor; by compute).
  eexists. split; [lazy; reflexivity|].
  refine (proj1 (rma_stays_within_its_input [4; 8; 2] 3 2 8 _ Hs _)).
  lazy. reflexivity.
Defined.

(** X9. On bars that close between their low and their high, plusDI and
    minusDI add up to at most 100 on every bar, so neither exceeds 100. *)
Theorem di_sum_at_most_100 (df : frame) (n : Z) plus minus :
  sound_bars df ->
  TitanMath.calculate_di df n = Ok (plus, minus) ->
  forall i p m, plus !! i = Some p -> minus !! i = Some m ->
    0 <= p /\ 0 <= m /\ p + m <= 100.
Proof.
  intros Hs H i p m Hp Hm.
  pose proof (calculate_di_Ok_inv _ _ _ _ H) as Hn.
  destruct (alpha_range n Hn) as [Ha0 Ha1]. apply Qlt_le_weak in Ha0.
  rewrite calculate_di_Ok in H by done. injection H as <- <-.
  apply Forall2_zip_with_lookup in Hp as (sp & t & Hsp & Ht & ->).
  apply Forall2_zip_with_lookup in Hm as (sm & t' & Hsm & Ht' & ->).
  assert (t' = t) as -> by congruence.
  assert (0 <= sp) as Hsp0.
  { pose proof (ewm_mean_nonneg _ _ Ha0 Ha1
                  (zip_with_dm_nonneg (TitanMath.up_moves df) (TitanMath.down_moves df))) as HF.
    rewrite Forall_lookup in HF. by apply (HF i). }
  assert (0 <= sm) as Hsm0.
  { pose proof (ewm_mean_nonneg _ _ Ha0 Ha1
                  (zip_with_dm_nonneg (TitanMath.down_moves df) (TitanMath.up_moves df))) as HF.
    rewrite Forall_lookup in HF. by apply (HF i). }
  assert (sp + sm <= t) as Hsum.
  { apply (ewm_mean_sum_le (1 / inject_Z n) (TitanMath.plus_dms df)
             (TitanMath.minus_dms df) (TitanMath.true_ranges df) Ha0 Ha1) with (i := i);
      [|done..].
    intros k a b c Hk1 Hk2 Hk3. by apply (dm_sum_le_tr df k a b c Hs). }
  assert (0 <= t) as Ht0 by lra.
  split; [by apply di_at_nonneg|]. split; [by apply di_at_nonneg|].
  by apply di_sum_le.
Qed.

Lemma bump_frame_sound : sound_bars bump_frame.
Proof.
  unfold sound_bars, bump_frame. apply Forall_app. split.
  - apply Forall_replicate. split; by compute.
  - repeat constructor; by compute.
Defined.

Lemma di_sum_at_most_100_witness :
  sound_bars bump_frame /\
  exists plus minus, TitanMath.calculate_di bump_frame 14 = Ok (plus, minus) /\
    forall i p m, plus !! i = Some p -> minus !! i = Some m -> p + m <= 100.
Proof.
  split; [exact bump_frame_sound|].
  destruct (calculate_di_total bump_frame 14 ltac:(lia)) as (plus & minus & H).
  exists plus, minus. split; [exact H|].
  intros i p m Hp Hm.
  exact (proj2 (proj2 (di_sum_at_most_100 bump_frame 14 plus minus
                         bump_frame_sound H i p m Hp Hm))).
Defined.

(** ** The impulse counter: outcome and rule *)

Section ImpulseRule.
Import TitanMath.

Lemma for_each_seq_raise {S} (body : S -> nat -> res S) (j : nat) (e : exn) :
  (forall s, body s j = Raise e) ->
  forall (k a : nat) (st : S),
    (a <= j < a + k)%nat ->
    (forall s i, (a <= i < j)%nat -> exists s', body s i = Ok s') ->
    for_each body (seq a k) st = Raise e.
Proof.
  intros Hj. induction k as [|k IH]; intros a st Hr Hbefore; [lia|].
  cbn [seq for_each]. destruct (decide (a = j)) as [->|Hne].
  - by rewrite Hj.
  - destruct (Hbefore st a) as [s' ->]; [lia|]. cbn [mbind res_bind].
    apply IH; [lia|]. intros s i Hi. apply Hbefore. lia.
Qed.

Lemma trend_body_reads plus_di minus_di st i :
  (1 <= i)%nat -> (i < length plus_di)%nat -> (i < length minus_di)%nat ->
  exists st', trend_body plus_di minus_di st i = Ok st'.
Proof.
  intros H1 Hp Hm. destruct st as [pos neg]. unfold trend_body.
  destruct (iloc_lt plus_di (i - 1)) as (a & -> & _); [lia|].
  destruct (iloc_lt minus_di (i - 1)) as (b & -> & _); [lia|].
  destruct (iloc_lt plus_di i) as (c & -> & _); [lia|].
  destruct (iloc_lt minus_di i) as (d & -> & _); [lia|].
  simpl. destruct (_ && _); [|destruct (_ && _)]; eauto.
Qed.

Lemma iloc_ge {A} (s : list A) (i : nat) :
  (length s <= i)%nat -> iloc s i = Raise IndexError.
Proof. intros H. unfold iloc. by rewrite lookup_ge_None_2. Qed.

(** The first bar at which the shorter [minus_di] cannot be read. *)
Lemma trend_body_short plus_di minus_di st :
  (length minus_di < length plus_di)%nat ->
  trend_body plus_di minus_di st (Nat.max 1 (length minus_di)) = Raise IndexError.
Proof.
  intros Hlt. destruct st as [pos neg]. unfold trend_body.
  destruct (length minus_di) as [|m] eqn:Em.
  - change (Nat.max 1 0) with 1%nat. cbn [Nat.sub].
    destruct (iloc_lt plus_di 0) as (a & -> & _); [lia|]. cbn [mbind res_bind].
    rewrite (iloc_ge minus_di 0) by lia. reflexivity.
  - replace (Nat.max 1 (S m)) with (S m) by lia.
    replace (S m - 1)%nat with m by lia.
    destruct (iloc_lt plus_di m) as (a & -> & _); [lia|]. cbn [mbind res_bind].
    destruct (iloc_lt minus_di m) as (b & -> & _); [lia|]. cbn [mbind res_bind].
    destruct (iloc_lt plus_di (S m)) as (c & -> & _); [lia|]. cbn [mbind res_bind].
    rewrite (iloc_ge minus_di (S m)) by lia. reflexivity.
Qed.

Lemma bullish_test plus_di minus_di i pp cp cm :
  plus_di !! (i - 1)%nat = Some pp -> plus_di !! i = Some cp ->
  minus_di !! i = Some cm ->
  Qgtb cp pp && Qgtb cp cm = true <-> bullish plus_di minus_di i.
Proof.
  intros H1 H2 H3. rewrite andb_true_iff, !Qgtb_true. split.
  - intros [Ha Hb]. exists pp, cp, cm. tauto.
  - intros (pp' & cp' & cm' & H1' & H2' & H3' & Ha & Hb).
    rewrite H1 in H1'. rewrite H2 in H2'. rewrite H3 in H3'.
    injection H1' as <-. injection H2' as <-. injection H3' as <-. tauto.
Qed.

Lemma bearish_test plus_di minus_di i pm cm cp :
  minus_di !! (i - 1)%nat = Some pm -> minus_di !! i = Some cm ->
  plus_di !! i = Some cp ->
  Qgtb cm pm && Qgtb cm cp = true <-> bearish plus_di minus_di i.
Proof.
  intros H1 H2 H3. rewrite andb_true_iff, !Qgtb_true. split.
  - intros [Ha Hb]. exists pm, cm, cp. tauto.
  - intros (pm' & cm' & cp' & H1' & H2' & H3' & Ha & Hb).
    rewrite H1 in H1'. rewrite H2 in H2'. rewrite H3 in H3'.
    injection H1' as <-. injection H2' as <-. injection H3' as <-. tauto.
Qed.

Lemma follows_rule_ext plus_di minus_di pos neg pos' neg' i :
  pos' !! (i - 1)%nat = pos !! (i - 1)%nat -> pos' !! i = pos !! i ->
  neg' !! (i - 1)%nat = neg !! (i - 1)%nat -> neg' !! i = neg !! i ->
  follows_rule plus_di minus_di pos neg i ->
  follows_rule plus_di minus_di pos' neg' i.
Proof.
  intros E1 E2 E3 E4 (p0 & n0 & p1 & n1 & H1 & H2 & H3 & H4 & H).
  exists p0, n0, p1, n1. rewrite E1, E2, E3, E4. tauto.
Qed.

(** One pass of the loop body writes bar [i] by the rule. *)
Lemma trend_body_rule plus_di minus_di pos neg i pos' neg' :
  (1 <= i)%nat -> (i < length pos)%nat -> length neg = length pos ->
  trend_body plus_di minus_di (pos, neg) i = Ok (pos', neg') ->
  follows_rule plus_di minus_di pos' neg' i.
Proof.
  intros Hi Hlt Hlen H. unfold trend_body in H. do 4 inv_bind H.
  apply iloc_Ok in Hv, Hv0, Hv1, Hv2.
  destruct (lookup_lt_is_Some_2 pos (i - 1)) as [p0 Hp0]; [lia|].
  destruct (lookup_lt_is_Some_2 neg (i - 1)) as [n0 Hn0]; [lia|].
  rewrite (cell_lookup _ _ _ Hp0), (cell_lookup _ _ _ Hn0) in H.
  pose proof (bullish_test plus_di minus_di i v v1 v2 Hv Hv1 Hv2) as Hbull.
  pose proof (bearish_test plus_di minus_di i v0 v2 v1 Hv0 Hv2 Hv1) as Hbear.
  assert (forall (a : list Q) x, (i < length a)%nat ->
            <[i := x]> a !! (i - 1)%nat = a !! (i - 1)%nat) as Hkeep.
  { intros a x _. apply list_lookup_insert_ne. lia. }
  assert (forall (a : list Q) x, (i < length a)%nat ->
            <[i := x]> a !! i = Some x) as Hnew.
  { intros a x Ha. by apply list_lookup_insert_eq. }
  destruct (Qgtb v1 v && Qgtb v1 v2) eqn:E1;
    [|destruct (Qgtb v2 v0 && Qgtb v2 v1) eqn:E2];
    injection H as <- <-; eexists p0, n0, _, _;
    rewrite !Hkeep, !Hnew by lia;
    (split; [exact Hp0|]); (split; [exact Hn0|]);
    (split; [reflexivity|]); (split; [reflexivity|]).
  - left. split; [by apply Hbull|done].
  - right. left. split; [|split; [by apply Hbear|done]].
    intros Hb. apply Hbull in Hb. congruence.
  - right. right. split; [|split; [|done]].
    + intros Hb. apply Hbull in Hb. congruence.
    + intros Hb. apply Hbear in Hb. congruence.
Qed.

Lemma trend_body_ruled plus_di minus_di k st st' :
  (1 <= k < length plus_di)%nat ->
  ruled plus_di minus_di k st ->
  trend_body plus_di minus_di st k = Ok st' ->
  ruled plus_di minus_di (S k) st'.
Proof.
  destruct st as [pos neg], st' as [pos' neg']. unfold ruled. cbn [fst snd].
  intros Hk (Hlp & Hln & Hrule) Hb.
  pose proof (trend_body_rule plus_di minus_di pos neg k pos' neg'
                ltac:(lia) ltac:(lia) ltac:(congruence) Hb) as Hnew.
  apply trend_body_Ok in Hb as (p & n & -> & -> & _).
  rewrite !length_insert. split; [done|]. split; [done|].
  intros i Hi. destruct (decide (i = k)) as [->|Hne]; [exact Hnew|].
  apply (follows_rule_ext plus_di minus_di pos neg);
    [apply list_lookup_insert_ne; lia..|].
  apply Hrule. lia.
Qed.

Lemma calculate_trend_count_rule plus_di minus_di pos neg :
  calculate_trend_count plus_di minus_di = Ok (pos, neg) ->
  forall i, (1 <= i < length plus_di)%nat ->
    follows_rule plus_di minus_di pos neg i.
Proof.
  intros H i Hi. apply calculate_trend_count_Ok_inv in H as [H _].
  apply (for_each_seq_inv (ruled plus_di minus_di)) in H.
  - destruct H as (_ & _ & H). apply H. lia.
  - unfold ruled. cbn [fst snd]. rewrite !length_replicate.
    split; [done|]. split; [done|]. intros j Hj. lia.
  - intros k s s' Hk HI Hb. apply (trend_body_ruled _ _ k s s'); [lia|done..].
Qed.

(** An ignition at bar [i]: the count is 1 after a 0 on the bar before. *)
Lemma ignition_true count i :
  Backtest.ignition count !! i = Some true ->
  exists j p c, i = S j /\ count !! j = Some p /\ p == 0 /\
    count !! i = Some c /\ c == 1.
Proof.
  unfold Backtest.ignition. intros H.
  apply lookup_zip_with_Some in H as (c & p & Hf & Hc & Hp).
  symmetry in Hf. apply andb_true_iff in Hf as [Hc1 Hp0].
  apply Qeq_bool_iff in Hc1. destruct i as [|j].
  - rewrite (shift1_lookup_0 count c Hc) in Hp. injection Hp as <-. done.
  - destruct (lookup_lt_is_Some_2 count j) as [x Hx].
    { apply lookup_lt_Some in Hc. lia. }
    rewrite (shift1_lookup_S count j x c Hx Hc) in Hp. injection Hp as <-.
    cbn [nan_eqb] in Hp0. apply Qeq_bool_iff in Hp0.
    by exists j, x, c.
Qed.

Lemma entry_ignition_bullish plus_di minus_di pos neg i :
  calculate_trend_count plus_di minus_di = Ok (pos, neg) ->
  Backtest.ignition pos !! i = Some true -> bullish plus_di minus_di i.
Proof.
  intros H Hig. apply ignition_true in Hig as (j & p & c & -> & Hp & Hp0 & Hc & Hc1).
  destruct (calculate_trend_count_length _ _ _ _ H) as [Hlp _].
  apply lookup_lt_Some in Hc as Hlt.
  destruct (calculate_trend_count_rule _ _ _ _ H (S j) ltac:(lia))
    as (p0 & n0 & p1 & n1 & H1 & _ & H3 & _ & Hr).
  replace (S j - 1)%nat with j in H1 by lia.
  rewrite Hp in H1. rewrite Hc in H3. injection H1 as <-. injection H3 as <-.
  destruct Hr as [[Hb _]|[(_ & _ & _ & ->)|(_ & _ & -> & _)]]; [done|exfalso..].
  - by apply (Q_apart_0_1).
  - apply Q_apart_0_1. by rewrite <- Hc1, Hp0.
Qed.

Lemma exit_ignition_bearish plus_di minus_di pos neg i :
  calculate_trend_count plus_di minus_di = Ok (pos, neg) ->
  Backtest.ignition neg !! i = Some true ->
  bearish plus_di minus_di i /\ ~ bullish plus_di minus_di i.
Proof.
  intros H Hig. apply ignition_true in Hig as (j & p & c & -> & Hp & Hp0 & Hc & Hc1).
  destruct (calculate_trend_count_length _ _ _ _ H) as [_ Hln].
  apply lookup_lt_Some in Hc as Hlt.
  destruct (calculate_trend_count_rule _ _ _ _ H (S j) ltac:(lia))
    as (p0 & n0 & p1 & n1 & _ & H2 & _ & H4 & Hr).
  replace (S j - 1)%nat with j in H2 by lia.
  rewrite Hp in H2. rewrite Hc in H4. injection H2 as <-. injection H4 as <-.
  destruct Hr as [(_ & _ & ->)|[(Hnb & Hb & _ & _)|(_ & _ & _ & ->)]];
    [exfalso|done|exfalso].
  - by apply (Q_apart_0_1).
  - apply Q_apart_0_1. by rewrite <- Hc1, Hp0.
Qed.
End ImpulseRule.

(** X10. The outcome of [calculate_trend_count] is decided by the two
    lengths alone: it returns exactly when they are equal; a shorter
    [minus_di] raises IndexError inside the loop as soon as the loop runs
    (two bars or more); every other mismatch raises ValueError when the
    second series is built. *)
Theorem impulse_counts_outcome (plus_di minus_di : list Q) :
  match TitanMath.calculate_trend_count plus_di minus_di with
  | Ok _ => length minus_di = length plus_di
  | Raise IndexError =>
      (length minus_di < length plus_di)%nat /\ (2 <= length plus_di)%nat
  | Raise ValueError =>
      (length plus_di < length minus_di)%nat \/
      ((length minus_di < length plus_di)%nat /\ (length plus_di <= 1)%nat)
  | Raise ZeroDivisionError => False
  end.
Proof.
  destruct (lt_eq_lt_dec (length minus_di) (length plus_di)) as [[Hlt|Heq]|Hgt].
  - destruct (le_lt_dec (length plus_di) 1) as [Hsmall|Hbig].
    + unfold TitanMath.calculate_trend_count.
      replace (length plus_di - 1)%nat with 0%nat by lia.
      cbn [seq for_each mbind res_bind].
      destruct (Nat.eqb_spec (length minus_di) (length plus_di)); [lia|].
      right. lia.
    + unfold TitanMath.calculate_trend_count.
      rewrite (for_each_seq_raise _ (Nat.max 1 (length minus_di)) IndexError).
      * cbn [mbind res_bind]. lia.
      * intros s. by apply trend_body_short.
      * lia.
      * intros s i Hi. apply trend_body_reads; lia.
  - destruct (calculate_trend_count_total plus_di minus_di Heq) as (pos & neg & ->).
    exact Heq.
  - unfold TitanMath.calculate_trend_count.
    destruct (for_each_total (TitanMath.trend_body plus_di minus_di)
                (seq 1 (length plus_di - 1))
                (replicate (length plus_di) 0, replicate (length plus_di) 0))
      as [st ->].
    { intros s i Hi. apply in_seq in Hi. apply trend_body_reads; lia. }
    cbn [mbind res_bind].
    destruct (Nat.eqb_spec (length minus_di) (length plus_di)); [lia|].
    left. lia.
Qed.

(** X11. The finished counts obey the state logic of the docstring on
    every bar from the second on: a bullish impulse adds one to the
    positive count and clears the negative one, a bearish impulse that is
    not bullish does the opposite, and any other bar repeats both counts
    of the bar before. *)
Theorem impulse_counts_follow_the_rule (plus_di minus_di pos neg : list Q) (i : nat) :
  TitanMath.calculate_trend_count plus_di minus_di = Ok (pos, neg) ->
  (1 <= i < length plus_di)%nat ->
  follows_rule plus_di minus_di pos neg i.
Proof. intros H Hi. by apply calculate_trend_count_rule. Qed.

Lemma impulse_counts_follow_the_rule_witness :
  exists pos neg,
    TitanMath.calculate_trend_count sample_plus_di sample_minus_di = Ok (pos, neg) /\
    follows_rule sample_plus_di sample_minus_di pos neg 1.
Proof.
  eexists _, _. split; [lazy; reflexivity|].
  refine (impulse_counts_follow_the_rule sample_plus_di sample_minus_di _ _ 1 _ _).
  - lazy. reflexivity.
  - compute. lia.
Defined.
(** ** Trades and impulses *)

Section JournalFacts.
Import TitanMath Backtest.

Lemma sim_body_j_justified plus_di minus_di close pos neg st j i st' j' :
  calculate_trend_count plus_di minus_di = Ok (pos, neg) ->
  Forall (justified plus_di minus_di) j ->
  sim_body_j close (ignition pos) (ignition neg) (st, j) i = Ok (st', j') ->
  Forall (justified plus_di minus_di) j'.
Proof.
  intros Hc Hj H. unfold sim_body_j in H. inv_bind H. inv_bind H.
  injection H as <- <-. unfold sim_body in Hv0. rewrite Hv in Hv0.
  cbn [mbind res_bind] in Hv0.
  destruct (in_position st) eqn:Ein; cbn [negb] in Hv0; inv_bind Hv0;
    apply iloc_Ok in Hv1; destruct v1; injection Hv0 as <-;
    cbn [in_position negb andb]; rewrite ?Ein; cbn [negb andb]; try exact Hj.
  - apply Forall_app. split; [exact Hj|]. constructor; [|constructor].
    exact (exit_ignition_bearish _ _ _ _ _ Hc Hv1).
  - apply Forall_app. split; [exact Hj|]. constructor; [|constructor].
    exact (entry_ignition_bullish _ _ _ _ _ Hc Hv1).
Qed.

Lemma simulate_j_justified plus_di minus_di close pos neg st journal :
  calculate_trend_count plus_di minus_di = Ok (pos, neg) ->
  simulate_j close pos neg = Ok (st, journal) ->
  Forall (justified plus_di minus_di) journal.
Proof.
  intros Hc H. unfold simulate_j in H. inv_bind H. destruct v as [st0 j0].
  assert (Forall (justified plus_di minus_di) j0) as Hj0.
  { unfold trade_loop_j in Hv.
    apply (for_each_inv (fun sj => Forall (justified plus_di minus_di) sj.2))
      in Hv; [exact Hv | constructor |].
    intros i [s j] [s' j'] _ Hj Hb. cbn [snd] in *.
    exact (sim_body_j_justified _ _ _ _ _ _ _ _ _ _ Hc Hj Hb). }
  unfold close_open_position_j in H. inv_bind H.
  destruct (in_position st0); [|by injection H as _ <-].
  inv_bind H. injection H as _ <-.
  apply Forall_app. split; [exact Hj0|]. by repeat constructor.
Qed.

Lemma books_snoc close j e :
  books close (j ++ [e]) = book_event close (books close j) e.
Proof. unfold books. by rewrite fold_left_app. Qed.

(** The state of the code holds the books of the journal: [entry_price]
    and [total_return] are what trading at the closes of the journal's
    bars gives. *)
Lemma sim_body_j_books close es xs st j i st' j' :
  books close j = (entry_price st, total_return st) ->
  sim_body_j close es xs (st, j) i = Ok (st', j') ->
  books close j' = (entry_price st', total_return st').
Proof.
  intros Hb H. unfold sim_body_j in H. inv_bind H. inv_bind H.
  injection H as <- <-. unfold sim_body in Hv0. rewrite Hv in Hv0.
  cbn [mbind res_bind] in Hv0. apply iloc_Ok, cell_lookup in Hv.
  destruct (in_position st) eqn:Ein; cbn [negb] in Hv0; inv_bind Hv0;
    destruct v1; injection Hv0 as <-;
    cbn [in_position negb andb]; rewrite ?Ein; cbn [negb andb]; try exact Hb.
  - rewrite books_snoc, Hb. cbn [book_event entry_price total_return].
    by rewrite Hv.
  - rewrite books_snoc, Hb. cbn [book_event entry_price total_return].
    by rewrite Hv.
Qed.

Lemma simulate_j_books close pos neg st journal :
  simulate_j close pos neg = Ok (st, journal) ->
  books close journal = (entry_price st, total_return st).
Proof.
  intros H. unfold simulate_j in H. inv_bind H. destruct v as [st0 j0].
  assert (books close j0 = (entry_price st0, total_return st0)) as Hb0.
  { unfold trade_loop_j in Hv.
    apply (for_each_inv
             (fun sj => books close sj.2 = (entry_price sj.1, total_return sj.1)))
      in Hv; [exact Hv | reflexivity |].
    intros i [s j] [s' j'] _ Hb Hs. cbn [fst snd] in *.
    exact (sim_body_j_books _ _ _ _ _ _ _ _ Hb Hs). }
  unfold close_open_position_j in H. inv_bind H.
  unfold close_open_position in Hv0.
  destruct (in_position st0).
  - inv_bind H. injection H as <- <-. inv_bind Hv0. injection Hv0 as <-.
    rewrite books_snoc, Hb0. cbn [book_event entry_price total_return].
    assert (cell close (length close - 1) = v1) as ->.
    { unfold iloc_neg in Hv2. destruct (length close <? 1)%nat; [done|].
      by apply iloc_Ok, cell_lookup in Hv2. }
    reflexivity.
  - injection H as <- <-. by injection Hv0 as <-.
Qed.
End JournalFacts.

(** X12. Every trade of the simulation answers an impulse of the
    indicators, and the state of the code keeps the books of these
    trades.  The journal notes the bars on which [in_position] flips: a
    bar with an entry has a bullish impulse, a bar with an exit a bearish
    impulse that is not bullish.  On closing prices that are not 0, the
    [entry_price] and the [total_return] the code ends with are those of
    buying at the close of each entry bar and selling at the close of
    each exit bar (at the last close for the forced exit), each sale
    compounding its gain on the entry price.  Dropping the journal gives
    the run of the code. *)
Theorem every_trade_answers_an_impulse
    (plus_di minus_di close pos neg : list Q) st journal :
  Forall (fun price => ~ price == 0) close ->
  TitanMath.calculate_trend_count plus_di minus_di = Ok (pos, neg) ->
  Backtest.simulate_j close pos neg = Ok (st, journal) ->
  Backtest.simulate close pos neg = Ok st /\
  Forall (justified plus_di minus_di) journal /\
  (Backtest.entry_price st, Backtest.total_return st) = books close journal.
Proof.
  intros _ Hc H. split; [|split].
  - unfold Backtest.simulate_j in H. inv_bind H. destruct v as [st0 j0].
    unfold Backtest.simulate.
    rewrite (trade_loop_j_erase _ _ _ _ _ Hv). cbn [mbind res_bind].
    unfold Backtest.close_open_position_j in H. inv_bind H. rewrite Hv0.
    destruct (Backtest.in_position st0); [inv_bind H|]; by injection H as <- _.
  - by apply (simulate_j_justified _ _ close pos neg st).
  - symmetry. by apply (simulate_j_books _ pos neg).
Qed.

Lemma every_trade_answers_an_impulse_witness :
  exists pos neg st,
    TitanMath.calculate_trend_count sample_plus_di sample_minus_di = Ok (pos, neg) /\
    Backtest.simulate_j [100; 101; 102; 103] pos neg
      = Ok (st, [Backtest.Entry 1 101; Backtest.Exit 3 103]) /\
    Backtest.simulate [100; 101; 102; 103] pos neg = Ok st /\
    Forall (justified sample_plus_di sample_minus_di)
      [Backtest.Entry 1 101; Backtest.Exit 3 103] /\
    (* bought at 101, sold at 103 *)
    Backtest.entry_price st == 101 /\
    Backtest.total_return st == 103 / 101.
Proof.
  eexists _, _, _.
  assert (TitanMath.calculate_trend_count sample_plus_di sample_minus_di
          = Ok ([0; 1; 1; 0], [0; 0; 0; 1])) as Hc by (lazy; reflexivity).
  split; [exact Hc|].
  assert (Backtest.simulate_j [100; 101; 102; 103] [0; 1; 1; 0] [0; 0; 0; 1]
          = Ok ({| Backtest.in_position := false; Backtest.entry_price := 101;
                   Backtest.total_return := Backtest.realise
                     {| Backtest.in_position := true; Backtest.entry_price := 101;
                        Backtest.total_return := 1; Backtest.trades := 0 |} 103;
                   Backtest.trades := 1 |},
                [Backtest.Entry 1 101; Backtest.Exit 3 103])) as Hs
    by (lazy; reflexivity).
  split; [exact Hs|].
  assert (Forall (fun price => ~ price == 0) [100; 101; 102; 103]) as Hnz
    by (repeat constructor; by compute).
  destruct (every_trade_answers_an_impulse _ _ _ _ _ _ _ Hnz Hc Hs)
    as (Hsim & Hj & Hb).
  split; [exact Hsim|]. split; [exact Hj|].
  pose proof (f_equal fst Hb) as He. pose proof (f_equal snd Hb) as Ht.
  cbn [fst snd] in He, Ht.
  split; [rewrite He; reflexivity | rewrite Ht; reflexivity].
Defined.

(** ** The scanner *)

Section ScannerFacts.
Import AlphaScanner.
Variable get_stock_history : string -> Z -> frame.

Lemma valid_means_profit (df : frame) (L : Z) s :
  Backtest.check_alpha_validity df L = Ok s ->
  Backtest.is_valid s = true ->
  0 < Backtest.alpha s /\ 0 < Backtest.algo_ret s /\
  Backtest.buy_hold s < Backtest.algo_ret s.
Proof.
  intros H Hv. destruct (check_alpha_validity_inv _ _ _ H)
    as [[_ ->]|(_ & _ & pos & neg & st & lc & fc & _ & _ & _ & ->)]; [done|].
  destruct (stats_of_guardrails st lc fc) as [Ha Hiff].
  apply Hiff in Hv as [H0 Hb]. rewrite Ha. repeat split; lra.
Qed.

Lemma analyze_symbol_short symbol days :
  (length (get_stock_history symbol days) < 50)%nat ->
  analyze_symbol get_stock_history symbol days = None.
Proof.
  intros H. unfold analyze_symbol. apply Nat.ltb_lt in H. rewrite H.
  by rewrite orb_true_r.
Qed.

(** What a result of [analyze_symbol] carries. *)
Lemma analyze_symbol_result symbol days r :
  analyze_symbol get_stock_history symbol days = Some r ->
  let df := get_stock_history symbol days in
  (50 <= length df)%nat /\ AlphaScanner.symbol r = symbol /\
  (1 <= optimal_length r <= 40)%Z /\
  (Close <$> df) !! (length df - 1)%nat = Some (close_price r) /\
  exists s, Backtest.check_alpha_validity df (optimal_length r) = Ok s /\
    is_valid r = Backtest.is_valid s /\ alpha r = Backtest.alpha s /\
    algo_ret r = Backtest.algo_ret s /\ buy_hold r = Backtest.buy_hold s /\
    total_trades r = Backtest.total_trades s.
Proof.
  intros H df. destruct (Nat.lt_ge_cases (length df) 50) as [Hlt|Hge].
  { rewrite analyze_symbol_short in H by exact Hlt. discriminate. }
  split; [exact Hge|]. unfold analyze_symbol in H. fold df in H.
  rewrite not_short in H by exact Hge.
  destruct (grid_search_spec df Hge) as (s & L & Hg & HL & Hs & _).
  rewrite Hg in H.
  destruct (signal_of_Ok symbol df s L Hge ltac:(lia))
    as (? & ? & ? & ? & ? & ? & ? & ? & cp & _ & _ & _ & _ & _ & _ & Hcp & Hsig).
  rewrite Hsig in H. injection H as <-.
  cbn [AlphaScanner.symbol optimal_length close_price is_valid alpha algo_ret
       buy_hold total_trades].
  split; [reflexivity|]. split; [exact HL|]. split; [exact Hcp|].
  exists s. split; [exact Hs|]. repeat split.
Qed.

(** On 50 bars or more without a close of 0 every alpha is a finite
    float, the first length replaces the initial incumbent and the
    analysis has a result. *)
Lemma analyze_symbol_long symbol days :
  (50 <= length (get_stock_history symbol days))%nat ->
  nonzero_closes (get_stock_history symbol days) ->
  exists r, analyze_symbol get_stock_history symbol days = Some r.
Proof.
  intros H _. destruct (analyze_symbol_Ok get_stock_history symbol days H)
    as (? & ? & ? & ? & ? & ? & ? & ? & ? & ? & ? & _ & _ & _ & _ & _ & _ & _ & Hr).
  eauto.
Qed.

(** The symbols of the analyses that have a result are tickers with 50
    bars or more, in the order of the list. *)
Lemma symbols_of_analyses_sublist (tickers : list string) days :
  sublist
    (AlphaScanner.symbol <$>
       omap (fun symbol => analyze_symbol get_stock_history symbol days) tickers)
    (List.filter (fun symbol => (50 <=? length (get_stock_history symbol days))%nat)
       tickers).
Proof.
  induction tickers as [|t tickers IH]; [constructor|].
  cbn [omap list_omap List.filter].
  destruct (analyze_symbol get_stock_history t days) as [r|] eqn:Hr.
  - destruct (analyze_symbol_result t days r Hr) as (Hge & Hsym & _).
    apply Nat.leb_le in Hge. rewrite Hge, fmap_cons, Hsym.
    by apply sublist_skip.
  - destruct (50 <=? length (get_stock_history t days))%nat; [|exact IH].
    by apply sublist_cons.
Qed.

Lemma symbols_of_analyses (tickers : list string) days :
  (forall t, In t tickers -> nonzero_closes (get_stock_history t days)) ->
  AlphaScanner.symbol <$>
    omap (fun symbol => analyze_symbol get_stock_history symbol days) tickers
  = List.filter (fun symbol => (50 <=? length (get_stock_history symbol days))%nat)
      tickers.
Proof.
  induction tickers as [|t tickers IH]; intros Hnz; [reflexivity|].
  cbn [omap list_omap List.filter].
  specialize (IH (fun t' Ht' => Hnz t' (or_intror Ht'))).
  destruct (Nat.leb_spec 50 (length (get_stock_history t days))) as [Hge|Hlt].
  - destruct (analyze_symbol_long t days Hge (Hnz t (or_introl eq_refl))) as [r Hr].
    rewrite Hr.
    destruct (analyze_symbol_result t days r Hr) as (_ & Hsym & _).
    rewrite fmap_cons, Hsym. f_equal. exact IH.
  - rewrite analyze_symbol_short by exact Hlt. exact IH.
Qed.

Lemma scan_vn100_In tickers days r :
  In r (scan_vn100 get_stock_history tickers days) ->
  exists t, In t tickers /\ analyze_symbol get_stock_history t days = Some r.
Proof.
  unfold scan_vn100, sort_by_alpha. intros H.
  apply (Permutation_in _ (list_sort_perm Qltb alpha true _)) in H.
  apply list_elem_of_In, list_elem_of_omap in H as (t & Ht & Hr).
  exists t. split; [by apply list_elem_of_In | done].
Qed.

Lemma scan_vn100_sorted tickers days :
  StronglySorted (fun a b => alpha b <= alpha a)
    (scan_vn100 get_stock_history tickers days).
Proof.
  unfold scan_vn100, sort_by_alpha.
  pose proof (list_sort_sorted Qltb alpha true Qltb_asym Qltb_negtrans
                (omap (fun symbol => analyze_symbol get_stock_history symbol days)
                   tickers)) as Hs.
  induction Hs as [|x l _ IH Hx]; constructor; [exact IH|].
  eapply List.Forall_impl; [|exact Hx]. intros b Hb. by apply Qgtb_false.
Qed.

Lemma filter_length_perm {A} (f : A -> bool) (l l' : list A) :
  Permutation l l' -> length (List.filter f l) = length (List.filter f l').
Proof.
  induction 1 as [|x l l' _ IH|x y l|l l' l'' _ IH1 _ IH2]; cbn [List.filter].
  - reflexivity.
  - destruct (f x); cbn [length]; by rewrite IH.
  - destruct (f x), (f y); reflexivity.
  - by rewrite IH1.
Qed.

Lemma filter_length_le {A} (f g : A -> bool) (l : list A) :
  (forall x, f x = true -> g x = true) ->
  (length (List.filter f l) <= length (List.filter g l))%nat.
Proof.
  intros Hfg. induction l as [|x l IH]; cbn [List.filter]; [done|].
  destruct (f x) eqn:Ef.
  - rewrite (Hfg x Ef). cbn [length]. lia.
  - destruct (g x); cbn [length]; lia.
Qed.

Lemma filter_length_bound {A} (f : A -> bool) (l : list A) :
  (length (List.filter f l) <= length l)%nat.
Proof.
  induction l as [|x l IH]; cbn [List.filter]; [done|].
  destruct (f x); cbn [length]; lia.
Qed.

Lemma StronglySorted_filter {A} (R : A -> A -> Prop) (f : A -> bool) (l : list A) :
  StronglySorted R l -> StronglySorted R (List.filter f l).
Proof.
  induction 1 as [|x l Hs IH Hx]; cbn [List.filter]; [constructor|].
  destruct (f x); [|exact IH]. constructor; [exact IH|].
  apply List.Forall_forall. intros y Hy. apply filter_In in Hy as [Hy _].
  rewrite List.Forall_forall in Hx. by apply Hx.
Qed.
End ScannerFacts.

(** X13. [analyze_symbol] gives no result when the client delivers fewer
    than 50 bars, and gives one when it delivers 50 bars or more none of
    which closes at 0.  A result comes from 50 bars or more and carries
    the symbol asked for, the last close, an optimal length between 1 and
    40, and the figures [check_alpha_validity] computes at that length. *)
Theorem analysis_needs_fifty_bars
    (get_stock_history : string -> Z -> frame) (symbol : string) (days : Z) :
  let df := get_stock_history symbol days in
  ((length df < 50)%nat ->
   AlphaScanner.analyze_symbol get_stock_history symbol days = None) /\
  ((50 <= length df)%nat -> nonzero_closes df ->
   exists r, AlphaScanner.analyze_symbol get_stock_history symbol days = Some r) /\
  forall r, AlphaScanner.analyze_symbol get_stock_history symbol days = Some r ->
    (50 <= length df)%nat /\
    AlphaScanner.symbol r = symbol /\
    (1 <= AlphaScanner.optimal_length r <= 40)%Z /\
    (Close <$> df) !! (length df - 1)%nat = Some (AlphaScanner.close_price r) /\
    exists s,
      Backtest.check_alpha_validity df (AlphaScanner.optimal_length r) = Ok s /\
      AlphaScanner.is_valid r = Backtest.is_valid s /\
      AlphaScanner.alpha r = Backtest.alpha s /\
      AlphaScanner.algo_ret r = Backtest.algo_ret s /\
      AlphaScanner.buy_hold r = Backtest.buy_hold s /\
      AlphaScanner.total_trades r = Backtest.total_trades s.
Proof.
  intros df. split; [apply analyze_symbol_short|]. split.
  - apply analyze_symbol_long.
  - intros r Hr.
    exact (analyze_symbol_result get_stock_history symbol days r Hr).
Qed.

(** X14. Every symbol in the result of [scan_vn100] is a listed ticker for
    which the client delivers at least 50 bars, and the symbols come as a
    rearrangement of a sublist of such tickers: none is added, none is
    reported more often than it is listed.  When no history has a close
    of 0 no such ticker is dropped either: the symbols are these tickers,
    each as often as it is listed. *)
Theorem scan_covers_the_long_histories
    (get_stock_history : string -> Z -> frame) (tickers : list string) (days : Z) :
  let long_histories :=
    List.filter (fun symbol => (50 <=? length (get_stock_history symbol days))%nat)
      tickers in
  let symbols :=
    AlphaScanner.symbol <$> AlphaScanner.scan_vn100 get_stock_history tickers days in
  (exists kept, sublist kept long_histories /\ Permutation symbols kept) /\
  (forall symbol, In symbol symbols ->
     In symbol tickers /\ (50 <= length (get_stock_history symbol days))%nat) /\
  ((forall symbol, In symbol tickers ->
      nonzero_closes (get_stock_history symbol days)) ->
   Permutation symbols long_histories).
Proof.
  intros long_histories symbols. subst long_histories symbols.
  assert (Permutation
            (AlphaScanner.symbol <$>
               AlphaScanner.scan_vn100 get_stock_history tickers days)
            (AlphaScanner.symbol <$>
               omap (fun symbol =>
                       AlphaScanner.analyze_symbol get_stock_history symbol days)
                 tickers)) as Hperm.
  { unfold AlphaScanner.scan_vn100. apply fmap_Permutation, list_sort_perm. }
  split; [|split].
  - eexists. split; [apply symbols_of_analyses_sublist | exact Hperm].
  - intros symbol Hin. apply (Permutation_in _ Hperm) in Hin.
    apply list_elem_of_In in Hin.
    apply (fun H => elem_of_sublist _ _ _ H
                      (symbols_of_analyses_sublist get_stock_history tickers days))
      in Hin.
    apply list_elem_of_In, filter_In in Hin as [Hin Hge].
    split; [exact Hin | by apply Nat.leb_le].
  - intros Hnz. rewrite <- (symbols_of_analyses _ _ _ Hnz). exact Hperm.
Qed.

(** X15. [get_opportunities] and [get_signals] keep the order of the scan,
    alpha descending, and return only valid results: each has a positive
    alpha and a strategy return that is positive and above buy-and-hold;
    each signal also has its buy flag set. *)
Theorem opportunities_are_valid_and_sorted
    (get_stock_history : string -> Z -> frame) (tickers : list string) (days : Z) :
  let opportunities := AlphaScanner.get_opportunities get_stock_history tickers days in
  let signals := AlphaScanner.get_signals get_stock_history tickers days in
  (forall r, In r opportunities \/ In r signals ->
     AlphaScanner.is_valid r = true /\ 0 < AlphaScanner.alpha r /\
     0 < AlphaScanner.algo_ret r /\
     AlphaScanner.buy_hold r < AlphaScanner.algo_ret r) /\
  (forall r, In r signals -> AlphaScanner.is_buy_signal r = true) /\
  StronglySorted (fun a b => AlphaScanner.alpha b <= AlphaScanner.alpha a)
    opportunities /\
  StronglySorted (fun a b => AlphaScanner.alpha b <= AlphaScanner.alpha a) signals.
Proof.
  intros opportunities signals. subst opportunities signals.
  unfold AlphaScanner.get_opportunities, AlphaScanner.get_signals.
  split; [|split; [|split]].
  - intros r Hr.
    assert (In r (AlphaScanner.scan_vn100 get_stock_history tickers days) /\
            AlphaScanner.is_valid r = true) as [Hin Hv].
    { destruct Hr as [Hr|Hr]; apply filter_In in Hr as [Hin Hf]; [done|].
      apply andb_true_iff in Hf as [_ Hv]. done. }
    split; [exact Hv|].
    destruct (scan_vn100_In _ _ _ _ Hin) as (t & _ & Ht).
    destruct (analyze_symbol_result _ _ _ _ Ht)
      as (_ & _ & _ & _ & s & Hs & Ev & Ea & Er & Eb & _).
    rewrite Ea, Er, Eb. rewrite Ev in Hv. exact (valid_means_profit _ _ _ Hs Hv).
  - intros r Hr. apply filter_In in Hr as [_ Hf].
    by apply andb_true_iff in Hf as [Hb _].
  - apply StronglySorted_filter, scan_vn100_sorted.
  - apply StronglySorted_filter, scan_vn100_sorted.
Qed.

Lemma analysis_needs_fifty_bars_witness :
  (50 <= length (sample_client "VNM" 730))%nat /\
  nonzero_closes (sample_client "VNM" 730) /\
  AlphaScanner.analyze_symbol (fun _ _ => short_frame) "VNM" 730 = None /\
  exists r, AlphaScanner.analyze_symbol sample_client "VNM" 730 = Some r /\
    AlphaScanner.symbol r = "VNM"%string /\
    (1 <= AlphaScanner.optimal_length r <= 40)%Z /\
    AlphaScanner.close_price r = 100.
Proof.
  split; [exact slump_frame_length|].
  split; [exact (sample_client_nonzero "VNM" 730)|].
  split.
  { apply (proj1 (analysis_needs_fifty_bars (fun _ _ => short_frame) "VNM" 730)).
    unfold short_frame. rewrite length_replicate. lia. }
  destruct (analysis_needs_fifty_bars sample_client "VNM" 730) as (_ & Hsome & Hall).
  destruct (Hsome slump_frame_length (sample_client_nonzero "VNM" 730)) as [r Hr].
  exists r. split; [exact Hr|].
  destruct (Hall r Hr) as (_ & H1 & H2 & H3 & _).
  split; [exact H1|]. split; [exact H2|].
  apply (inj Some). rewrite <- H3. reflexivity.
Defined.

Lemma scan_covers_the_long_histories_witness :
  (forall symbol, In symbol ["FPT"; "VNM"]%string ->
     nonzero_closes (sample_client symbol 730)) /\
  Permutation
    (AlphaScanner.symbol <$>
       AlphaScanner.scan_vn100 sample_client ["FPT"; "VNM"]%string 730)
    ["FPT"; "VNM"]%string.
Proof.
  assert (forall symbol, In symbol ["FPT"; "VNM"]%string ->
            nonzero_closes (sample_client symbol 730)) as Hnz.
  { intros symbol _. apply sample_client_nonzero. }
  split; [exact Hnz|].
  exact (proj2 (proj2 (scan_covers_the_long_histories sample_client
                         ["FPT"; "VNM"]%string 730)) Hnz).
Defined.

Lemma opportunities_are_valid_and_sorted_witness :
  exists r,
    In r (AlphaScanner.get_opportunities sample_client ["FPT"; "VNM"]%string 730) /\
    AlphaScanner.symbol r = "FPT"%string /\ 0 < AlphaScanner.alpha r.
Proof.
  destruct bump_analysis as (rb & Hrb & Hvb & _).
  destruct slump_analysis as (rs & Hrs & _).
  assert (In rb (AlphaScanner.get_opportunities sample_client
                   ["FPT"; "VNM"]%string 730)) as Hin.
  { unfold AlphaScanner.get_opportunities.
    apply (proj2 (filter_In AlphaScanner.is_valid rb
                    (AlphaScanner.scan_vn100 sample_client ["FPT"; "VNM"]%string 730))).
    split; [|exact Hvb].
    unfold AlphaScanner.scan_vn100, AlphaScanner.sort_by_alpha.
    cbn [omap list_omap]. rewrite Hrb, Hrs.
    pose proof (list_sort_perm Qltb AlphaScanner.alpha true [rb; rs]) as Hp.
    apply (Permutation_in rb (Permutation_sym Hp)). left. reflexivity. }
  exists rb. split; [exact Hin|].
  destruct (analyze_symbol_result sample_client "FPT" 730 rb Hrb) as (_ & Hsym & _).
  split; [exact Hsym|].
  destruct (opportunities_are_valid_and_sorted sample_client ["FPT"; "VNM"]%string 730)
    as [Hall _].
  destruct (Hall rb (or_introl Hin)) as (_ & Hpos & _). exact Hpos.
Defined.

(** ** The table and the footer *)

Section TableFacts.
Import AlphaScanner Terminal.

Lemma action_buy (r : analysis) :
  String.eqb (action_label r) "BUY" = is_buy_signal r && is_valid r.
Proof. unfold action_label. by destruct (is_buy_signal r), (is_valid r). Qed.

Lemma valid_yes (r : analysis) :
  String.eqb (valid_label r) "YES" = is_valid r.
Proof. unfold valid_label. by destruct (is_buy_signal r), (is_valid r). Qed.

Lemma action_avoid (r : analysis) :
  String.eqb (action_label r) "AVOID" = negb (is_valid r).
Proof. unfold action_label. by destruct (is_buy_signal r), (is_valid r). Qed.

Lemma filter_negb_length {A} (f : A -> bool) (l : list A) :
  (length (List.filter (fun x => negb (f x)) l) + length (List.filter f l))%nat
  = length l.
Proof.
  induction l as [|x l IH]; cbn [List.filter]; [done|].
  destruct (f x); cbn [negb length]; lia.
Qed.

Lemma ranked_before_labels (a b : analysis) :
  ranked_before a b ->
  (action_label b = "BUY"%string -> action_label a = "BUY"%string) /\
  (action_label a = "AVOID"%string -> action_label b = "AVOID"%string) /\
  (action_label a = action_label b -> alpha b <= alpha a).
Proof.
  unfold ranked_before, action_label. intros (H1 & H2 & H3).
  destruct (is_buy_signal a), (is_valid a), (is_buy_signal b), (is_valid b);
    cbn [andb] in *;
    (split; [|split]); intros E; try discriminate E; try reflexivity;
    try (by apply H3); try (by specialize (H1 eq_refl));
    try (by specialize (H2 eq_refl eq_refl)).
Qed.
End TableFacts.

(** X16. The three figures of the footer are nested, signals within valid
    results within all results; they do not depend on the order, so the
    ranking of [run_scan] leaves them as they are; and they count the rows
    the table labels BUY, YES and (for what is left) AVOID. *)
Theorem footer_counts_match_the_table (results : list AlphaScanner.analysis) :
  let total := (Terminal.footer_counts results).1.1 in
  let valid := (Terminal.footer_counts results).1.2 in
  let signals := (Terminal.footer_counts results).2 in
  (signals <= valid <= total)%nat /\
  Terminal.footer_counts (Main.rank results) = (total, valid, signals) /\
  length (List.filter (fun r => String.eqb (Terminal.action_label r) "BUY") results)
    = signals /\
  length (List.filter (fun r => String.eqb (Terminal.valid_label r) "YES") results)
    = valid /\
  (length (List.filter (fun r => String.eqb (Terminal.action_label r) "AVOID") results)
   + valid)%nat = total.
Proof.
  intros total valid signals. subst total valid signals.
  unfold Terminal.footer_counts. cbn [fst snd].
  split; [split|split; [|split; [|split]]].
  - apply filter_length_le. intros r Hr. by apply andb_true_iff in Hr as [_ Hv].
  - apply filter_length_bound.
  - pose proof (list_sort_perm Main.tuple_ltb Main.sort_key false results) as Hp.
    unfold Main.rank.
    by rewrite (Permutation_length Hp), !(filter_length_perm _ _ _ Hp).
  - f_equal. apply filter_ext. intros r. apply action_buy.
  - f_equal. apply filter_ext. intros r. apply valid_yes.
  - rewrite (filter_ext _ (fun r => negb (AlphaScanner.is_valid r)) action_avoid).
    apply filter_negb_length.
Qed.

(** X17. In the table of [run_scan] the rows come in blocks: no BUY row
    stands below a row with another label, no row stands below an AVOID
    row unless it is an AVOID row itself, and within a block alpha
    descends. *)
Theorem ranked_table_comes_in_blocks
    (results : list AlphaScanner.analysis) (i j : nat) (a b : AlphaScanner.analysis) :
  (i < j)%nat ->
  Main.rank results !! i = Some a -> Main.rank results !! j = Some b ->
  (Terminal.action_label b = "BUY"%string -> Terminal.action_label a = "BUY"%string) /\
  (Terminal.action_label a = "AVOID"%string ->
   Terminal.action_label b = "AVOID"%string) /\
  (Terminal.action_label a = Terminal.action_label b ->
   AlphaScanner.alpha b <= AlphaScanner.alpha a).
Proof.
  intros Hij Ha Hb. apply ranked_before_labels.
  exact (rank_sorted results i j a b Hij Ha Hb).
Qed.

Lemma ranked_table_comes_in_blocks_witness :
  Main.rank [avoid_result; watch_result] = [watch_result; avoid_result] /\
  Terminal.action_label watch_result = "WATCH"%string /\
  Terminal.action_label avoid_result = "AVOID"%string /\
  (Terminal.action_label watch_result = "AVOID"%string ->
   Terminal.action_label avoid_result = "AVOID"%string).
Proof.
  split; [reflexivity|]. split; [reflexivity|]. split; [reflexivity|].
  exact (proj1 (proj2 (ranked_table_comes_in_blocks [avoid_result; watch_result] 0 1
                         watch_result avoid_result (le_n 1) eq_refl eq_refl))).
Defined.

(** ** The heatmap *)

Section HeatmapFacts.
Import AlphaScanner Terminal.

(** [max(..., key=...)] returns the first item with the largest key. *)
Lemma max_from_first {A} (key : A -> Q) (l : list A) (best : A) :
  exists pre post, best :: l = pre ++ max_from key best l :: post /\
    (forall y, In y pre -> key y < key (max_from key best l)) /\
    (forall y, In y post -> key y <= key (max_from key best l)).
Proof.
  revert best. induction l as [|x l IH]; intros best.
  - exists [], []. split; [reflexivity|]. split; intros y [].
  - cbn [max_from]. destruct (Qgtb (key x) (key best)) eqn:E.
    + apply Qgtb_true in E. destruct (IH x) as (pre & post & Heq & Hpre & Hpost).
      exists (best :: pre), post. split; [cbn [app]; by rewrite <- Heq|].
      split; [|exact Hpost].
      intros y [<-|Hy]; [|by apply Hpre].
      destruct pre as [|p pre].
      * cbn [app] in Heq. injection Heq as Hx _. by rewrite <- Hx.
      * cbn [app] in Heq. injection Heq as Hx _.
        eapply Qlt_trans; [exact E|]. apply Hpre. left. by symmetry.
    + apply Qgtb_false in E. destruct (IH best) as (pre & post & Heq & Hpre & Hpost).
      destruct pre as [|p pre].
      * cbn [app] in Heq. injection Heq as Hb Hl.
        exists [], (x :: post). split; [cbn [app]; by rewrite <- Hb, <- Hl|].
        split; [intros y []|].
        intros y [<-|Hy]; [by rewrite <- Hb | by apply Hpost].
      * cbn [app] in Heq. injection Heq as Hb Hl.
        exists (best :: x :: pre), post. split; [cbn [app]; by rewrite <- Hl|].
        split; [|exact Hpost].
        assert (key best < key (max_from key best l)) as Hlt.
        { apply Hpre. left. by symmetry. }
        intros y [<-|[<-|Hy]]; [exact Hlt | | apply Hpre; by right].
        eapply Qle_lt_trans; [exact E | exact Hlt].
Qed.

Lemma max_from_ge {A} (key : A -> Q) (l : list A) (best y : A) :
  In y (best :: l) -> key y <= key (max_from key best l).
Proof.
  destruct (max_from_first key l best) as (pre & post & -> & Hpre & Hpost).
  intros Hy. apply in_app_or in Hy as [Hy|[<-|Hy]].
  - apply Qlt_le_weak. by apply Hpre.
  - apply Qle_refl.
  - by apply Hpost.
Qed.

Lemma max_from_In {A} (key : A -> Q) (l : list A) (best : A) :
  In (max_from key best l) (best :: l).
Proof.
  destruct (max_from_first key l best) as (pre & post & -> & _).
  apply in_or_app. right. by left.
Qed.

Lemma min_from_spec {A} (key : A -> Q) (l : list A) (best : A) :
  In (min_from key best l) (best :: l) /\
  forall y, In y (best :: l) -> key (min_from key best l) <= key y.
Proof.
  revert best. induction l as [|x l IH]; intros best.
  - split; [by left|]. intros y [<-|[]]. apply Qle_refl.
  - cbn [min_from]. destruct (Qltb (key x) (key best)) eqn:E.
    + destruct (IH x) as [Hin Hle]. split; [by right|].
      intros y [<-|Hy]; [|by apply Hle].
      apply Qgtb_true in E. apply Qlt_le_weak.
      eapply Qle_lt_trans; [|exact E]. apply Hle. by left.
    + destruct (IH best) as [Hin Hle]. split.
      { destruct Hin as [Hin|Hin]; [by left | right; by right]. }
      intros y [<-|[<-|Hy]]; [apply Hle; by left | | apply Hle; by right].
      apply Qgtb_false in E. eapply Qle_trans; [|exact E]. apply Hle. by left.
Qed.

Lemma max_from_fmap {A} (f : A -> Q) (l : list A) (x : A) :
  max_from id (f x) (f <$> l) = f (max_from f x l).
Proof.
  revert x. induction l as [|y l IH]; intros x; [reflexivity|].
  rewrite fmap_cons. cbn [max_from].
  change (id (f y)) with (f y). change (id (f x)) with (f x).
  destruct (Qgtb (f y) (f x)); apply IH.
Qed.

Lemma min_from_fmap {A} (f : A -> Q) (l : list A) (x : A) :
  min_from id (f x) (f <$> l) = f (min_from f x l).
Proof.
  revert x. induction l as [|y l IH]; intros x; [reflexivity|].
  rewrite fmap_cons. cbn [min_from].
  change (id (f y)) with (f y). change (id (f x)) with (f x).
  destruct (Qltb (f y) (f x)); apply IH.
Qed.

(** The record [print_parameter_heatmap] works out on a list that is not
    empty: the built-ins do not raise. *)
Lemma heatmap_eq (x : stability_row) (rest : list stability_row) :
  let data := x :: rest in
  let b := max_from row_alpha x rest in
  let w := min_from row_alpha x rest in
  let ma := max_from id (Qabs (row_alpha b)) [Qabs (row_alpha w); 1] in
  print_parameter_heatmap data
  = Some (Ok {| best := b; worst := w;
                max_alpha := row_alpha b; min_alpha := row_alpha w;
                max_abs := ma;
                heat_rows := heat_row_of (row_length b) ma <$> data;
                valid_count := length (List.filter row_is_valid data);
                positive_count :=
                  length (List.filter (fun r => Qgtb (row_alpha r) 0) data);
                avg_alpha := py_sum (row_alpha <$> data)
                             / inject_Z (Z.of_nat (length data));
                recommended := row_is_valid b |}).
Proof.
  intros data b w ma. subst data b w ma. unfold print_parameter_heatmap.
  rewrite bool_decide_eq_false_2 by done.
  rewrite fmap_cons. cbn [py_max py_min mbind res_bind].
  by rewrite max_from_fmap, min_from_fmap.
Qed.

Lemma int_of_float_bounds (x : Q) (n : Z) :
  0 <= x -> x <= inject_Z n -> (0 <= int_of_float x <= n)%Z.
Proof.
  destruct x as [p q]. unfold Qle, int_of_float. cbn [Qnum Qden inject_Z].
  intros H0 Hn. rewrite Z.quot_div_nonneg by lia. split.
  - apply Z.div_pos; lia.
  - apply Z.div_le_upper_bound; lia.
Qed.

Lemma heat_row_of_glyphs (best_length : Z) (ma : Q) (r : stability_row) :
  1 <= ma -> Qabs (row_alpha r) <= ma ->
  (1 <= heat_glyphs (heat_row_of best_length ma r) <= 35)%Z.
Proof.
  intros H1 Ha. unfold heat_row_of.
  assert (Qgtb ma 0 = true) as -> by (apply Qgtb_true; lra).
  assert (0 <= Qabs (row_alpha r)) as H0 by apply Qabs_nonneg.
  destruct (int_of_float_bounds
              (Qabs (row_alpha r) / ma * inject_Z bar_max_width) 35) as [Hlo Hhi].
  { apply Qmult_le_0_compat; [|done]. apply Qle_shift_div_l; lra. }
  { assert (Qabs (row_alpha r) / ma <= 1) as Hq by (apply Qle_shift_div_r; lra).
    change (inject_Z bar_max_width) with 35. change (inject_Z 35) with 35. lra. }
  destruct (row_length r =? best_length)%Z; [cbn [heat_glyphs]; lia|].
  destruct (Qgtb (row_alpha r) 0 && row_is_valid r); [cbn [heat_glyphs]; lia|].
  destruct (Qgtb (row_alpha r) 0); [cbn [heat_glyphs]; lia|].
  destruct (Qeq_bool (row_alpha r) 0); cbn [heat_glyphs]; lia.
Qed.

Lemma heat_row_of_kind (best_length : Z) (ma : Q) (r : stability_row) :
  heat_length (heat_row_of best_length ma r) = row_length r /\
  (heat_kind (heat_row_of best_length ma r) = MaxBar <-> row_length r = best_length).
Proof.
  unfold heat_row_of. destruct (Z.eqb_spec (row_length r) best_length) as [E|E].
  - by cbn [heat_length heat_kind].
  - destruct (Qgtb (row_alpha r) 0 && row_is_valid r);
      [|destruct (Qgtb (row_alpha r) 0); [|destruct (Qeq_bool (row_alpha r) 0)]];
      cbn [heat_length heat_kind]; (split; [reflexivity|]); split; intros H;
      congruence.
Qed.

Lemma abs_within (lo hi a ma : Q) :
  lo <= a -> a <= hi -> Qabs hi <= ma -> Qabs lo <= ma -> Qabs a <= ma.
Proof.
  intros Hlo Hhi Hh Hl. apply Qabs_Qle_condition.
  apply Qabs_Qle_condition in Hh as [_ Hh]. apply Qabs_Qle_condition in Hl as [Hl _].
  split; lra.
Qed.

Lemma fold_sum_bounds (lo hi : Q) (l : list Q) (acc : Q) :
  Forall (fun x => lo <= x /\ x <= hi) l ->
  acc + inject_Z (Z.of_nat (length l)) * lo <= fold_left Qplus l acc /\
  fold_left Qplus l acc <= acc + inject_Z (Z.of_nat (length l)) * hi.
Proof.
  intros H. revert acc. induction H as [|x l [Hx1 Hx2] _ IH]; intros acc.
  - cbn [fold_left length]. change (inject_Z (Z.of_nat 0)) with 0. split; lra.
  - cbn [fold_left length]. rewrite Nat2Z.inj_succ. unfold Z.succ.
    rewrite inject_Z_plus. change (inject_Z 1) with 1.
    destruct (IH (acc + x)) as [IH1 IH2]. split; lra.
Qed.

Lemma average_within (lo hi : Q) (l : list Q) :
  l <> [] -> Forall (fun x => lo <= x /\ x <= hi) l ->
  lo <= py_sum l / inject_Z (Z.of_nat (length l)) /\
  py_sum l / inject_Z (Z.of_nat (length l)) <= hi.
Proof.
  intros Hne H. destruct (fold_sum_bounds lo hi l 0 H) as [H1 H2].
  assert (0 < inject_Z (Z.of_nat (length l))) as Hn.
  { destruct l; [done|]. unfold Qlt. cbn [Qnum Qden inject_Z length]. lia. }
  unfold py_sum. split.
  - apply Qle_shift_div_l; [exact Hn|]. lra.
  - apply Qle_shift_div_r; [exact Hn|]. lra.
Qed.

Lemma filter_length_zero {A} (f : A -> bool) (l : list A) :
  length (List.filter f l) = 0%nat <-> forall x, In x l -> f x = false.
Proof.
  induction l as [|x l IH]; cbn [List.filter].
  - split; [intros _ y []|done].
  - destruct (f x) eqn:E; cbn [length].
    + split; [lia|]. intros H. specialize (H x (or_introl eq_refl)). congruence.
    + rewrite IH. split.
      * intros H y [<-|Hy]; [done|by apply H].
      * intros H y Hy. apply H. by right.
Qed.
End HeatmapFacts.

(** X18. Every chart [print_parameter_heatmap] draws, on rows whose
    figures are finite, is scaled by at least 1 and has one bar per row,
    each of 1 to 35 glyphs; on an empty list it draws no chart. *)
Theorem heatmap_bars_fit
    (stability_data : list AlphaScanner.stability_row) (h : Terminal.heatmap) :
  Terminal.print_parameter_heatmap stability_data = Some (Ok h) ->
  Terminal.print_parameter_heatmap [] = None /\
  stability_data <> [] /\
  1 <= Terminal.max_abs h /\
  length (Terminal.heat_rows h) = length stability_data /\
  Forall (fun row => (1 <= Terminal.heat_glyphs row <= 35)%Z)
    (Terminal.heat_rows h).
Proof.
  intros Hh. split; [reflexivity|].
  destruct stability_data as [|x rest]; [discriminate Hh|].
  split; [discriminate|].
  pose proof (heatmap_eq x rest) as Heq. cbv zeta in Heq.
  rewrite Heq in Hh.
  pose proof (f_equal (fun o => match o with Some (Ok h') => h' | _ => h end) Hh)
    as Eh.
  cbv beta iota in Eh. subst h. clear Hh Heq.
  cbn [Terminal.max_abs Terminal.heat_rows].
  set (b := Terminal.max_from AlphaScanner.row_alpha x rest).
  set (w := Terminal.min_from AlphaScanner.row_alpha x rest).
  set (ma := Terminal.max_from id _ _).
  assert (1 <= ma) as H1.
  { exact (max_from_ge id [Qabs (AlphaScanner.row_alpha w); 1]
             (Qabs (AlphaScanner.row_alpha b)) 1
             (or_intror (or_intror (or_introl eq_refl)))). }
  assert (Qabs (AlphaScanner.row_alpha b) <= ma) as Hb.
  { exact (max_from_ge id [Qabs (AlphaScanner.row_alpha w); 1]
             (Qabs (AlphaScanner.row_alpha b)) (Qabs (AlphaScanner.row_alpha b))
             (or_introl eq_refl)). }
  assert (Qabs (AlphaScanner.row_alpha w) <= ma) as Hw.
  { exact (max_from_ge id [Qabs (AlphaScanner.row_alpha w); 1]
             (Qabs (AlphaScanner.row_alpha b)) (Qabs (AlphaScanner.row_alpha w))
             (or_intror (or_introl eq_refl))). }
  split; [exact H1|]. split; [by rewrite length_fmap|].
  apply Forall_fmap, List.Forall_forall. intros r Hr.
  apply heat_row_of_glyphs; [exact H1|].
  apply (abs_within (AlphaScanner.row_alpha w) (AlphaScanner.row_alpha b));
    [|by apply max_from_ge|done..].
  by apply (min_from_spec AlphaScanner.row_alpha rest x).
Qed.

Lemma heatmap_bars_fit_witness :
  exists h,
    Terminal.print_parameter_heatmap
      [AlphaScanner.mkRow 1 (-7) false (-2) 5 3; AlphaScanner.mkRow 2 4 true 6 2 1]
    = Some (Ok h) /\
    Terminal.heat_glyphs <$> Terminal.heat_rows h = [35%Z; 20%Z] /\
    Forall (fun row => (1 <= Terminal.heat_glyphs row <= 35)%Z) (Terminal.heat_rows h).
Proof.
  eexists. split; [lazy; reflexivity|]. split; [lazy; reflexivity|].
  refine (proj2 (proj2 (proj2 (proj2 (heatmap_bars_fit
            [AlphaScanner.mkRow 1 (-7) false (-2) 5 3;
             AlphaScanner.mkRow 2 4 true 6 2 1] _ _))))).
  lazy; reflexivity.
Defined.

(** X19. The summary of every heatmap [print_parameter_heatmap] returns,
    on rows whose figures are finite, is consistent: the best and the
    worst row are rows of the list and carry the largest and the smallest
    alpha, every alpha and the average lie between the two, neither count
    exceeds the number of rows, and no length has a positive alpha exactly
    when the largest alpha is not positive. *)
Theorem heatmap_summary_is_consistent
    (stability_data : list AlphaScanner.stability_row) (h : Terminal.heatmap) :
  Terminal.print_parameter_heatmap stability_data = Some (Ok h) ->
    In (Terminal.best h) stability_data /\ In (Terminal.worst h) stability_data /\
    Terminal.max_alpha h = AlphaScanner.row_alpha (Terminal.best h) /\
    Terminal.min_alpha h = AlphaScanner.row_alpha (Terminal.worst h) /\
    (forall r, In r stability_data ->
       Terminal.min_alpha h <= AlphaScanner.row_alpha r /\
       AlphaScanner.row_alpha r <= Terminal.max_alpha h) /\
    Terminal.min_alpha h <= Terminal.avg_alpha h /\
    Terminal.avg_alpha h <= Terminal.max_alpha h /\
    (Terminal.valid_count h <= length stability_data)%nat /\
    (Terminal.positive_count h <= length stability_data)%nat /\
    (Terminal.positive_count h = 0%nat <-> Terminal.max_alpha h <= 0).
Proof.
  intros Hh. destruct stability_data as [|x rest]; [discriminate Hh|].
  pose proof (heatmap_eq x rest) as Heq. cbv zeta in Heq.
  rewrite Heq in Hh.
  pose proof (f_equal (fun o => match o with Some (Ok h') => h' | _ => h end) Hh)
    as Eh.
  cbv beta iota in Eh. subst h. clear Hh Heq.
  cbn [Terminal.best Terminal.worst Terminal.max_alpha Terminal.min_alpha
       Terminal.avg_alpha Terminal.valid_count Terminal.positive_count].
  set (b := Terminal.max_from AlphaScanner.row_alpha x rest).
  set (w := Terminal.min_from AlphaScanner.row_alpha x rest).
  assert (forall r, In r (x :: rest) ->
            AlphaScanner.row_alpha w <= AlphaScanner.row_alpha r /\
            AlphaScanner.row_alpha r <= AlphaScanner.row_alpha b) as Hall.
  { intros r Hr. split; [by apply (min_from_spec AlphaScanner.row_alpha rest x)|].
    by apply max_from_ge. }
  destruct (average_within (AlphaScanner.row_alpha w) (AlphaScanner.row_alpha b)
              (AlphaScanner.row_alpha <$> x :: rest)) as [Hlo Hhi].
  { by rewrite fmap_cons. }
  { apply Forall_fmap, List.Forall_forall. exact Hall. }
  rewrite length_fmap in Hlo, Hhi.
  split; [apply max_from_In|].
  split; [apply (min_from_spec AlphaScanner.row_alpha rest x)|].
  split; [reflexivity|]. split; [reflexivity|]. split; [exact Hall|].
  split; [exact Hlo|]. split; [exact Hhi|].
  split; [apply filter_length_bound|]. split; [apply filter_length_bound|].
  rewrite filter_length_zero. split.
  - intros H. apply Qgtb_false. apply H. apply max_from_In.
  - intros H r Hr. apply Qgtb_false. destruct (Hall r Hr) as [_ Hle]. lra.
Qed.

Lemma heatmap_summary_is_consistent_witness :
  exists h,
    Terminal.print_parameter_heatmap
      [AlphaScanner.mkRow 1 (-7) false (-2) 5 3; AlphaScanner.mkRow 2 4 true 6 2 1]
    = Some (Ok h) /\
    Terminal.min_alpha h == -7 /\ Terminal.max_alpha h == 4 /\
    Terminal.min_alpha h <= Terminal.avg_alpha h /\
    Terminal.avg_alpha h <= Terminal.max_alpha h.
Proof.
  eexists. split; [lazy; reflexivity|].
  split; [reflexivity|]. split; [reflexivity|].
  refine ((fun H => conj (proj1 H) (proj1 (proj2 H)))
            (proj2 (proj2 (proj2 (proj2 (proj2 (heatmap_summary_is_consistent
               [AlphaScanner.mkRow 1 (-7) false (-2) 5 3;
                AlphaScanner.mkRow 2 4 true 6 2 1] _ _))))))).
  lazy; reflexivity.
Defined.

(** ** The deep dive *)

Section DeepDive.
Import AlphaScanner Terminal.
Variable get_stock_history : string -> Z -> frame.

Lemma inspect_short symbol days :
  (length (get_stock_history symbol days) < 50)%nat ->
  inspect_ticker_stability get_stock_history symbol days = [].
Proof.
  intros H. unfold inspect_ticker_stability. apply Nat.ltb_lt in H. rewrite H.
  by rewrite orb_true_r.
Qed.

Lemma inspect_rows symbol days :
  let df := get_stock_history symbol days in
  (50 <= length df)%nat ->
  length (inspect_ticker_stability get_stock_history symbol days) = 40%nat /\
  forall k row,
    inspect_ticker_stability get_stock_history symbol days !! k = Some row ->
    exists s, Backtest.check_alpha_validity df (Z.of_nat k + 1) = Ok s /\
      row = row_of (Z.of_nat k + 1) s.
Proof.
  intros df Hlen. unfold inspect_ticker_stability. fold df.
  rewrite not_short by done.
  destruct (fold_inspect df (py_range DI_LENGTH_MIN (DI_LENGTH_MAX + 1)) [])
    as (rows & -> & Hrows).
  { intros k Hk. apply In_py_range in Hk. unfold DI_LENGTH_MIN in Hk.
    apply check_alpha_validity_total; [done | lia]. }
  rewrite app_nil_l.
  assert (length rows = 40%nat) as Hn.
  { apply Forall2_length in Hrows. rewrite <- Hrows.
    unfold py_range. by rewrite length_fmap, length_seq. }
  assert (forall k row, rows !! k = Some row ->
            exists s, Backtest.check_alpha_validity df (Z.of_nat k + 1) = Ok s /\
              row = row_of (Z.of_nat k + 1) s) as Hrow.
  { intros k row Hk. destruct (rows_of_range df rows _ _ k row Hrows Hk) as (s & Hs & ->).
    unfold DI_LENGTH_MIN in *.
    replace (1 + Z.of_nat k)%Z with (Z.of_nat k + 1)%Z in * by lia. eauto. }
  rewrite list_sort_id; [by split|].
  intros i j x y Hij Hx Hy.
  destruct (Hrow i x Hx) as (sx & _ & ->). destruct (Hrow j y Hy) as (sy & _ & ->).
  unfold before. cbn [row_length row_of]. apply Z.ltb_ge. lia.
Qed.

Lemma filter_length_le_In {A} (f g : A -> bool) (l : list A) :
  (forall x, In x l -> f x = true -> g x = true) ->
  (length (List.filter f l) <= length (List.filter g l))%nat.
Proof.
  induction l as [|x l IH]; intros Hfg; cbn [List.filter]; [done|].
  assert (length (List.filter f l) <= length (List.filter g l))%nat as Hl.
  { apply IH. intros y Hy. apply Hfg. by right. }
  destruct (f x) eqn:Ef.
  - rewrite (Hfg x (or_introl eq_refl) Ef). cbn [length]. lia.
  - destruct (g x); cbn [length]; lia.
Qed.

(** The first maximum of the rows is the row of the length the grid
    search settles on: both keep the first of the largest alphas. *)
Lemma heatmap_best_is_grid_best (df : frame) (rows : list stability_row)
    (x : stability_row) (rest : list stability_row) s (L : Z) :
  rows = x :: rest -> length rows = 40%nat ->
  (forall k row, rows !! k = Some row ->
     exists sk, Backtest.check_alpha_validity df (Z.of_nat k + 1) = Ok sk /\
       row = row_of (Z.of_nat k + 1) sk) ->
  (1 <= L <= 40)%Z -> Backtest.check_alpha_validity df L = Ok s ->
  (forall k, (1 <= k <= 40)%Z ->
     exists sk, Backtest.check_alpha_validity df k = Ok sk /\
       Backtest.alpha sk <= Backtest.alpha s /\
       ((k < L)%Z -> Backtest.alpha sk < Backtest.alpha s)) ->
  max_from row_alpha x rest = row_of L s.
Proof.
  intros Erows Hn Hrows HL Hs Hbest.
  destruct (max_from_first row_alpha rest x) as (pre & post & Heq & Hpre & Hpost).
  set (b := max_from row_alpha x rest) in *. rewrite <- Erows in Heq.
  assert (rows !! length pre = Some b) as Hb.
  { rewrite Heq. by apply list_lookup_middle. }
  assert (length pre < 40)%nat as Hi.
  { apply lookup_lt_Some in Hb. lia. }
  destruct (Hrows _ _ Hb) as (si & Hsi & Ebi).
  destruct (Hbest (Z.of_nat (length pre) + 1)%Z ltac:(lia)) as (si' & Hsi' & Hle & Hlt).
  assert (si' = si) as -> by congruence.
  destruct (lookup_lt_is_Some_2 rows (Z.to_nat (L - 1))) as [rL HrL]; [lia|].
  destruct (Hrows _ _ HrL) as (sL & HsL & ErL).
  replace (Z.of_nat (Z.to_nat (L - 1)) + 1)%Z with L in HsL, ErL by lia.
  assert (sL = s) as -> by congruence.
  assert (row_alpha rL = Backtest.alpha s) as EaL by (by rewrite ErL).
  assert (row_alpha b = Backtest.alpha si) as Eab by (by rewrite Ebi).
  destruct (Z.lt_trichotomy (Z.of_nat (length pre) + 1) L) as [Hc|[Hc|Hc]].
  - exfalso. specialize (Hlt Hc).
    assert (In rL post) as Hin.
    { rewrite Heq in HrL. rewrite lookup_app_r in HrL by lia.
      destruct (Z.to_nat (L - 1) - length pre)%nat as [|j] eqn:Ej; [lia|].
      cbn [lookup list_lookup] in HrL.
      apply list_elem_of_In. by apply list_elem_of_lookup_2 in HrL. }
    specialize (Hpost rL Hin). rewrite EaL, Eab in Hpost. lra.
  - rewrite Ebi. by rewrite Hc in Hsi; assert (si = s) as -> by congruence; rewrite Hc.
  - exfalso.
    assert (In rL pre) as Hin.
    { rewrite Heq in HrL. rewrite lookup_app_l in HrL by lia.
      apply list_elem_of_In. by apply list_elem_of_lookup_2 in HrL. }
    specialize (Hpre rL Hin). rewrite EaL, Eab in Hpre. lra.
Qed.
End DeepDive.

(** X20. On one history of 50 bars or more, none closing at 0, the deep
    dive and the scan agree: the row the heatmap marks as best has the optimal length
    [analyze_symbol] reports, with the same alpha; the recommendation is
    given exactly when that analysis is valid; bar [k] (from 0) is the bar
    of length [k + 1] and only the bar of the optimal length is drawn as
    the maximum; and no more lengths are counted valid than positive. *)
Theorem heatmap_marks_the_optimal_length
    (get_stock_history : string -> Z -> frame) (symbol : string) (days : Z) :
  (50 <= length (get_stock_history symbol days))%nat ->
  nonzero_closes (get_stock_history symbol days) ->
  exists r h,
    AlphaScanner.analyze_symbol get_stock_history symbol days = Some r /\
    Terminal.print_parameter_heatmap
      (AlphaScanner.inspect_ticker_stability get_stock_history symbol days)
      = Some (Ok h) /\
    AlphaScanner.row_length (Terminal.best h) = AlphaScanner.optimal_length r /\
    AlphaScanner.row_alpha (Terminal.best h) = AlphaScanner.alpha r /\
    Terminal.recommended h = AlphaScanner.is_valid r /\
    (forall k row, Terminal.heat_rows h !! k = Some row ->
       Terminal.heat_length row = (Z.of_nat k + 1)%Z /\
       (Terminal.heat_kind row = Terminal.MaxBar
        <-> (Z.of_nat k + 1)%Z = AlphaScanner.optimal_length r)) /\
    (Terminal.valid_count h <= Terminal.positive_count h)%nat.
Proof.
  intros Hlen _.
  destruct (analyze_symbol_Ok get_stock_history symbol days Hlen)
    as (s & L & ? & ? & ? & ? & ? & ? & ? & ? & ? & Hgs & _ & _ & _ & _ & _ & _ & Hr).
  destruct (grid_search_spec (get_stock_history symbol days) Hlen)
    as (s' & L' & Hgs' & HL & Hs & Hbest).
  rewrite Hgs in Hgs'. injection Hgs' as Es _ EL. subst s' L'.
  destruct (inspect_rows get_stock_history symbol days Hlen) as [Hn Hrows].
  destruct (AlphaScanner.inspect_ticker_stability get_stock_history symbol days)
    as [|row1 rest] eqn:Erows; [cbn [length] in Hn; lia|].
  pose proof (heatmap_best_is_grid_best (get_stock_history symbol days)
                (row1 :: rest) row1 rest s L eq_refl Hn Hrows HL Hs Hbest) as Hb.
  eexists _, _. split; [exact Hr|]. split; [apply heatmap_eq|].
  cbn [Terminal.best Terminal.recommended Terminal.heat_rows Terminal.valid_count
       Terminal.positive_count AlphaScanner.optimal_length AlphaScanner.alpha
       AlphaScanner.is_valid].
  rewrite !Hb. cbn [AlphaScanner.row_of AlphaScanner.row_length
                    AlphaScanner.row_alpha AlphaScanner.row_is_valid].
  split; [reflexivity|]. split; [reflexivity|]. split; [reflexivity|]. split.
  - intros k row Hk. rewrite list_lookup_fmap in Hk.
    destruct ((row1 :: rest) !! k) as [r0|] eqn:Ek; [|discriminate].
    cbn [fmap option_fmap option_map] in Hk. injection Hk as <-.
    destruct (Hrows k r0 Ek) as (sk & _ & ->).
    destruct (heat_row_of_kind L
                (Terminal.max_from id (Qabs (Backtest.alpha s))
                   [Qabs (AlphaScanner.row_alpha
                            (Terminal.min_from AlphaScanner.row_alpha row1 rest)); 1])
                (AlphaScanner.row_of (Z.of_nat k + 1) sk)) as [H1 H2].
    cbn [AlphaScanner.row_of AlphaScanner.row_length] in H1, H2. by split.
  - apply filter_length_le_In. intros r0 Hin Hv.
    apply list_elem_of_In, list_elem_of_lookup_1 in Hin as [k Hk].
    destruct (Hrows k r0 Hk) as (sk & Hsk & ->).
    cbn [AlphaScanner.row_of AlphaScanner.row_is_valid AlphaScanner.row_alpha] in *.
    apply Qgtb_true. by destruct (valid_means_profit _ _ _ Hsk Hv) as [Hpos _].
Qed.

Lemma heatmap_marks_the_optimal_length_witness :
  (50 <= length (sample_client "VNM" 730))%nat /\
  nonzero_closes (sample_client "VNM" 730) /\
  exists r h,
    AlphaScanner.analyze_symbol sample_client "VNM" 730 = Some r /\
    Terminal.print_parameter_heatmap
      (AlphaScanner.inspect_ticker_stability sample_client "VNM" 730) = Some (Ok h) /\
    AlphaScanner.row_length (Terminal.best h) = AlphaScanner.optimal_length r.
Proof.
  split; [exact slump_frame_length|].
  split; [exact (sample_client_nonzero "VNM" 730)|].
  destruct (heatmap_marks_the_optimal_length sample_client "VNM" 730
              slump_frame_length (sample_client_nonzero "VNM" 730))
    as (r & h & Hr & Hh & Hb & _).
  exists r, h. exact (conj Hr (conj Hh Hb)).
Defined.

(** X21. The deep dive has rows exactly when the client delivers at least
    50 bars; with fewer it returns the empty list, for which the heatmap
    prints no chart. *)
Theorem inspection_needs_fifty_bars
    (get_stock_history : string -> Z -> frame) (symbol : string) (days : Z) :
  let df := get_stock_history symbol days in
  let rows := AlphaScanner.inspect_ticker_stability get_stock_history symbol days in
  (rows = [] <-> (length df < 50)%nat) /\
  (Terminal.print_parameter_heatmap rows = None <-> (length df < 50)%nat).
Proof.
  intros df rows. subst rows.
  assert (AlphaScanner.inspect_ticker_stability get_stock_history symbol days = []
          <-> (length df < 50)%nat) as Hiff.
  { split; [|apply inspect_short].
    intros E. destruct (Nat.lt_ge_cases (length df) 50) as [Hlt|Hge]; [done|].
    destruct (inspect_rows get_stock_history symbol days Hge) as [Hn _].
    rewrite E in Hn. discriminate Hn. }
  split; [exact Hiff|]. rewrite <- Hiff.
  unfold Terminal.print_parameter_heatmap.
  destruct (AlphaScanner.inspect_ticker_stability get_stock_history symbol days)
    as [|row1 rest]; [done|].
  rewrite bool_decide_eq_false_2 by done. split; discriminate.
Qed.

(** ** The price unit *)

Section Unit.
Import TitanMath.
Variable c : Q.
Hypothesis c_pos : 0 < c.

Lemma Qgtb_proper (a a' b b' : Q) : a == a' -> b == b' -> Qgtb a b = Qgtb a' b'.
Proof.
  intros Ha Hb. destruct (Qgtb a' b') eqn:E.
  - apply Qgtb_true in E. apply Qgtb_true. by rewrite Ha, Hb.
  - apply Qgtb_false in E. apply Qgtb_false. by rewrite Ha, Hb.
Qed.

Lemma Qgtb_scale (a a' b b' : Q) :
  a' == c * a -> b' == c * b -> Qgtb a' b' = Qgtb a b.
Proof.
  intros Ha Hb. destruct (Qgtb a b) eqn:E.
  - apply Qgtb_true in E. apply Qgtb_true. rewrite Ha, Hb. nra.
  - apply Qgtb_false in E. apply Qgtb_false. rewrite Ha, Hb. nra.
Qed.

Lemma Qeq_bool_proper (a a' b b' : Q) :
  a == a' -> b == b' -> Qeq_bool a b = Qeq_bool a' b'.
Proof.
  intros Ha Hb. destruct (Qeq_bool a' b') eqn:E.
  - apply Qeq_bool_iff in E. apply Qeq_bool_iff. by rewrite Ha, Hb.
  - apply Qeq_bool_neq in E. apply Qeq_bool_false. by rewrite Ha, Hb.
Qed.

Lemma Qmax_scale (a a' b b' : Q) :
  a' == c * a -> b' == c * b -> Qmax a' b' == c * Qmax a b.
Proof.
  intros Ha Hb.
  destruct (Q.max_spec a b) as [[H1 ->]|[H1 ->]];
    destruct (Q.max_spec a' b') as [[H2 ->]|[H2 ->]];
    rewrite ?Ha, ?Hb in *; try reflexivity; nra.
Qed.

Lemma Qabs_scale (a a' : Q) : a' == c * a -> Qabs a' == c * Qabs a.
Proof.
  intros ->. rewrite Qabs_Qmult. rewrite (Qabs_pos c); [reflexivity|].
  by apply Qlt_le_weak.
Qed.

Lemma ratio_scale (p p' e e' : Q) :
  p' == c * p -> e' == c * e -> (p' - e') / e' == (p - e) / e.
Proof.
  intros -> ->. destruct (Qeq_dec e 0) as [He|He].
  - rewrite He. assert (c * 0 == 0) as -> by ring.
    unfold Qdiv. change (/ 0) with 0. ring.
  - field. split; [exact He|]. intros Hc. rewrite Hc in c_pos. by compute in c_pos.
Qed.

Lemma true_range_scale (h l pc : Q) :
  true_range (c * h) (c * l) (Some (c * pc)) == c * true_range h l (Some pc).
Proof.
  cbn [true_range]. apply Qmax_scale; [apply Qmax_scale|].
  - ring.
  - apply Qabs_scale. ring.
  - apply Qabs_scale. ring.
Qed.

Lemma dm_at_scale (x x' y y' : Q) :
  x' == c * x -> y' == c * y ->
  dm_at (Some x') (Some y') == c * dm_at (Some x) (Some y).
Proof.
  intros Hx Hy. cbn [dm_at].
  rewrite (Qgtb_scale x x' y y' Hx Hy).
  assert (Qgtb x' 0 = Qgtb x 0) as ->.
  { apply Qgtb_scale; [exact Hx|ring]. }
  destruct (Qgtb x y && Qgtb x 0); [exact Hx|ring].
Qed.

Lemma di_at_scale (s s' t t' : Q) :
  s' == c * s -> t' == c * t -> di_at s' t' == di_at s t.
Proof.
  intros Hs Ht. unfold di_at.
  assert (Qeq_bool t' 0 = Qeq_bool t 0) as ->.
  { destruct (Qeq_bool t 0) eqn:E.
    - apply Qeq_bool_iff in E. apply Qeq_bool_iff. rewrite Ht, E. ring.
    - apply Qeq_bool_neq in E. apply Qeq_bool_false. rewrite Ht. intros H.
      apply E. nra. }
  destruct (Qeq_bool t 0) eqn:E; [reflexivity|]. apply Qeq_bool_neq in E.
  rewrite Hs, Ht. field. split; [exact E|]. intros Hc. rewrite Hc in c_pos.
  by compute in c_pos.
Qed.

(** The columns of the rescaled frame are the columns of the frame,
    multiplied by [c]. *)
Lemma rescale_lookup (df : frame) i b :
  df !! i = Some b ->
  rescale c df !! i = Some (mkBar (c * High b) (c * Low b) (c * Close b)).
Proof.
  intros H. unfold rescale, frame in *. rewrite list_lookup_fmap, H. reflexivity.
Qed.

Lemma length_rescale (df : frame) : length (rescale c df) = length df.
Proof. unfold rescale. by rewrite length_fmap. Qed.

Lemma columns_scale (df : frame) :
  Forall2 (fun x' x => x' == c * x) (true_ranges (rescale c df)) (true_ranges df) /\
  Forall2 (fun x' x => x' == c * x) (plus_dms (rescale c df)) (plus_dms df) /\
  Forall2 (fun x' x => x' == c * x) (minus_dms (rescale c df)) (minus_dms df).
Proof.
  assert (forall i p' m' t' p m t,
            plus_dms (rescale c df) !! i = Some p' ->
            minus_dms (rescale c df) !! i = Some m' ->
            true_ranges (rescale c df) !! i = Some t' ->
            plus_dms df !! i = Some p -> minus_dms df !! i = Some m ->
            true_ranges df !! i = Some t ->
            p' == c * p /\ m' == c * m /\ t' == c * t) as Hrow.
  { intros i p' m' t' p m t Hp' Hm' Ht' Hp Hm Ht.
    destruct (rows_at df i p m t Hp Hm Ht)
      as [(-> & b & Hb & -> & -> & ->)|(j & a & b & -> & Ha & Hb & -> & -> & ->)].
    - destruct (rows_at_0 _ _ (rescale_lookup df 0 b Hb)) as (Ep & Em & Et).
      cbn [High Low] in Et. unfold frame in *.
      rewrite Ep in Hp'. rewrite Em in Hm'. rewrite Et in Ht'.
      injection Hp' as <-. injection Hm' as <-. injection Ht' as <-.
      split; [ring|]. split; ring.
    - destruct (rows_at_S _ j _ _ (rescale_lookup df j a Ha)
                  (rescale_lookup df (S j) b Hb)) as (Ep & Em & Et).
      cbn [High Low Close] in Ep, Em, Et. unfold frame in *.
      rewrite Ep in Hp'. rewrite Em in Hm'. rewrite Et in Ht'.
      injection Hp' as <-. injection Hm' as <-. injection Ht' as <-.
      split; [apply dm_at_scale; ring|]. split; [apply dm_at_scale; ring|].
      apply true_range_scale. }
  assert (forall i, (i < length df)%nat ->
            exists p' m' t' p m t,
              plus_dms (rescale c df) !! i = Some p' /\
              minus_dms (rescale c df) !! i = Some m' /\
              true_ranges (rescale c df) !! i = Some t' /\
              plus_dms df !! i = Some p /\ minus_dms df !! i = Some m /\
              true_ranges df !! i = Some t) as Hex.
  { intros i Hi.
    destruct (lookup_lt_is_Some_2 (plus_dms (rescale c df)) i) as [p' Hp'];
      [by rewrite length_plus_dms, length_rescale|].
    destruct (lookup_lt_is_Some_2 (minus_dms (rescale c df)) i) as [m' Hm'];
      [by rewrite length_minus_dms, length_rescale|].
    destruct (lookup_lt_is_Some_2 (true_ranges (rescale c df)) i) as [t' Ht'];
      [by rewrite length_true_ranges, length_rescale|].
    destruct (lookup_lt_is_Some_2 (plus_dms df) i) as [p Hp];
      [by rewrite length_plus_dms|].
    destruct (lookup_lt_is_Some_2 (minus_dms df) i) as [m Hm];
      [by rewrite length_minus_dms|].
    destruct (lookup_lt_is_Some_2 (true_ranges df) i) as [t Ht];
      [by rewrite length_true_ranges|].
    by exists p', m', t', p, m, t. }
  split; [|split]; apply Forall2_same_length_lookup_2;
    rewrite ?length_true_ranges, ?length_plus_dms, ?length_minus_dms,
      ?length_rescale; try reflexivity;
    intros i x' x Hx' Hx;
    (assert (i < length df)%nat as Hi
       by (apply lookup_lt_Some in Hx;
           by rewrite ?length_true_ranges, ?length_plus_dms, ?length_minus_dms in Hx));
    destruct (Hex i Hi) as (p' & m' & t' & p & m & t & Hp' & Hm' & Ht' & Hp & Hm & Ht);
    destruct (Hrow i p' m' t' p m t Hp' Hm' Ht' Hp Hm Ht) as (E1 & E2 & E3);
    congruence.
Qed.

(** Smoothing is linear. *)
Lemma ewm_from_scale alpha (w' w : Q) (xs' xs : list Q) :
  w' == c * w -> Forall2 (fun x' x => x' == c * x) xs' xs ->
  Forall2 (fun x' x => x' == c * x) (ewm_from alpha w' xs') (ewm_from alpha w xs).
Proof.
  intros Hw H. revert w' w Hw. induction H as [|x' x xs' xs Hx _ IH]; intros w' w Hw.
  - constructor.
  - cbn [ewm_from].
    assert ((1 - alpha) * w' + alpha * x' == c * ((1 - alpha) * w + alpha * x)) as E.
    { rewrite Hw, Hx. ring. }
    constructor; [exact E|]. by apply IH.
Qed.

Lemma ewm_mean_scale alpha (xs' xs : list Q) :
  Forall2 (fun x' x => x' == c * x) xs' xs ->
  Forall2 (fun x' x => x' == c * x) (ewm_mean alpha xs') (ewm_mean alpha xs).
Proof.
  intros [|x' x ys' ys Hx H]; cbn [ewm_mean]; constructor; [exact Hx|].
  by apply ewm_from_scale.
Qed.

Lemma di_columns_same (s' s t' t : list Q) :
  Forall2 (fun x' x => x' == c * x) s' s ->
  Forall2 (fun x' x => x' == c * x) t' t ->
  Forall2 Qeq (zip_with di_at s' t') (zip_with di_at s t).
Proof.
  intros Hs. revert t' t. induction Hs as [|a' a s' s Ha _ IH]; intros t' t Ht.
  - constructor.
  - destruct Ht as [|b' b t' t Hb Ht]; cbn [zip_with]; constructor.
    + by apply di_at_scale.
    + by apply IH.
Qed.

Lemma calculate_di_rescale (df : frame) (n : Z) plus minus :
  calculate_di df n = Ok (plus, minus) ->
  exists plus' minus',
    calculate_di (rescale c df) n = Ok (plus', minus') /\
    Forall2 Qeq plus' plus /\ Forall2 Qeq minus' minus.
Proof.
  intros H. pose proof (calculate_di_Ok_inv _ _ _ _ H) as Hn.
  rewrite calculate_di_Ok in H by done. injection H as <- <-.
  destruct (columns_scale df) as (Ht & Hp & Hm).
  do 2 eexists. split; [by apply calculate_di_Ok|].
  split; apply di_columns_same; by apply ewm_mean_scale.
Qed.
End Unit.

Section UnitBacktest.
Import TitanMath Backtest.
Variable c : Q.
Hypothesis c_pos : 0 < c.

Lemma iloc_same (l' l : list Q) (i : nat) :
  Forall2 Qeq l' l ->
  (iloc l' i = Raise IndexError /\ iloc l i = Raise IndexError) \/
  (exists v' v, iloc l' i = Ok v' /\ iloc l i = Ok v /\ v' == v).
Proof.
  intros H. unfold iloc. destruct (l !! i) as [v|] eqn:E.
  - destruct (Forall2_lookup_r _ _ _ _ _ H E) as (v' & -> & Hv). right. by exists v', v.
  - left. apply lookup_ge_None in E. rewrite <- (Forall2_length _ _ _ H) in E.
    apply lookup_ge_None in E. by rewrite E.
Qed.

(** The loop body of the counter reads its inputs through comparisons
    only, so equal rationals give the same arrays. *)
Lemma trend_body_same (p' p m' m : list Q) st i :
  Forall2 Qeq p' p -> Forall2 Qeq m' m ->
  trend_body p' m' st i = trend_body p m st i.
Proof.
  intros Hp Hm. destruct st as [pos neg]. unfold trend_body.
  destruct (iloc_same p' p (i - 1) Hp) as [[-> ->]|(a' & a & -> & -> & Ha)];
    [reflexivity|]. cbn [mbind res_bind].
  destruct (iloc_same m' m (i - 1) Hm) as [[-> ->]|(b' & b & -> & -> & Hb)];
    [reflexivity|]. cbn [mbind res_bind].
  destruct (iloc_same p' p i Hp) as [[-> ->]|(x' & x & -> & -> & Hx)];
    [reflexivity|]. cbn [mbind res_bind].
  destruct (iloc_same m' m i Hm) as [[-> ->]|(y' & y & -> & -> & Hy)];
    [reflexivity|]. cbn [mbind res_bind].
  by rewrite (Qgtb_proper x' x a' a Hx Ha), (Qgtb_proper x' x y' y Hx Hy),
    (Qgtb_proper y' y b' b Hy Hb), (Qgtb_proper y' y x' x Hy Hx).
Qed.

Lemma for_each_ext {S} (body' body : S -> nat -> res S) (indices : list nat) (st : S) :
  (forall s i, body' s i = body s i) ->
  for_each body' indices st = for_each body indices st.
Proof.
  intros H. revert st. induction indices as [|i rest IH]; intros st; [reflexivity|].
  cbn [for_each]. rewrite H. destruct (body st i); [apply IH | reflexivity].
Qed.

Lemma calculate_trend_count_same (p' p m' m : list Q) :
  Forall2 Qeq p' p -> Forall2 Qeq m' m ->
  calculate_trend_count p' m' = calculate_trend_count p m.
Proof.
  intros Hp Hm. unfold calculate_trend_count.
  rewrite (Forall2_length _ _ _ Hp), (Forall2_length _ _ _ Hm).
  by rewrite (for_each_ext (trend_body p' m') (trend_body p m) _ _
                (fun s i => trend_body_same p' p m' m s i Hp Hm)).
Qed.

(** A loop run on two related states ends in related states. *)
Lemma for_each_related {S} (R : S -> S -> Prop) (body' body : S -> nat -> res S)
    (indices : list nat) (st' st out : S) :
  R st' st ->
  (forall i s' s s1, R s' s -> body s i = Ok s1 ->
     exists s1', body' s' i = Ok s1' /\ R s1' s1) ->
  for_each body indices st = Ok out ->
  exists out', for_each body' indices st' = Ok out' /\ R out' out.
Proof.
  intros HR Hstep. revert st' st HR.
  induction indices as [|i rest IH]; intros st' st HR H; cbn [for_each] in *.
  - injection H as <-. by exists st'.
  - inv_bind H. destruct (Hstep i st' st v HR Hv) as (s1' & -> & HR1).
    cbn [mbind res_bind]. by apply (IH s1' v).
Qed.

Lemma realise_same (st' st : sim_state) (price : Q) :
  same_position c st' st -> realise st' (c * price) == realise st price.
Proof.
  intros (_ & _ & Hr & He). unfold realise.
  rewrite (ratio_scale c c_pos price (c * price) (entry_price st) (entry_price st'))
    by (exact He || reflexivity).
  by rewrite Hr.
Qed.

Lemma iloc_scaled (close : list Q) i price :
  iloc close i = Ok price ->
  iloc ((fun x => c * x) <$> close) i = Ok (c * price).
Proof.
  intros H. apply iloc_Ok in H. apply iloc_Ok. by rewrite list_lookup_fmap, H.
Qed.

Lemma iloc_neg_scaled (close : list Q) k price :
  iloc_neg close k = Ok price ->
  iloc_neg ((fun x => c * x) <$> close) k = Ok (c * price).
Proof.
  unfold iloc_neg. rewrite length_fmap.
  destruct (length close <? k)%nat; [done|]. apply iloc_scaled.
Qed.

Lemma sim_body_same close es xs i st' st s1 :
  same_position c st' st ->
  sim_body close es xs st i = Ok s1 ->
  exists s1', sim_body ((fun x => c * x) <$> close) es xs st' i = Ok s1' /\
    same_position c s1' s1.
Proof.
  intros HR H. pose proof HR as (Hin & Htr & Hret & Hent).
  unfold sim_body in *. inv_bind H. rewrite (iloc_scaled _ _ _ Hv).
  cbn [mbind res_bind]. rewrite Hin.
  destruct (in_position st) eqn:Ein; cbn [negb] in *; inv_bind H; rewrite Hv0;
    cbn [mbind res_bind]; destruct v0; injection H as <-; eexists;
    (split; [reflexivity|]); try exact HR.
  - split; [reflexivity|]. cbn [in_position trades total_return entry_price].
    split; [by rewrite Htr|]. split; [by apply realise_same | exact Hent].
  - split; [reflexivity|]. cbn [in_position trades total_return entry_price].
    split; [exact Htr|]. split; [exact Hret | reflexivity].
Qed.

Lemma simulate_same close pos neg st :
  simulate close pos neg = Ok st ->
  exists st', simulate ((fun x => c * x) <$> close) pos neg = Ok st' /\
    trades st' = trades st /\ total_return st' == total_return st.
Proof.
  intros H. unfold simulate in *. inv_bind H. unfold trade_loop in *.
  destruct (for_each_related (same_position c)
              (sim_body ((fun x => c * x) <$> close) (ignition pos) (ignition neg))
              (sim_body close (ignition pos) (ignition neg))
              (seq 1 (length close - 1)) sim_init sim_init v)
    as (v' & Hv' & HR).
  { unfold same_position, sim_init. cbn [in_position trades total_return entry_price].
    split; [reflexivity|]. split; [reflexivity|]. split; [reflexivity|]. ring. }
  { intros i s' s s1 Hs Hb. by apply sim_body_same with (st := s). }
  { exact Hv. }
  rewrite length_fmap. rewrite Hv'. cbn [mbind res_bind].
  pose proof HR as (Hin & Htr & Hret & Hent).
  unfold close_open_position in *. rewrite Hin.
  destruct (in_position v) eqn:Ein.
  - inv_bind H. injection H as <-. rewrite (iloc_neg_scaled _ _ _ Hv0).
    cbn [mbind res_bind]. eexists. split; [reflexivity|].
    cbn [trades total_return]. split; [by rewrite Htr | by apply realise_same].
  - injection H as <-. exists v'. by split.
Qed.

Lemma stats_of_same (st' st : sim_state) (lc fc : Q) :
  trades st' = trades st -> total_return st' == total_return st ->
  same_stats (stats_of st' (c * lc) (c * fc)) (stats_of st lc fc).
Proof.
  intros Htr Hret. unfold same_stats, stats_of.
  cbn [is_valid alpha algo_ret buy_hold total_trades reason].
  assert ((total_return st' - 1) * 100 == (total_return st - 1) * 100) as Ea
    by (by rewrite Hret).
  assert ((c * lc - c * fc) / (c * fc) * 100 == (lc - fc) / fc * 100) as Eb.
  { rewrite (ratio_scale c c_pos lc (c * lc) fc (c * fc)) by reflexivity.
    reflexivity. }
  split.
  { by rewrite (Qgtb_proper _ _ 0 0 Ea (Qeq_refl 0)), (Qgtb_proper _ _ _ _ Ea Eb). }
  split; [by rewrite Ea, Eb|]. split; [exact Ea|]. split; [exact Eb|].
  split; [exact Htr | reflexivity].
Qed.

Lemma closes_rescale (df : frame) :
  Close <$> rescale c df = (fun x => c * x) <$> (Close <$> df).
Proof. unfold rescale, frame. rewrite <- !list_fmap_compose. reflexivity. Qed.

Lemma check_alpha_validity_rescale (df : frame) (L : Z) s :
  check_alpha_validity df L = Ok s ->
  exists s', check_alpha_validity (rescale c df) L = Ok s' /\ same_stats s' s.
Proof.
  intros H. destruct (Nat.lt_ge_cases (length df) 50) as [Hlt|Hge].
  - unfold check_alpha_validity in *. rewrite length_rescale.
    apply Nat.ltb_lt in Hlt. rewrite Hlt in *. injection H as <-.
    eexists. split; [reflexivity|]. by repeat split.
  - assert (1 <= L)%Z as HL.
    { destruct (check_alpha_validity_inv _ _ _ H) as [[Hs _]|(_ & HL & _)];
        [lia | exact HL]. }
    destruct (check_alpha_validity_Ok df L Hge HL)
      as (plus & minus & pos & neg & st & lc & fc & Hdi & Htc & Hsim & Hlc & Hfc & Hc).
    rewrite Hc in H. injection H as <-.
    destruct (check_alpha_validity_Ok (rescale c df) L
                ltac:(by rewrite length_rescale) HL)
      as (plus2 & minus2 & pos2 & neg2 & st2 & lc2 & fc2
          & Hdi2 & Htc2 & Hsim2 & Hlc2 & Hfc2 & Hc2).
    destruct (calculate_di_rescale c c_pos df L plus minus Hdi)
      as (plus' & minus' & Hdi' & Hp & Hm).
    rewrite Hdi' in Hdi2. injection Hdi2 as <- <-.
    rewrite (calculate_trend_count_same _ _ _ _ Hp Hm), Htc in Htc2.
    injection Htc2 as <- <-.
    destruct (simulate_same _ _ _ _ Hsim) as (st' & Hsim' & Htr & Hret).
    rewrite closes_rescale, Hsim' in Hsim2. injection Hsim2 as <-.
    rewrite closes_rescale, list_lookup_fmap, length_rescale, Hlc in Hlc2.
    rewrite closes_rescale, list_lookup_fmap, Hfc in Hfc2.
    injection Hlc2 as <-. injection Hfc2 as <-.
    eexists. split; [exact Hc2|]. by apply stats_of_same.
Qed.
End UnitBacktest.

Section UnitScanner.
Import AlphaScanner.
Variable c : Q.
Hypothesis c_pos : 0 < c.

Lemma check_positive_length (df : frame) (L : Z) :
  (1 <= L)%Z -> exists s, Backtest.check_alpha_validity df L = Ok s.
Proof.
  intros HL. destruct (Nat.lt_ge_cases (length df) 50) as [Hlt|Hge].
  - unfold Backtest.check_alpha_validity. apply Nat.ltb_lt in Hlt. rewrite Hlt. eauto.
  - by apply check_alpha_validity_total.
Qed.

Lemma search_body_same (df : frame) (st' st : search_state) (L : Z) :
  (1 <= L)%Z -> same_search st' st ->
  same_search (search_body (rescale c df) st' L) (search_body df st L).
Proof.
  intros HL HR. destruct (check_positive_length df L HL) as [s Hs].
  destruct (check_alpha_validity_rescale c c_pos df L s Hs) as (s' & Hs' & Hss).
  pose proof Hss as (_ & Ha & _).
  destruct st' as [[br' ba'] bl'], st as [[br ba] bl]. unfold search_body.
  rewrite Hs, Hs'.
  destruct br' as [b'|], ba' as [|a'], br as [b|], ba as [|a];
    cbn [same_search] in HR; try contradiction.
  - destruct HR as (Hb & Hab & ->). cbn [beats].
    rewrite (Qgtb_proper _ _ _ _ Ha Hab).
    destruct (Qgtb (Backtest.alpha s) a); cbn [same_search].
    + exact (conj Hss (conj Ha eq_refl)).
    + exact (conj Hb (conj Hab eq_refl)).
  - subst bl'. cbn [beats same_search]. exact (conj Hss (conj Ha eq_refl)).
Qed.

Lemma fold_search_same (df : frame) (lengths : list Z) (st' st : search_state) :
  Forall (fun L => (1 <= L)%Z) lengths -> same_search st' st ->
  same_search (fold_left (search_body (rescale c df)) lengths st')
    (fold_left (search_body df) lengths st).
Proof.
  intros H. revert st' st. induction H as [|L lengths HL _ IH]; intros st' st HR.
  - exact HR.
  - cbn [fold_left]. apply IH. by apply search_body_same.
Qed.

Lemma grid_search_same (df : frame) :
  same_search (grid_search (rescale c df)) (grid_search df).
Proof.
  unfold grid_search. apply fold_search_same; [|reflexivity].
  apply List.Forall_forall. intros L HL. apply In_py_range in HL.
  unfold DI_LENGTH_MIN in HL. lia.
Qed.

Lemma strength_label_proper (v' v : Q) :
  v' == v -> strength_label v' = strength_label v.
Proof.
  intros H. unfold strength_label.
  by rewrite (Qgtb_proper v' v 20 20 H (Qeq_refl 20)),
    (Qgtb_proper v' v 10 10 H (Qeq_refl 10)).
Qed.

Lemma analyze_symbol_rescale
    (get_stock_history' get_stock_history : string -> Z -> frame) symbol days r :
  get_stock_history' symbol days = rescale c (get_stock_history symbol days) ->
  analyze_symbol get_stock_history symbol days = Some r ->
  exists r', analyze_symbol get_stock_history' symbol days = Some r' /\
    same_verdict c r' r.
Proof.
  intros E Hr.
  destruct (analyze_symbol_result get_stock_history symbol days r Hr)
    as (Hge & _ & _ & Hcp & _).
  assert (50 <= length (get_stock_history' symbol days))%nat as Hge'
    by (by rewrite E, length_rescale).
  destruct (analyze_symbol_Ok get_stock_history symbol days Hge)
    as (s & L & plus & minus & pos & neg & cur & prev & lp & lm & cp
        & Hgs & Hdi & Htc & Hcur & Hprev & Hlp & Hlm & Hrec).
  destruct (analyze_symbol_Ok get_stock_history' symbol days Hge')
    as (s' & L' & plus' & minus' & pos' & neg' & cur' & prev' & lp' & lm' & cp'
        & Hgs' & Hdi' & Htc' & Hcur' & Hprev' & Hlp' & Hlm' & Hrec').
  destruct (analyze_symbol_result get_stock_history' symbol days _ Hrec')
    as (_ & _ & _ & Hcp' & _).
  rewrite Hrec in Hr. injection Hr as <-.
  cbn [close_price] in Hcp, Hcp'.
  rewrite E in Hgs', Hdi', Hcur', Hprev', Hlp', Hlm', Hcp'.
  rewrite length_rescale in Hcur', Hprev', Hlp', Hlm', Hcp'.
  pose proof (grid_search_same (get_stock_history symbol days)) as Hsame.
  rewrite Hgs, Hgs' in Hsame. cbn [same_search] in Hsame.
  destruct Hsame as (Hss & _ & ->).
  destruct (calculate_di_rescale c c_pos _ L plus minus Hdi)
    as (plus2 & minus2 & Hdi2 & Hp & Hm).
  rewrite Hdi2 in Hdi'. injection Hdi' as <- <-.
  rewrite (calculate_trend_count_same _ _ _ _ Hp Hm), Htc in Htc'.
  injection Htc' as <- <-.
  assert (cur' = cur) as -> by congruence.
  assert (prev' = prev) as -> by congruence.
  pose proof (Forall2_lookup_lr _ _ _ _ _ _ Hp Hlp' Hlp) as Elp.
  pose proof (Forall2_lookup_lr _ _ _ _ _ _ Hm Hlm' Hlm) as Elm.
  assert (cp' = c * cp) as ->.
  { rewrite closes_rescale, list_lookup_fmap, Hcp in Hcp'. by injection Hcp' as <-. }
  destruct Hss as (Hv & Ha & Hr & Hb & Ht & _).
  eexists. split; [exact Hrec'|]. unfold same_verdict.
  cbn [AlphaScanner.symbol close_price is_valid alpha algo_ret buy_hold total_trades
       is_buy_signal trend_strength plus_di minus_di optimal_length scan_range].
  split; [reflexivity|]. split; [reflexivity|]. split; [exact Hv|].
  split; [exact Ha|]. split; [exact Hr|]. split; [exact Hb|]. split; [exact Ht|].
  split; [reflexivity|].
  split; [apply strength_label_proper; by rewrite Elp, Elm|].
  split; [exact Elp|]. split; [exact Elm|]. by split.
Qed.
End UnitScanner.

(** X22. In exact arithmetic the directional indicators do not depend on
    the price unit: on a frame with every price multiplied by [c > 0],
    [calculate_di] returns the same plusDI and minusDI. *)
Theorem di_ignores_the_price_unit (c : Q) (df : frame) (n : Z) plus minus :
  0 < c ->
  TitanMath.calculate_di df n = Ok (plus, minus) ->
  exists plus' minus',
    TitanMath.calculate_di (rescale c df) n = Ok (plus', minus') /\
    Forall2 Qeq plus' plus /\ Forall2 Qeq minus' minus.
Proof. intros Hc H. by apply calculate_di_rescale. Qed.

Lemma di_ignores_the_price_unit_witness :
  exists plus' minus',
    TitanMath.calculate_di (rescale 1000 [mkBar 3 1 2; mkBar 5 2 4; mkBar 4 1 1]) 2
      = Ok (plus', minus') /\
    Forall2 Qeq plus' [0 # 2; 1600 # 40; 12800 # 704] /\
    Forall2 Qeq minus' [0 # 2; 0 # 40; 12800 # 704].
Proof.
  apply (di_ignores_the_price_unit 1000 [mkBar 3 1 2; mkBar 5 2 4; mkBar 4 1 1] 2);
    [reflexivity | lazy; reflexivity].
Defined.

(** X23. In exact arithmetic the backtest does not depend on the price
    unit: on a frame with every price multiplied by [c > 0],
    [check_alpha_validity] returns the same verdict, the same returns and
    alpha, and the same number of trades. *)
Theorem backtest_ignores_the_price_unit (c : Q) (df : frame) (di_length : Z) s :
  0 < c ->
  Backtest.check_alpha_validity df di_length = Ok s ->
  exists s', Backtest.check_alpha_validity (rescale c df) di_length = Ok s' /\
    same_stats s' s.
Proof. intros Hc H. by apply check_alpha_validity_rescale. Qed.

Lemma backtest_ignores_the_price_unit_witness :
  exists s s', Backtest.check_alpha_validity bump_frame 1 = Ok s /\
    Backtest.check_alpha_validity (rescale 1000 bump_frame) 1 = Ok s' /\
    same_stats s' s.
Proof.
  destruct bump_first_length as (s & Hs & _).
  destruct (backtest_ignores_the_price_unit 1000 bump_frame 1 s eq_refl Hs)
    as (s' & Hs' & Hss).
  exists s, s'. exact (conj Hs (conj Hs' Hss)).
Defined.

(** X24. In exact arithmetic the analysis of a stock does not depend on
    the price unit: if a second client delivers the same history with
    every price multiplied by [c > 0], [analyze_symbol] finds the same
    optimal length and reports the same figures, flags and labels; only
    the close price is in the other unit. *)
Theorem verdict_ignores_the_price_unit (c : Q)
    (get_stock_history' get_stock_history : string -> Z -> frame)
    (symbol : string) (days : Z) r :
  0 < c ->
  get_stock_history' symbol days = rescale c (get_stock_history symbol days) ->
  AlphaScanner.analyze_symbol get_stock_history symbol days = Some r ->
  exists r', AlphaScanner.analyze_symbol get_stock_history' symbol days = Some r' /\
    same_verdict c r' r.
Proof. intros Hc E H. by apply (analyze_symbol_rescale c Hc _ get_stock_history). Qed.

Lemma verdict_ignores_the_price_unit_witness :
  exists r r', AlphaScanner.analyze_symbol sample_client "VNM" 730 = Some r /\
    AlphaScanner.analyze_symbol
      (fun symbol days => rescale 1000 (sample_client symbol days)) "VNM" 730
      = Some r' /\
    same_verdict 1000 r' r.
Proof.
  destruct slump_analysis as (r & Hr & _).
  destruct (verdict_ignores_the_price_unit 1000
              (fun symbol days => rescale 1000 (sample_client symbol days))
              sample_client "VNM" 730 r eq_refl eq_refl Hr) as (r' & Hr' & Hv).
  exists r, r'. exact (conj Hr (conj Hr' Hv)).
Defined.

(** ** The ticker lists *)

Section Tickers.
Import DataFeed.

Lemma dict_insert_spec (d : list string) (key : string) :
  NoDup d ->
  NoDup (dict_insert d key) /\
  (forall x, In x (dict_insert d key) <-> In x d \/ x = key) /\
  exists tl, dict_insert d key = d ++ tl.
Proof.
  intros Hd. unfold dict_insert. destruct (existsb (String.eqb key) d) eqn:E.
  - apply existsb_exists in E as (y & Hy & Ey). apply String.eqb_eq in Ey. subst y.
    split; [exact Hd|]. split.
    + intros x. split; [by left | by intros [H| ->]].
    + exists []. by rewrite app_nil_r.
  - split; [|split].
    + apply NoDup_app. split; [exact Hd|]. split; [|apply NoDup_singleton].
      intros x Hx Hk. apply list_elem_of_In in Hx, Hk. destruct Hk as [<-|[]].
      assert (existsb (String.eqb key) d = true) as E'; [|congruence].
      apply existsb_exists. exists key. split; [exact Hx | apply String.eqb_refl].
    + intros x. rewrite in_app_iff. cbn [In]. intuition.
    + by exists [key].
Qed.

Lemma fold_dict_insert (keys d : list string) :
  NoDup d ->
  NoDup (fold_left dict_insert keys d) /\
  (forall x, In x (fold_left dict_insert keys d) <-> In x d \/ In x keys) /\
  exists tl, fold_left dict_insert keys d = d ++ tl.
Proof.
  revert d. induction keys as [|k keys IH]; intros d Hd; cbn [fold_left].
  - split; [exact Hd|]. split; [intros x; cbn [In]; tauto|].
    exists []. by rewrite app_nil_r.
  - destruct (dict_insert_spec d k Hd) as (H1 & H2 & tl1 & H3).
    destruct (IH _ H1) as (I1 & I2 & tl2 & I3).
    split; [exact I1|]. split.
    + intros x. rewrite I2, H2. cbn [In]. intuition.
    + exists (tl1 ++ tl2). by rewrite I3, H3, app_assoc.
Qed.

(** A scan reports no symbol more often than the ticker list holds it. *)
Lemma scan_symbols (get_stock_history : string -> Z -> frame)
    (tickers : list string) (days : Z) :
  NoDup tickers ->
  NoDup (AlphaScanner.symbol <$>
           AlphaScanner.scan_vn100 get_stock_history tickers days).
Proof.
  intros Hnd.
  assert (Permutation
            (AlphaScanner.symbol <$>
               AlphaScanner.scan_vn100 get_stock_history tickers days)
            (AlphaScanner.symbol <$>
               omap (fun symbol =>
                       AlphaScanner.analyze_symbol get_stock_history symbol days)
                 tickers)) as Hperm.
  { unfold AlphaScanner.scan_vn100. apply fmap_Permutation, list_sort_perm. }
  rewrite Hperm.
  apply (fun H => sublist_NoDup _ _ H
                    (symbols_of_analyses_sublist get_stock_history tickers days)).
  apply NoDup_ListNoDup, List.NoDup_filter. by apply NoDup_ListNoDup.
Qed.
End Tickers.

(** X25. [get_vn100_tickers] lists every ticker of the two groups once,
    in the order of first appearance, the VN30 group first, so
    [get_vn30_tickers] is its beginning; MWG, listed in both groups, is
    kept once.  A scan of these tickers therefore reports no symbol
    twice. *)
Theorem tickers_are_listed_once
    (get_stock_history : string -> Z -> frame) (days : Z) :
  NoDup DataFeed.get_vn100_tickers /\
  (forall t, In t DataFeed.get_vn100_tickers
             <-> In t DataFeed.vn30 \/ In t DataFeed.midcap_liquid) /\
  take 30 DataFeed.get_vn100_tickers = DataFeed.get_vn30_tickers /\
  In "MWG"%string DataFeed.vn30 /\ In "MWG"%string DataFeed.midcap_liquid /\
  NoDup (AlphaScanner.symbol <$>
           AlphaScanner.scan_vn100 get_stock_history DataFeed.get_vn100_tickers days).
Proof.
  destruct (fold_dict_insert (DataFeed.vn30 ++ DataFeed.midcap_liquid) [])
    as (Hnd & Hin & _); [constructor|].
  fold (DataFeed.dict_fromkeys (DataFeed.vn30 ++ DataFeed.midcap_liquid)) in Hnd, Hin.
  fold DataFeed.get_vn100_tickers in Hnd, Hin.
  split; [exact Hnd|]. split.
  { intros t. rewrite Hin, in_app_iff. cbn [In]. tauto. }
  split; [vm_compute; reflexivity|].
  split; [vm_compute; tauto|]. split; [vm_compute; tauto|].
  by apply scan_symbols.
Qed.
